(** * Proxy inventory and connectivity-testing engine

    A shallow embedding of the parts of the proxy-config tester that the
    specification talks about:

    - [parseConfig] and the two [addProcessedConfigs]: the one of
      [ConfigManager.tsx] and the one of the [App] component (module [App]
      below),
    - [testConfig] and the way its result is merged into a record,
    - [evaluateRule] and the smart-group classification,
    - the comparator of [filteredAndSortedConfigs],
    - the scheduler [startTesting] / [runNext] / [stopTesting].

    Conventions of the embedding.

    - A JavaScript string is a [string]; the examples are ASCII.
    - A JavaScript number is a [number]: [NaN], the two infinities, or a
      finite double, held as the rational it is ([-0] is not told apart
      from [0]; no comparison of the program does).  The fields [latency],
      [score] and [speed] of a record only ever hold the result of
      [Math.floor] or [Math.round], [-1] or [0], and are integers.
    - The arithmetic of the program on fractions is the arithmetic of
      doubles: the exact result rounded to the nearest double, a tie going
      to the even significand ([rnd]).  The exponent range is left
      unbounded; the computations of the program stay far inside the range
      of a double.
    - A value read from a parsed JSON document is a [jsval]; the fields
      [name] and [host] of a record hold such a value because the vmess
      branch of [parseConfig] stores [data.ps] and [data.add] unconverted.
    - An exception is an outcome [Throw e] of the [result] monad;
      [try { .. } catch { .. }] is [try_catch].  [Number(v)], [String(v)]
      and [a < b] convert an object to a primitive first, which throws a
      [TypeError] for an object whose own [toString] is not a function.
    - Browser built-ins whose code is not part of the repository ([atob],
      [JSON.parse], [new URL], [decodeURIComponent], the conversions between
      strings and numbers, [uuidv4], the [COUNTRIES] table) are the fields
      of a [Runtime] record.  The general statements hold for every runtime;
      the closed examples run on [sampleRuntime].
    - [Math.random] and the geolocation request are inputs of [testConfig]
      (a [Draws] record).
    - A callback closes over the state of the render that created it:
      [addProcessedConfigs] reads the [configs] of its closure and appends
      to the state [setConfigs] hands to its updater, and the two are
      arguments of their own.
    - The scheduler is single-threaded and cooperative: its state changes
      only when a probe resolves or when the stop button is pressed, so a run
      is a list of such events executed from the state [startTesting]
      leaves. *)

From Stdlib Require Import ZArith QArith Qround Qabs Qpower Qreduction.
From Stdlib Require Import Lia Lqa Ascii.
From stdpp Require Import base list strings gmap pretty sorting.

Set Warnings "-register-all".
Open Scope Z_scope.

(** ** JavaScript values and exceptions *)

Inductive number :=
| NaN
| Num (x : Q)
| Infinity
| NegInfinity.

(** An integer as a number. *)
Definition Int (z : Z) : number := Num (inject_Z z).

Inductive jsval :=
| JUndefined
| JNull
| JBool (b : bool)
| JNum (n : number)
| JStr (s : string)
| JArr (items : list jsval)
| JObj (fields : list (string * jsval)).

Inductive exn := TypeError | SyntaxError | URIError | InvalidCharacterError.

Inductive result (A : Type) :=
| Ok (a : A)
| Throw (e : exn).
Arguments Ok {A} a.
Arguments Throw {A} e.

#[global] Instance result_ret : MRet result := λ A, Ok.
#[global] Instance result_bind : MBind result :=
  λ A B f m, match m with Ok a => f a | Throw e => Throw e end.

(** [try { body } catch (e) { handler }] *)
Definition try_catch {A} (body : result A) (handler : exn → result A) : result A :=
  match body with
  | Ok a => Ok a
  | Throw e => handler e
  end.

#[global] Instance Q_eq_dec : EqDecision Q.
Proof. solve_decision. Defined.
#[global] Instance number_eq_dec : EqDecision number.
Proof. solve_decision. Defined.
#[global] Instance exn_eq_dec : EqDecision exn.
Proof. solve_decision. Defined.

(** [x < y] on rationals, as a boolean. *)
Definition Qltb (x y : Q) : bool := negb (Qle_bool y x).

(** [a < b] on numbers: false as soon as one of them is [NaN]. *)
Definition num_lt (a b : number) : bool :=
  match a, b with
  | Num x, Num y => Qltb x y
  | Num _, Infinity | NegInfinity, Num _ | NegInfinity, Infinity => true
  | _, _ => false
  end.

(** [a === b] on numbers. *)
Definition num_eq (a b : number) : bool :=
  match a, b with
  | Num x, Num y => Qeq_bool x y
  | Infinity, Infinity | NegInfinity, NegInfinity => true
  | _, _ => false
  end.

(** [isNaN(a)] *)
Definition isNaN (a : number) : bool :=
  match a with NaN => true | _ => false end.

(** [Math.min(a, b)]: [NaN] as soon as one of them is. *)
Definition Math_min (a b : number) : number :=
  match a, b with
  | NaN, _ | _, NaN => NaN
  | _, _ => if num_lt b a then b else a
  end.

(** Property read [v.k]: reading a property of [undefined] or [null] throws
    a [TypeError]; none of the keys the program reads ([ps], [add], [port])
    exists on a primitive or on an array, so they read as [undefined]
    there.  The fields of an object are as [JSON.parse] leaves them, one
    entry per key. *)
Fixpoint assoc (k : string) (fields : list (string * jsval)) : jsval :=
  match fields with
  | [] => JUndefined
  | (k', v) :: rest => if String.eqb k k' then v else assoc k rest
  end.

Definition get_prop (v : jsval) (k : string) : result jsval :=
  match v with
  | JUndefined | JNull => Throw TypeError
  | JObj fields => Ok (assoc k fields)
  | _ => Ok JUndefined
  end.

(** [Object.hasOwn(v, k)] for the fields of an object. *)
Definition has_key (k : string) (fields : list (string * jsval)) : bool :=
  existsb (λ kv, String.eqb k (fst kv)) fields.

(** Truthiness, as [||] tests it. *)
Definition truthy (v : jsval) : bool :=
  match v with
  | JUndefined | JNull => false
  | JBool b => b
  | JNum NaN => false
  | JNum (Num x) => negb (Qeq_bool x 0)
  | JNum _ => true
  | JStr s => negb (String.eqb s EmptyString)
  | JArr _ | JObj _ => true
  end.

(** [a || b] *)
Definition js_or (a b : jsval) : jsval := if truthy a then a else b.

(** ** The runtime: built-ins that are not code of the repository *)

Record URL := {
  url_protocol : string;   (* with the trailing colon *)
  url_hostname : string;
  url_port : string;
  url_hash : string;       (* with the leading hash sign, or empty *)
}.

Record Runtime := {
  atob : string → result string;
  JSON_parse : string → result jsval;
  new_URL : string → result URL;
  decodeURIComponent : string → result string;
  (* Number(s) for a string s *)
  StringToNumber : string → number;
  (* String(n) for a number n *)
  NumberToString : number → string;
  (* the k-th identifier uuidv4() hands out *)
  uuidv4 : nat → string;
  (* COUNTRIES of constants.ts: country code and country name *)
  COUNTRIES : list (string * string);
  (* JSON has no undefined: a document never parses to it *)
  JSON_parse_defined : ∀ s, JSON_parse s ≠ Ok JUndefined;
}.

(** [items.join(",")], with [f] for the conversion of an element to a
    string: [undefined] and [null] give the empty string. *)
Fixpoint join_with (f : jsval → result string) (l : list jsval)
  : result string :=
  match l with
  | [] => Ok EmptyString
  | x :: l' =>
      sx ← match x with
           | JUndefined | JNull => Ok EmptyString
           | _ => f x
           end;
      match l' with
      | [] => Ok sx
      | _ => rest ← join_with f l'; Ok (sx +:+ "," +:+ rest)
      end
  end.

(** [String(v)], which for an array or an object is also the primitive the
    value converts to.  The values at hand are made by [JSON.parse] (or are
    primitives of the form), so an object has the methods of
    [Object.prototype] unless a key of its own shadows them, and a key of
    its own never holds a function.  An object with a key [toString] of its
    own therefore has no primitive value, and the conversion throws a
    [TypeError]; any other object converts to ["[object Object]"].  An array
    converts to its elements joined by commas. *)
Fixpoint String_ (R : Runtime) (v : jsval) {struct v} : result string :=
  match v with
  | JUndefined => Ok "undefined"
  | JNull => Ok "null"
  | JBool b => Ok (if b then "true" else "false")
  | JNum n => Ok (NumberToString R n)
  | JStr s => Ok s
  | JArr items => join_with (String_ R) items
  | JObj fields =>
      if has_key "toString" fields then Throw TypeError
      else Ok "[object Object]"
  end.

(** A primitive: anything but an array or an object. *)
Definition primitive (v : jsval) : Prop :=
  match v with JArr _ | JObj _ => False | _ => True end.

(** [Number(v)]: an array or an object converts to a primitive first, the
    string [String_] gives. *)
Definition Number (R : Runtime) (v : jsval) : result number :=
  match v with
  | JUndefined => Ok NaN
  | JNull => Ok (Int 0)
  | JBool b => Ok (Int (if b then 1 else 0))
  | JNum n => Ok n
  | JStr s => Ok (StringToNumber R s)
  | JArr _ | JObj _ => s ← String_ R v; Ok (StringToNumber R s)
  end.

(** ** String methods *)

(** [s.startsWith(p)] *)
Definition startsWith (s p : string) : bool := String.prefix p s.

Fixpoint drop_string (n : nat) (s : string) : string :=
  match n, s with
  | O, _ => s
  | S n', EmptyString => EmptyString
  | S n', String _ s' => drop_string n' s'
  end.

(** [s.substring(n)] *)
Definition substring_from (n : nat) (s : string) : string := drop_string n s.

(** [s.replace(pat, by)] for a string pattern: the first occurrence only. *)
Fixpoint replace_first (pat by_ s : string) : string :=
  if String.prefix pat s then by_ +:+ drop_string (String.length pat) s
  else match s with
       | EmptyString => EmptyString
       | String c s' => String c (replace_first pat by_ s')
       end.

(** [s.replace(/^ss:\/\//, 'http://')]: the pattern is anchored at the start. *)
Definition replace_ss_prefix (s : string) : string :=
  if String.prefix "ss://" s then "http://" +:+ drop_string 5 s else s.

(** White space, for [trim]: tab, line feed, vertical tab, form feed,
    carriage return and space. *)
Definition is_white (c : ascii) : bool :=
  let n := nat_of_ascii c in
  ((9 <=? n)%nat && (n <=? 13)%nat) || (n =? 32)%nat.

Fixpoint trim_left (s : string) : string :=
  match s with
  | EmptyString => EmptyString
  | String c s' => if is_white c then trim_left s' else s
  end.

Fixpoint trim_right (s : string) : string :=
  match s with
  | EmptyString => EmptyString
  | String c s' =>
      match trim_right s' with
      | EmptyString => if is_white c then EmptyString else String c EmptyString
      | t => String c t
      end
  end.

(** [s.trim()] *)
Definition trim (s : string) : string := trim_right (trim_left s).

Definition lower_ascii (c : ascii) : ascii :=
  let n := nat_of_ascii c in
  if ((65 <=? n)%nat && (n <=? 90)%nat) then ascii_of_nat (n + 32) else c.

(** [s.toLowerCase()] *)
Fixpoint toLowerCase (s : string) : string :=
  match s with
  | EmptyString => EmptyString
  | String c s' => String (lower_ascii c) (toLowerCase s')
  end.

(** [s.includes(sub)] *)
Fixpoint includes (s sub : string) : bool :=
  String.prefix sub s ||
  match s with
  | EmptyString => false
  | String _ s' => includes s' sub
  end.

(** ** types.ts *)

Inductive Protocol := Vmess | Vless | Shadowsocks | Trojan | Hidify | Unknown.

Inductive Status := Active | Slow | Inactive | Testing | Untested.

#[global] Instance Protocol_eq_dec : EqDecision Protocol.
Proof. solve_decision. Defined.
#[global] Instance Status_eq_dec : EqDecision Status.
Proof. solve_decision. Defined.

(** The string value of the enum member, as a template literal prints it. *)
Definition Protocol_str (p : Protocol) : string :=
  match p with
  | Vmess => "Vmess" | Vless => "Vless" | Shadowsocks => "Shadowsocks"
  | Trojan => "Trojan" | Hidify => "Hidify" | Unknown => "Unknown"
  end.

Definition Status_str (s : Status) : string :=
  match s with
  | Active => "Active" | Slow => "Slow" | Inactive => "Inactive"
  | Testing => "Testing" | Untested => "Untested"
  end.

Record ProxyConfig := {
  id : string;
  name : jsval;
  protocol : Protocol;
  host : jsval;
  port : number;
  ip : string;
  country : string;
  countryCode : string;
  latency : Z;
  status : Status;
  score : Z;
  lastTested : string;
  rawConfig : string;
  latencyHistory : list Z;
  group : option string;
  speed : Z;
}.

(** [Partial<ProxyConfig>]: [None] is an absent key, [Some v] a present
    one.  A key that is present with the value [undefined] is
    [Some JUndefined]; object spread copies it like any other. *)
Record PartialConfig := {
  p_name : option jsval;
  p_protocol : option Protocol;
  p_host : option jsval;
  p_port : option number;
  p_ip : option string;
  p_country : option string;
  p_countryCode : option string;
  p_latency : option Z;
  p_status : option Status;
  p_score : option Z;
  p_latencyHistory : option (list Z);
  p_speed : option Z;
}.

Definition empty_partial : PartialConfig :=
  {| p_name := None; p_protocol := None; p_host := None; p_port := None;
     p_ip := None; p_country := None; p_countryCode := None;
     p_latency := None; p_status := None; p_score := None;
     p_latencyHistory := None; p_speed := None |}.

(** [{...c, ...p}] *)
Definition spread (c : ProxyConfig) (p : PartialConfig) : ProxyConfig :=
  {| id := id c;
     name := default (name c) (p_name p);
     protocol := default (protocol c) (p_protocol p);
     host := default (host c) (p_host p);
     port := default (port c) (p_port p);
     ip := default (ip c) (p_ip p);
     country := default (country c) (p_country p);
     countryCode := default (countryCode c) (p_countryCode p);
     latency := default (latency c) (p_latency p);
     status := default (status c) (p_status p);
     score := default (score c) (p_score p);
     lastTested := lastTested c;
     rawConfig := rawConfig c;
     latencyHistory := default (latencyHistory c) (p_latencyHistory p);
     group := group c;
     speed := default (speed c) (p_speed p) |}.

Definition set_status (st : Status) (c : ProxyConfig) : ProxyConfig :=
  {| id := id c; name := name c; protocol := protocol c; host := host c;
     port := port c; ip := ip c; country := country c;
     countryCode := countryCode c; latency := latency c; status := st;
     score := score c; lastTested := lastTested c; rawConfig := rawConfig c;
     latencyHistory := latencyHistory c; group := group c; speed := speed c |}.

Definition set_lastTested (t : string) (c : ProxyConfig) : ProxyConfig :=
  {| id := id c; name := name c; protocol := protocol c; host := host c;
     port := port c; ip := ip c; country := country c;
     countryCode := countryCode c; latency := latency c; status := status c;
     score := score c; lastTested := t; rawConfig := rawConfig c;
     latencyHistory := latencyHistory c; group := group c; speed := speed c |}.

(** ** ConfigManager.tsx: parseConfig *)

Definition placeholder : PartialConfig :=
  {| p_name := Some (JStr "Unnamed Config"); p_protocol := Some Unknown;
     p_host := Some (JStr "unknown.host"); p_port := Some (Int 0);
     p_ip := None; p_country := None; p_countryCode := None;
     p_latency := None; p_status := None; p_score := None;
     p_latencyHistory := None; p_speed := None |}.

Definition parsed (pr : Protocol) (nm hs : jsval) (pt : number) : PartialConfig :=
  {| p_name := Some nm; p_protocol := Some pr; p_host := Some hs;
     p_port := Some pt;
     p_ip := None; p_country := None; p_countryCode := None;
     p_latency := None; p_status := None; p_score := None;
     p_latencyHistory := None; p_speed := None |}.

Definition protocol_of_str (s : string) : Protocol :=
  if String.eqb s "vless" then Vless
  else if String.eqb s "ss" then Shadowsocks
  else if String.eqb s "trojan" then Trojan
  else Unknown.

(** The [try] block: [Ok (Some p)] is a [return p] inside it, [Ok None] is
    falling out of it. *)
Definition parseConfig_try (R : Runtime) (raw : string)
  : result (option PartialConfig) :=
  if startsWith raw "vmess://" then
    decoded ← atob R (replace_first "vmess://" EmptyString raw);
    data ← JSON_parse R decoded;
    ps ← get_prop data "ps";
    add ← get_prop data "add";
    prt ← get_prop data "port";
    port ← Number R prt;
    mret (Some (parsed Vmess (js_or ps (JStr "Vmess Config")) add port))
  else if startsWith raw "vless://" || startsWith raw "ss://"
          || startsWith raw "trojan://" then
    url ← new_URL R raw;
    let protocolStr := replace_first ":" EmptyString (url_protocol url) in
    let protocol := protocol_of_str protocolStr in
    nm ← decodeURIComponent R (substring_from 1 (url_hash url));
    mret (Some (parsed protocol
                  (js_or (JStr nm) (JStr (Protocol_str protocol +:+ " Config")))
                  (JStr (url_hostname url))
                  (StringToNumber R (url_port url))))
  else mret None.

Definition parseConfig (R : Runtime) (raw : string) : result PartialConfig :=
  r ← try_catch (parseConfig_try R raw) (λ _, mret None);
  match r with
  | Some p => mret p
  | None => mret placeholder
  end.

(** ** ConfigManager.tsx: addProcessedConfigs *)

(** The object literal of [addProcessedConfigs] before [...parsed]. *)
Definition new_config (R : Runtime) (k : nat) (raw : string) : ProxyConfig :=
  {| id := uuidv4 R k;
     name := JStr "New Config";
     protocol := Unknown;
     host := JStr "N/A";
     port := Int 0;
     ip := "N/A";
     country := "Unknown";
     countryCode := "UNKNOWN";
     latency := -1;
     status := Untested;
     score := 0;
     lastTested := "Never";
     rawConfig := raw;
     latencyHistory := [];
     group := None;
     speed := 0 |}.

(** [l.map(f)] for a callback that can throw and that draws one identifier
    per element: the first exception leaves the whole [map]. *)
Fixpoint map_result {A B} (f : nat → A → result B) (k : nat) (l : list A)
  : result (list B) :=
  match l with
  | [] => mret []
  | x :: l' =>
      y ← f k x;
      ys ← map_result f (S k) l';
      mret (y :: ys)
  end.

(** The predicate of the [filter] of both [addProcessedConfigs]. *)
Definition is_new (existingConfigs : gset string) (raw : string) : Prop :=
  trim raw ≠ EmptyString ∧ raw ∉ existingConfigs.

#[global] Instance is_new_dec existingConfigs raw : Decision (is_new existingConfigs raw).
Proof. unfold is_new. apply _. Defined.

(** [parseConfig(raw) || {}]: [parseConfig] returns an object, which is
    truthy, so the alternative is never taken.  [configs] is the inventory
    of the render whose closure the call runs in, which the set of known
    raw strings is made of; [prev] is the inventory at the moment of the
    call, which [setConfigs(prev => ..)] appends to.  They are the same
    list when the call is the first one of a handler, and differ when a
    handler calls again after an [await] ([handleFetchAllSubscriptions]).
    The result is the inventory [setConfigs] leaves and the returned count;
    [k] is the number of identifiers drawn so far. *)
Definition addProcessedConfigs (R : Runtime) (k : nat)
    (configs prev : list ProxyConfig) (rawConfigs : list string)
  : result (list ProxyConfig * nat) :=
  let existingConfigs : gset string := list_to_set (rawConfig <$> configs) in
  newConfigs ← map_result
      (λ i raw, parsed ← parseConfig R raw;
                mret (spread (new_config R i raw) parsed))
      k (filter (is_new existingConfigs) rawConfigs);
  mret (if bool_decide (0 < length newConfigs)%nat
        then prev ++ newConfigs else prev,
        length newConfigs).

(** ** The App component: addProcessedConfigs *)

Module App.

Definition protocol_only (pr : Protocol) : PartialConfig :=
  {| p_name := None; p_protocol := Some pr; p_host := None; p_port := None;
     p_ip := None; p_country := None; p_countryCode := None;
     p_latency := None; p_status := None; p_score := None;
     p_latencyHistory := None; p_speed := None |}.

(** The simplified parser local to [addProcessedConfigs]. *)
Definition parseConfig (raw : string) : result PartialConfig :=
  r ← try_catch
        (if startsWith raw "vmess://" then mret (Some (protocol_only Vmess))
         else if startsWith raw "vless://" then mret (Some (protocol_only Vless))
         else if startsWith raw "ss://" then mret (Some (protocol_only Shadowsocks))
         else if startsWith raw "trojan://" then mret (Some (protocol_only Trojan))
         else mret None)
        (λ _, mret None);
  match r with
  | Some p => mret p
  | None => mret (protocol_only Unknown)
  end.

Definition new_config (R : Runtime) (k : nat) (nm : jsval) (raw : string)
  : ProxyConfig :=
  {| id := uuidv4 R k;
     name := nm;
     protocol := Unknown;
     host := JStr "N/A";
     port := Int 0;
     ip := "N/A";
     country := "Unknown";
     countryCode := "UNKNOWN";
     latency := -1;
     status := Untested;
     score := 0;
     lastTested := "Never";
     rawConfig := raw;
     latencyHistory := [];
     group := None;
     speed := 0 |}.

(** The callback of [map]: [new URL] and [decodeURIComponent] are called
    outside any [try]. *)
Definition make_config (R : Runtime) (i : nat) (raw : string)
  : result ProxyConfig :=
  parsed ← parseConfig raw;
  url ← new_URL R (replace_ss_prefix raw);
  nm ← decodeURIComponent R (substring_from 1 (url_hash url));
  mret (spread (new_config R i (js_or (JStr nm) (JStr "New Config")) raw) parsed).

Definition addProcessedConfigs (R : Runtime) (k : nat)
    (configs prev : list ProxyConfig) (rawConfigs : list string)
  : result (list ProxyConfig * nat) :=
  let existingConfigs : gset string := list_to_set (rawConfig <$> configs) in
  newConfigs ← map_result (make_config R) k
                 (filter (is_new existingConfigs) rawConfigs);
  mret (if bool_decide (0 < length newConfigs)%nat
        then prev ++ newConfigs else prev,
        length newConfigs).

End App.

(** ** The arithmetic of doubles *)

(** [2^k] *)
Definition pow2 (k : Z) : Q := Qpower 2 k.

(** The binade of a positive number: the [e] with [2^e <= x < 2^(e+1)]. *)
Definition binade (x : Q) : Z :=
  let e0 := Z.log2 (Qnum x) - Z.log2 (Zpos (Qden x)) in
  if Qle_bool (pow2 e0) x then e0 else e0 - 1.

(** The nearest integer, a tie going to the even one. *)
Definition round_even (q : Q) : Z :=
  let f := Qfloor q in
  match (q - inject_Z f ?= 1 # 2)%Q with
  | Lt => f
  | Gt => f + 1
  | Eq => if Z.even f then f else f + 1
  end.

(** The nearest number with a significand of 53 bits, for [x > 0]. *)
Definition round53 (x : Q) : Q :=
  let e := binade x in
  (inject_Z (round_even (x * pow2 (52 - e))) * pow2 (e - 52))%Q.

(** The double nearest to [x]. *)
Definition rnd (x : Q) : Q :=
  let y := Qred x in
  match (y ?= 0)%Q with
  | Gt => round53 y
  | Lt => (- round53 (- y))%Q
  | Eq => 0%Q
  end.

(** The bound of the relative error of one rounding. *)
Definition eps : Q := 1 # (2 ^ 53).

(** [x + y], [x - y], [x * y] and [x / y] on doubles ([y] is not [0] where
    the program divides). *)
Definition dadd (x y : Q) : Q := rnd (x + y).
Definition dsub (x y : Q) : Q := rnd (x - y).
Definition dmul (x y : Q) : Q := rnd (x * y).
Definition ddiv (x y : Q) : Q := rnd (x / y).

(** The literals [0.1], [0.2] and [0.8]. *)
Definition d0_1 : Q := rnd (1 # 10).
Definition d0_2 : Q := rnd (2 # 10).
Definition d0_8 : Q := rnd (8 # 10).

(** [Math.round]: the nearest integer, a tie going up. *)
Definition Math_round (x : Q) : Z := Qfloor (x + (1 # 2)).

(** ** ConfigManager.tsx: testConfig *)

(** What the geolocation request of a successful probe came back with. *)
Inductive GeoOutcome :=
| GeoThrew                       (* fetch or response.json() rejected *)
| GeoNotOk                       (* response.ok is false *)
| GeoFalsy                       (* the body is a falsy JSON value *)
| GeoJson (bogon : bool) (geo_ip geo_country : string).

(** The inputs of one probe that the code does not control: the three
    values of [Math.random] that decide its outcome, each a double in
    [0, 1), and the geolocation outcome. *)
Record Draws := {
  u_latency : Q;
  u_fail : Q;
  u_jitter : Q;
  geo : GeoOutcome;
}.

Definition unit_interval (u : Q) : Prop := (0 <= u)%Q ∧ (u < 1)%Q.

Definition Draws_ok (d : Draws) : Prop :=
  unit_interval (u_latency d) ∧ unit_interval (u_fail d) ∧ unit_interval (u_jitter d).

Definition Qgtb (x y : Q) : bool := negb (Qle_bool x y).

(** [const testLatency = 50 + Math.floor(Math.random() * 2000)] *)
Definition testLatency (d : Draws) : Z := 50 + Qfloor (dmul (u_latency d) 2000).

(** [a > b] for an integer [a]: false when [b] is [NaN]. *)
Definition gt_number (a : Z) (b : number) : bool := num_lt b (Int a).

(** The condition of the failure branch. *)
Definition probe_failed (timeout : number) (d : Draws) : bool :=
  gt_number (testLatency d) timeout || Qgtb (u_fail d) d0_8.

Definition lookup_country (R : Runtime) (code : string) : option string :=
  snd <$> List.find (λ kv, String.eqb (fst kv) code) (COUNTRIES R).

Definition or_str (s alt : string) : string :=
  if String.eqb s EmptyString then alt else s.

Definition with_geo (R : Runtime) (g : GeoOutcome) (p : PartialConfig)
  : PartialConfig :=
  match g with
  | GeoJson false geo_ip geo_country =>
      let code :=
        or_str (default EmptyString
                  (fst <$> List.find (λ kv, String.eqb (fst kv) geo_country)
                                     (COUNTRIES R)))
               "UNKNOWN" in
      {| p_name := p_name p; p_protocol := p_protocol p; p_host := p_host p;
         p_port := p_port p;
         p_ip := Some geo_ip;
         p_country := Some (or_str (default EmptyString (lookup_country R code))
                                   "Unknown");
         p_countryCode := Some code;
         p_latency := p_latency p; p_status := p_status p;
         p_score := p_score p; p_latencyHistory := p_latencyHistory p;
         p_speed := p_speed p |}
  | _ => p
  end.

Definition test_result (st : Status) (lat sc : Z) (hist : list Z) (sp : Z)
  : PartialConfig :=
  {| p_name := None; p_protocol := None; p_host := None; p_port := None;
     p_ip := None; p_country := None; p_countryCode := None;
     p_latency := Some lat; p_status := Some st; p_score := Some sc;
     p_latencyHistory := Some hist; p_speed := Some sp |}.

Definition baseSpeed (lat : Z) : Z := Z.max 50 (2000 - lat).

(** [Math.max(0, Math.round(100 - testLatency / 20))] *)
Definition score_of (lat : Z) : Z :=
  Z.max 0 (Math_round (dsub 100 (ddiv (inject_Z lat) 20))).

(** [Math.round(baseSpeed + (Math.random() * baseSpeed * 0.2 - baseSpeed * 0.1))] *)
Definition speed_of (u : Q) (lat : Z) : Z :=
  let baseSpeed := inject_Z (baseSpeed lat) in
  Math_round
    (dadd baseSpeed
          (dsub (dmul (dmul u baseSpeed) d0_2) (dmul baseSpeed d0_1))).

Definition testConfig (R : Runtime) (config : ProxyConfig) (timeout : number)
    (d : Draws) : PartialConfig :=
  let testLatency := testLatency d in
  let newHistory := take 10 (testLatency :: latencyHistory config) in
  if probe_failed timeout d then
    test_result Inactive (-1) 0 (take 10 (-1 :: latencyHistory config)) 0
  else
    let status := if bool_decide (1000 < testLatency) then Slow else Active in
    let score := score_of testLatency in
    let speed := speed_of (u_jitter d) testLatency in
    with_geo R (geo d) (test_result status testLatency score newHistory speed).

(** [{ ...c, ...result, lastTested: new Date().toLocaleTimeString() }] *)
Definition applyResult (c : ProxyConfig) (result : PartialConfig) (now : string)
  : ProxyConfig :=
  set_lastTested now (spread c result).

(** One completed probe whose result is applied, as both the manual run and
    the unattended run perform it: [testConfig] on [config], the record as
    it was when the probe was queued, then the merge into [c], the record
    with the identifier of [config] that the inventory holds when the probe
    resolves. *)
Definition probe (R : Runtime) (timeout : number) (config : ProxyConfig)
    (dn : Draws * string) (c : ProxyConfig) : ProxyConfig :=
  applyResult c (testConfig R config timeout (fst dn)) (snd dn).


(** ** ConfigManager.tsx: evaluateRule and the smart groups *)

Inductive RuleField :=
| f_name | f_protocol | f_host | f_country | f_latency | f_score | f_speed
| f_group | f_rawConfig.

Inductive RuleOperator :=
| contains | not_contains | equals | not_equals | greater_than | less_than.

Record Rule := {
  rule_id : string;
  field : RuleField;
  operator : RuleOperator;
  value : jsval;               (* string | number *)
}.

Record SmartGroup := {
  sg_id : string;
  sg_name : string;
  sg_color : string;
  rules : list Rule;
}.

(** [config[rule.field]] *)
Definition get_field (config : ProxyConfig) (f : RuleField) : jsval :=
  match f with
  | f_name => name config
  | f_protocol => JStr (Protocol_str (protocol config))
  | f_host => host config
  | f_country => JStr (country config)
  | f_latency => JNum (Int (latency config))
  | f_score => JNum (Int (score config))
  | f_speed => JNum (Int (speed config))
  | f_group => match group config with Some g => JStr g | None => JUndefined end
  | f_rawConfig => JStr (rawConfig config)
  end.

Definition numFields : list RuleField := [f_latency; f_score; f_speed].
Definition strFields : list RuleField :=
  [f_name; f_protocol; f_host; f_country; f_group; f_rawConfig].

#[global] Instance RuleField_eq_dec : EqDecision RuleField.
Proof. solve_decision. Defined.

Definition evaluateRule (R : Runtime) (config : ProxyConfig) (rule : Rule)
  : result bool :=
  let configValue := get_field config (field rule) in
  let ruleValue := value rule in
  match configValue with
  | JUndefined | JNull => Ok false
  | _ =>
      if bool_decide (field rule ∈ numFields) then
        valA ← Number R configValue;
        valB ← Number R ruleValue;
        if isNaN valA || isNaN valB then Ok false
        else
          Ok match operator rule with
             | equals => num_eq valA valB
             | not_equals => negb (num_eq valA valB)
             | greater_than => num_lt valB valA
             | less_than => num_lt valA valB
             | _ => false
             end
      else if bool_decide (field rule ∈ strFields) then
        sA ← String_ R configValue;
        sB ← String_ R ruleValue;
        let valA := toLowerCase sA in
        let valB := toLowerCase sB in
        Ok match operator rule with
           | contains => includes valA valB
           | not_contains => negb (includes valA valB)
           | equals => String.eqb valA valB
           | not_equals => negb (String.eqb valA valB)
           | _ => false
           end
      else Ok false
  end.

(** An element of [configsWithSmartGroups]: [{ ...c, smartGroups }]. *)
Record ConfigWithGroups := {
  cfg : ProxyConfig;
  smartGroups : list string;
}.

(** [l.every(f)] for a callback that can throw: the callback is not called
    after the first [false]. *)
Fixpoint every_result {A} (f : A → result bool) (l : list A) : result bool :=
  match l with
  | [] => Ok true
  | x :: l' => b ← f x; if (b : bool) then every_result f l' else Ok false
  end.

(** [l.filter(f)] for a callback that can throw. *)
Fixpoint filter_result {A} (f : A → result bool) (l : list A) : result (list A) :=
  match l with
  | [] => mret []
  | x :: l' =>
      b ← f x;
      r ← filter_result f l';
      mret (if (b : bool) then x :: r else r)
  end.

(** [l.map(f)] for a callback that can throw. *)
Fixpoint map_res {A B} (f : A → result B) (l : list A) : result (list B) :=
  match l with
  | [] => mret []
  | x :: l' => y ← f x; ys ← map_res f l'; mret (y :: ys)
  end.

(** [sg.rules.every(rule => evaluateRule(c, rule))] *)
Definition matches (R : Runtime) (c : ProxyConfig) (sg : SmartGroup)
  : result bool :=
  every_result (evaluateRule R c) (rules sg).

(** The callback of [configs.map]. *)
Definition classify (R : Runtime) (groups : list SmartGroup) (c : ProxyConfig)
  : result ConfigWithGroups :=
  matchedGroups ← filter_result (matches R c) groups;
  Ok {| cfg := c; smartGroups := sg_name <$> matchedGroups |}.

Definition configsWithSmartGroups (R : Runtime) (groups : list SmartGroup)
    (configs : list ProxyConfig) : result (list ConfigWithGroups) :=
  map_res (classify R groups) configs.

(** ** ConfigManager.tsx: filteredAndSortedConfigs *)

Inductive SortKey :=
| k_name | k_latency | k_country | k_score | k_lastTested | k_speed | k_group.

Inductive SortDirection := asc | desc.

Record SortConfig := {
  key : SortKey;
  direction : SortDirection;
}.

(** [ToPrimitive(v)], as a comparison applies it to its operands. *)
Definition ToPrimitive (R : Runtime) (v : jsval) : result jsval :=
  match v with
  | JArr _ | JObj _ => s ← String_ R v; Ok (JStr s)
  | _ => Ok v
  end.

Definition string_lt (s t : string) : bool :=
  match String.compare s t with
  | Lt => true
  | _ => false
  end.

(** The comparison of two primitives: two strings compare as strings,
    anything else as numbers. *)
Definition prim_lt (R : Runtime) (pa pb : jsval) : result bool :=
  match pa, pb with
  | JStr s, JStr t => Ok (string_lt s t)
  | _, _ => na ← Number R pa; nb ← Number R pb; Ok (num_lt na nb)
  end.

(** [a < b] and [a > b]: both convert [a], then [b]. *)
Definition js_lt (R : Runtime) (a b : jsval) : result bool :=
  pa ← ToPrimitive R a; pb ← ToPrimitive R b; prim_lt R pa pb.

Definition js_gt (R : Runtime) (a b : jsval) : result bool :=
  pa ← ToPrimitive R a; pb ← ToPrimitive R b; prim_lt R pb pa.

(** [aVal] of the comparator, for the record [a]. *)
Definition sort_value (k : SortKey) (a : ConfigWithGroups) : jsval :=
  match k with
  | k_latency =>
      if bool_decide (latency (cfg a) = -1) then JNum Infinity
      else JNum (Int (latency (cfg a)))
  | k_group => JStr (default EmptyString (group (cfg a)))
  | k_name => name (cfg a)
  | k_country => JStr (country (cfg a))
  | k_score => JNum (Int (score (cfg a)))
  | k_lastTested => JStr (lastTested (cfg a))
  | k_speed => JNum (Int (speed (cfg a)))
  end.

(** The comparator handed to [sort]. *)
Definition compareConfigs (R : Runtime) (sortConfig : SortConfig)
    (a b : ConfigWithGroups) : result Z :=
  let aVal := sort_value (key sortConfig) a in
  let bVal := sort_value (key sortConfig) b in
  lt ← js_lt R aVal bVal;
  if (lt : bool) then
    Ok match direction sortConfig with asc => -1 | desc => 1 end
  else
    gt ← js_gt R aVal bVal;
    if (gt : bool) then
      Ok match direction sortConfig with asc => 1 | desc => -1 end
    else Ok 0.

(** [Array.prototype.sort(cmp)].  The language leaves the algorithm to the
    engine but requires it to be stable and, for a consistent comparator, to
    return the elements in the comparator's order; that fixes the result, and
    insertion from the right computes it.  An exception of the comparator
    leaves the sort; the comparator at hand throws exactly when one of its
    two arguments has a key without a primitive value, and every element of
    a list of two or more is compared at least once, here as in any
    engine. *)
Fixpoint insert_by {A} (cmp : A → A → result Z) (x : A) (l : list A)
  : result (list A) :=
  match l with
  | [] => Ok [x]
  | y :: l' =>
      c ← cmp x y;
      if 0 <? c then r ← insert_by cmp x l'; Ok (y :: r)
      else Ok (x :: l)
  end.

Fixpoint sort_by {A} (cmp : A → A → result Z) (l : list A) : result (list A) :=
  match l with
  | [] => Ok []
  | x :: l' => r ← sort_by cmp l'; insert_by cmp x r
  end.

(** [v.toLowerCase()]: a [TypeError] unless [v] is a string. *)
Definition toLowerCase_of (v : jsval) : result string :=
  match v with
  | JStr s => Ok (toLowerCase s)
  | _ => Throw TypeError
  end.

Record Filters := {
  statusFilter : option Status;        (* None is 'All' *)
  protocolFilter : option Protocol;    (* None is 'All' *)
  groupFilter : string;
  searchTerm : string;
}.

Definition status_pass (fl : Filters) (c : ConfigWithGroups) : bool :=
  match statusFilter fl with
  | None => true
  | Some st => bool_decide (status (cfg c) = st)
  end.

Definition protocol_pass (fl : Filters) (c : ConfigWithGroups) : bool :=
  match protocolFilter fl with
  | None => true
  | Some pr => bool_decide (protocol (cfg c) = pr)
  end.

Definition group_pass (fl : Filters) (c : ConfigWithGroups) : bool :=
  if String.eqb (groupFilter fl) "All" then true
  else if String.eqb (groupFilter fl) "none" then
    match group (cfg c) with
    | None => true
    | Some g => String.eqb g EmptyString
    end
  else bool_decide (group (cfg c) = Some (groupFilter fl))
       || bool_decide (groupFilter fl ∈ smartGroups c).

Definition search_pass (fl : Filters) (c : ConfigWithGroups) : result bool :=
  nm ← toLowerCase_of (name (cfg c));
  if includes nm (toLowerCase (searchTerm fl)) then Ok true
  else
    hs ← toLowerCase_of (host (cfg c));
    Ok (includes hs (toLowerCase (searchTerm fl))).

Definition filteredAndSortedConfigs (R : Runtime) (groups : list SmartGroup)
    (fl : Filters) (sortConfig : SortConfig) (configs : list ProxyConfig)
  : result (list ConfigWithGroups) :=
  l0 ← configsWithSmartGroups R groups configs;
  let l1 := List.filter (status_pass fl) l0 in
  let l2 := List.filter (protocol_pass fl) l1 in
  let l3 := List.filter (group_pass fl) l2 in
  l4 ← filter_result (search_pass fl) l3;
  sort_by (compareConfigs R sortConfig) l4.

(** ** ConfigManager.tsx: the manual test run *)

(** The settings the engine reads.  The three numeric ones are whatever
    [Number(value)] made of the text of the form field. *)
Record SettingsData := {
  timeout : number;
  concurrentTests : number;
  autoTestInterval : number;
  autoTestOnlyInactive : bool;
  settings_smartGroups : list SmartGroup;
}.

(** The state a run reads and writes: the React state ([configs],
    [isTesting], [counters], [testProgress]), the ref [testingStopFlag], the
    locals of [startTesting] that [runNext] closes over ([queue], [running],
    [testedCount], and [total] for [configsToTest.length]), and the probes
    that have been started and not yet resolved ([pending]). *)
Record Sched := {
  configs : list ProxyConfig;
  isTesting : bool;
  testingStopFlag : bool;
  counters : Z * Z;                    (* success, fail *)
  testProgress : Z;
  total : Z;
  queue : list ConfigWithGroups;
  running : Z;
  testedCount : Z;
  pending : list ConfigWithGroups;
}.

(** [c.status === Status.Testing ? {...c, status: Status.Untested} : c] *)
Definition revert_testing (c : ProxyConfig) : ProxyConfig :=
  if bool_decide (status c = Testing) then set_status Untested c else c.

(** [runNext], up to its [await]. *)
Definition runNext (s : Sched) : Sched :=
  if testingStopFlag s then
    if bool_decide (running s = 0) then
      {| configs := revert_testing <$> configs s;
         isTesting := false;
         testingStopFlag := testingStopFlag s; counters := counters s;
         testProgress := testProgress s; total := total s; queue := queue s;
         running := running s; testedCount := testedCount s;
         pending := pending s |}
    else s
  else
    match queue s with
    | [] =>
        if bool_decide (running s = 0) then
          {| configs := configs s;
             isTesting := false;
             testingStopFlag := testingStopFlag s; counters := counters s;
             testProgress := testProgress s; total := total s;
             queue := queue s; running := running s;
             testedCount := testedCount s; pending := pending s |}
        else s
    | config :: rest =>
        {| configs := configs s; isTesting := isTesting s;
           testingStopFlag := testingStopFlag s; counters := counters s;
           testProgress := testProgress s; total := total s;
           queue := rest;                      (* queue.shift() *)
           running := running s + 1;           (* running++ *)
           testedCount := testedCount s;
           pending := pending s ++ [config] |} (* await testConfig(config, ..) *)
    end.

Definition count_result (result : PartialConfig) (cnt : Z * Z) : Z * Z :=
  (match p_status result with
   | Some Active | Some Slow => fst cnt + 1
   | _ => fst cnt
   end,
   match p_status result with
   | Some Inactive => snd cnt + 1
   | _ => snd cnt
   end).

(** [runNext] from its [await] on, for the probe of [config]. *)
Definition resume (R : Runtime) (settings : SettingsData) (s : Sched)
    (config : ConfigWithGroups) (d : Draws) (now : string) : Sched :=
  let result := testConfig R (cfg config) (timeout settings) d in
  let counters1 :=
    if testingStopFlag s then counters s else count_result result (counters s) in
  let configs1 :=
    if testingStopFlag s then configs s
    else (λ c, if bool_decide (id c = id (cfg config))
               then applyResult c result now else c) <$> configs s in
  runNext
    {| configs := configs1; isTesting := isTesting s;
       testingStopFlag := testingStopFlag s; counters := counters1;
       testProgress :=
         Math_round (dmul (ddiv (inject_Z (testedCount s + 1))
                                (inject_Z (total s))) 100);
       total := total s; queue := queue s;
       running := running s - 1;               (* running-- *)
       testedCount := testedCount s + 1;       (* testedCount++ *)
       pending := pending s |}.

(** The [for] loop at the end of [startTesting]; [queue.length] is read
    again at every turn.  A turn either shortens the queue or leaves the
    bound where it is while [i] grows, so [length queue] turns of [fuel]
    are enough (lemma [launch_fuel]). *)
(** [i < Math.min(concurrentTests, len)]; [Math.min] of [NaN] is [NaN]. *)
Definition lt_min (i : Z) (concurrentTests : number) (len : nat) : bool :=
  num_lt (Int i) (Math_min concurrentTests (Int (Z.of_nat len))).

Fixpoint launch (fuel : nat) (concurrentTests : number) (i : Z) (s : Sched)
  : Sched :=
  match fuel with
  | O => s
  | S fuel' =>
      if lt_min i concurrentTests (length (queue s))
      then launch fuel' concurrentTests (i + 1) (runNext s)
      else s
  end.

Definition is_candidate (c : ConfigWithGroups) : Prop :=
  status (cfg c) = Untested ∨ status (cfg c) = Inactive.

#[global] Instance is_candidate_dec c : Decision (is_candidate c).
Proof. unfold is_candidate. apply _. Defined.

(** [configsToTest.some(ct => ct.id === c.id) ? {...c, status: Testing} : c] *)
Definition mark_testing (configsToTest : list ConfigWithGroups) (c : ProxyConfig)
  : ProxyConfig :=
  if existsb (λ ct, String.eqb (id (cfg ct)) (id c)) configsToTest
  then set_status Testing c else c.

(** [startTesting]: [shown] is the memoised [filteredAndSortedConfigs] the
    callback closes over, [configs0] the inventory. *)
Definition startTesting (settings : SettingsData)
    (shown : list ConfigWithGroups) (configs0 : list ProxyConfig) : Sched :=
  let configsToTest := filter is_candidate shown in
  launch (length configsToTest) (concurrentTests settings) 0
    {| configs := mark_testing configsToTest <$> configs0;
       isTesting := true;
       testingStopFlag := false;
       counters := (0, 0);
       testProgress := 0;
       total := Z.of_nat (length configsToTest);
       queue := configsToTest;
       running := 0;
       testedCount := 0;
       pending := [] |}.

Definition stopTesting (s : Sched) : Sched :=
  {| configs := configs s; isTesting := isTesting s;
     testingStopFlag := true;
     counters := counters s; testProgress := testProgress s;
     total := total s; queue := queue s; running := running s;
     testedCount := testedCount s; pending := pending s |}.

(** What can happen to a run: an awaited probe resolves, or the button,
    which reads "stop" exactly while [isTesting] holds, is pressed. *)
Inductive Event :=
| Resolved (i : nat) (d : Draws) (now : string)
| StopPressed.

Definition drop_pending (i : nat) (s : Sched) : Sched :=
  {| configs := configs s; isTesting := isTesting s;
     testingStopFlag := testingStopFlag s; counters := counters s;
     testProgress := testProgress s; total := total s; queue := queue s;
     running := running s; testedCount := testedCount s;
     pending := delete i (pending s) |}.

Definition fire (R : Runtime) (settings : SettingsData) (s : Sched) (e : Event)
  : option Sched :=
  match e with
  | StopPressed => if isTesting s then Some (stopTesting s) else None
  | Resolved i d now =>
      config ← pending s !! i;
      Some (resume R settings (drop_pending i s) config d now)
  end.

(** A run: the events in the order they happen; [None] when an event
    cannot happen in the state it meets. *)
Fixpoint run (R : Runtime) (settings : SettingsData) (events : list Event)
    (s : Sched) : option Sched :=
  match events with
  | [] => Some s
  | e :: events' => s' ← fire R settings s e; run R settings events' s'
  end.

(** The number of probes that resolve in a run. *)
Definition resolutions (events : list Event) : Z :=
  Z.of_nat
    (length (List.filter
               (λ e, match e with Resolved _ _ _ => true | _ => false end)
               events)).

(** ** ConfigManager.tsx: the unattended run *)

Definition autoTest_candidates (settings : SettingsData)
    (configs0 : list ProxyConfig) : list ProxyConfig :=
  if autoTestOnlyInactive settings
  then filter (λ c, status c = Inactive ∨ status c = Untested) configs0
  else configs0.

(** The [for .. of] loop of [startAutoTest]: one probe after the other,
    each merged into the inventory by identifier. *)
Fixpoint autoTest_loop (R : Runtime) (settings : SettingsData)
    (configsToTest : list ProxyConfig) (ds : list (Draws * string))
    (inventory : list ProxyConfig) : list ProxyConfig :=
  match configsToTest, ds with
  | config :: rest, (d, now) :: ds' =>
      let result := testConfig R config (timeout settings) d in
      autoTest_loop R settings rest ds'
        ((λ c, if bool_decide (id c = id config)
               then applyResult c result now else c) <$> inventory)
  | _, _ => inventory
  end.

Definition startAutoTest (R : Runtime) (settings : SettingsData)
    (hidden : bool) (ds : list (Draws * string)) (configs0 : list ProxyConfig)
  : list ProxyConfig :=
  if hidden then configs0
  else autoTest_loop R settings (autoTest_candidates settings configs0) ds configs0.

(** ** Settings.tsx: the settings form *)

(** [handleInputChange] for a field that is not a checkbox: the three
    numeric settings become [Number(value)] for the string [value] of the
    form field, with no bound and no rounding applied. *)
Definition handleInputChange (R : Runtime) (name value : string)
    (localSettings : SettingsData) : SettingsData :=
  {| timeout :=
       if String.eqb name "timeout" then StringToNumber R value
       else timeout localSettings;
     concurrentTests :=
       if String.eqb name "concurrentTests" then StringToNumber R value
       else concurrentTests localSettings;
     autoTestInterval :=
       if String.eqb name "autoTestInterval" then StringToNumber R value
       else autoTestInterval localSettings;
     autoTestOnlyInactive := autoTestOnlyInactive localSettings;
     settings_smartGroups := settings_smartGroups localSettings |}.

(** The rule [handleAddRule] appends to the group being edited. *)
Definition newRule (rid : string) : Rule :=
  {| rule_id := rid; field := f_latency; operator := less_than;
     value := JNum (Int 300) |}.

(** ** ConfigManager.tsx: the handlers around the inventory *)

Definition newline : ascii := "010"%char.

(** [s.split('\n')] *)
Fixpoint split_lines (s : string) : list string :=
  match s with
  | EmptyString => [EmptyString]
  | String c s' =>
      if Ascii.eqb c newline then EmptyString :: split_lines s'
      else match split_lines s' with
           | [] => [String c EmptyString]
           | line :: lines => String c line :: lines
           end
  end.

(** [l.join('\n')] *)
Fixpoint join_lines (l : list string) : string :=
  match l with
  | [] => EmptyString
  | [a] => a
  | a :: rest => a +:+ String newline (join_lines rest)
  end.

(** [processInputs]: the text of the paste box, one link a line.  The
    handler runs on a click, in the closure of the render that shows the
    inventory [configs], and calls [addProcessedConfigs] once: the inventory
    of the closure is the one appended to. *)
Definition processInputs (R : Runtime) (k : nat) (configs : list ProxyConfig)
    (inputConfigs : string) : result (list ProxyConfig * nat) :=
  addProcessedConfigs R k configs configs (split_lines inputConfigs).

(** [handleShareSelected]: the text written to the clipboard, [None] when
    nothing is written. *)
Definition handleShareSelected (selectedConfigIds : gset string)
    (configs : list ProxyConfig) : option string :=
  let selectedRawConfigs :=
    join_lines (rawConfig <$> filter (λ c, id c ∈ selectedConfigIds) configs) in
  if String.eqb selectedRawConfigs EmptyString then None
  else Some selectedRawConfigs.

(** [handleDeleteSelected], once the user has confirmed: the inventory and
    the selection it leaves. *)
Definition handleDeleteSelected (selectedConfigIds : gset string)
    (configs : list ProxyConfig) : list ProxyConfig * gset string :=
  (filter (λ c, id c ∉ selectedConfigIds) configs, ∅).

Definition set_group (g : option string) (c : ProxyConfig) : ProxyConfig :=
  {| id := id c; name := name c; protocol := protocol c; host := host c;
     port := port c; ip := ip c; country := country c;
     countryCode := countryCode c; latency := latency c; status := status c;
     score := score c; lastTested := lastTested c; rawConfig := rawConfig c;
     latencyHistory := latencyHistory c; group := g; speed := speed c |}.

(** [handleSetGroup]: [answer] is what [prompt] returned, [None] for a
    cancelled prompt; the empty answer removes the group
    ([groupName || undefined]). *)
Definition handleSetGroup (answer : option string)
    (selectedConfigIds : gset string) (configs : list ProxyConfig)
  : list ProxyConfig :=
  match answer with
  | None => configs
  | Some groupName =>
      (λ c, if bool_decide (id c ∈ selectedConfigIds)
            then set_group (if String.eqb groupName EmptyString then None
                            else Some groupName) c
            else c) <$> configs
  end.

(** The records [handleCopyBest] chooses among. *)
Definition is_working (c : ProxyConfig) : Prop :=
  (status c = Active ∨ status c = Slow) ∧ -1 < latency c.

#[global] Instance is_working_dec c : Decision (is_working c).
Proof. unfold is_working. apply _. Defined.

(** [(best, current) => current.latency < best.latency ? current : best] *)
Definition better (best current : ProxyConfig) : ProxyConfig :=
  if bool_decide (latency current < latency best) then current else best.

(** [bestConfig] of [handleCopyBest]: [reduce] without an initial value
    starts from the first element; [None] is the alert for an empty list. *)
Definition bestConfig (configs : list ProxyConfig) : option ProxyConfig :=
  match filter is_working configs with
  | [] => None
  | first :: rest => Some (foldl better first rest)
  end.

(** [handleCopyBest]: the text written to the clipboard. *)
Definition handleCopyBest (configs : list ProxyConfig) : option string :=
  rawConfig <$> bestConfig configs.

(** [handleSelectConfig] *)
Definition handleSelectConfig (i : string) (checked : bool) (prev : gset string)
  : gset string :=
  if checked then prev ∪ {[i]} else prev ∖ {[i]}.

(** [handleSelectAll]: [allVisibleIds] are the identifiers of the view. *)
Definition handleSelectAll (allVisibleIds : list string) (checked : bool)
    (prev : gset string) : gset string :=
  if checked then prev ∪ list_to_set allVisibleIds
  else prev ∖ list_to_set allVisibleIds.

(** The effect that sets the header check box: its [checked] and its
    [indeterminate]. *)
Definition selectAllCheckbox (selectedConfigIds : gset string)
    (allVisibleIds : list string) : bool * bool :=
  let selectedVisibleCount :=
    length (filter (λ i, i ∈ selectedConfigIds) allVisibleIds) in
  let allVisibleSelected :=
    bool_decide (selectedVisibleCount = length allVisibleIds)
    && bool_decide (0 < length allVisibleIds)%nat in
  (allVisibleSelected,
   negb allVisibleSelected && bool_decide (0 < selectedVisibleCount)%nat).

#[global] Instance SortKey_eq_dec : EqDecision SortKey.
Proof. solve_decision. Defined.
#[global] Instance SortDirection_eq_dec : EqDecision SortDirection.
Proof. solve_decision. Defined.

(** [handleSort] *)
Definition handleSort (k : SortKey) (sortConfig : SortConfig) : SortConfig :=
  {| key := k;
     direction :=
       if bool_decide (key sortConfig = k)
          && bool_decide (direction sortConfig = asc)
       then desc else asc |}.

(** ** Dashboard.tsx and the status bar of the App component *)

Record DashboardStats := {
  st_total : nat;
  st_active : nat;
  st_slow : nat;
  st_inactive : nat;
  st_untested : nat;
  st_averageLatency : number;
}.

Definition count_status (st : Status) (configs : list ProxyConfig) : nat :=
  length (filter (λ c, status c = st) configs).

(** [stats] of the dashboard.  The average divides by the number of records
    with a positive latency, which gives [NaN] when there is none in an
    inventory that is not empty; [Math.round] keeps [NaN].  The sum and the
    quotient are written exactly: below [2^52] the sum of integers is exact
    in doubles, and rounding the quotient to a double first does not change
    the nearest integer (lemma [average_quotient]). *)
Definition stats (configs : list ProxyConfig) : DashboardStats :=
  let total := length configs in
  let measured := filter (λ c, 0 < latency c) configs in
  {| st_total := total;
     st_active := count_status Active configs;
     st_slow := count_status Slow configs;
     st_inactive := count_status Inactive configs;
     st_untested :=
       length (filter (λ c, status c = Untested ∨ status c = Testing) configs);
     st_averageLatency :=
       if bool_decide (0 < total)%nat then
         match measured with
         | [] => NaN
         | _ =>
             Int (Math_round
                    (inject_Z (foldl (λ acc c, acc + latency c) 0 measured)
                     / inject_Z (Z.of_nat (length measured))))
         end
       else Int 0 |}.

(** What the average card shows,
    [stats.averageLatency > 0 ? `${stats.averageLatency} ms` : 'N/A']: the
    number before [ms], or [None] for [N/A]. *)
Definition average_shown (s : DashboardStats) : option number :=
  if num_lt (Int 0) (st_averageLatency s) then Some (st_averageLatency s)
  else None.

(** [footerStats] of the App component: total, active, inactive. *)
Definition footerStats (configs : list ProxyConfig) : nat * nat * nat :=
  (length configs,
   length (filter (λ c, status c = Active ∨ status c = Slow) configs),
   length (filter (λ c, status c = Inactive) configs)).

(** ** Settings.tsx: the smart groups *)

(** [l.findIndex(p)], [None] for [-1]. *)
Fixpoint findIndex {A} (p : A → bool) (l : list A) : option nat :=
  match l with
  | [] => None
  | x :: l' => if p x then Some 0%nat else S <$> findIndex p l'
  end.

(** [handleSaveSmartGroup]: [editingSmartGroup] is [None] for [null]. *)
Definition handleSaveSmartGroup (editingSmartGroup : option SmartGroup)
    (groups : list SmartGroup) : list SmartGroup :=
  match editingSmartGroup with
  | None => groups
  | Some g =>
      if String.eqb (sg_name g) EmptyString then groups
      else match findIndex (λ x, String.eqb (sg_id x) (sg_id g)) groups with
           | Some existingIndex => <[existingIndex := g]> groups
           | None => groups ++ [g]
           end
  end.

(** [handleDeleteSmartGroup] *)
Definition handleDeleteSmartGroup (i : string) (groups : list SmartGroup)
  : list SmartGroup :=
  filter (λ g, sg_id g ≠ i) groups.

(** [handleOpenSmartGroupModal(null)]: the group the dialog starts from. *)
Definition blank_group (gid : string) : SmartGroup :=
  {| sg_id := gid; sg_name := EmptyString; sg_color := "#4f46e5"; rules := [] |}.

Definition with_rules (rs : list Rule) (g : SmartGroup) : SmartGroup :=
  {| sg_id := sg_id g; sg_name := sg_name g; sg_color := sg_color g; rules := rs |}.

(** [handleAddRule] and [handleDeleteRule], on the group being edited. *)
Definition handleAddRule (rid : string) (editingSmartGroup : SmartGroup)
  : SmartGroup :=
  with_rules (rules editingSmartGroup ++ [newRule rid]) editingSmartGroup.

Definition handleDeleteRule (ruleId : string) (editingSmartGroup : SmartGroup)
  : SmartGroup :=
  with_rules (filter (λ r, rule_id r ≠ ruleId) (rules editingSmartGroup))
             editingSmartGroup.

(** ** A runtime and data for the examples

    [sampleRuntime] answers as a browser does on the strings the examples
    below hand to it and is a stub elsewhere.  The theorems quantify over
    every runtime; only closed examples use this one. *)

Definition sample_atob (s : string) : result string :=
  if String.eqb s "bnVsbA==" then Ok "null"
  else if String.eqb s "e30=" then Ok "{}"
  else if String.eqb s "eyJwb3J0Ijp7InRvU3RyaW5nIjoxfX0=" then Ok "{port:{toString:1}}"
  else if String.eqb s "eyJwcyI6eyJ0b1N0cmluZyI6MX19" then Ok "{ps:{toString:1}}"
  else Throw InvalidCharacterError.

(** The documents are written here without their double quotes. *)
Definition sample_JSON_parse (s : string) : result jsval :=
  if String.eqb s "null" then Ok JNull
  else if String.eqb s "{}" then Ok (JObj [])
  else if String.eqb s "{port:{toString:1}}" then
    Ok (JObj [("port", JObj [("toString", JNum (Int 1))])])
  else if String.eqb s "{ps:{toString:1}}" then
    Ok (JObj [("ps", JObj [("toString", JNum (Int 1))])])
  else Throw SyntaxError.

Definition sample_new_URL (s : string) : result URL :=
  if String.eqb s "vless://u@host.example:443?x=1#MyNode" then
    Ok {| url_protocol := "vless:"; url_hostname := "host.example";
          url_port := "443"; url_hash := "#MyNode" |}
  else if String.eqb s "trojan://pw@10.0.0.2:443" then
    Ok {| url_protocol := "trojan:"; url_hostname := "10.0.0.2";
          url_port := "443"; url_hash := EmptyString |}
  else if String.eqb s "ftp://files.example.org/" then
    Ok {| url_protocol := "ftp:"; url_hostname := "files.example.org";
          url_port := EmptyString; url_hash := EmptyString |}
  else Throw TypeError.

Definition sample_decodeURIComponent (s : string) : result string :=
  if includes s "%" then Throw URIError else Ok s.

Definition digit_of (c : ascii) : option Z :=
  let n := nat_of_ascii c in
  if ((48 <=? n)%nat && (n <=? 57)%nat) then Some (Z.of_nat n - 48) else None.

Fixpoint digits (acc : Z) (s : string) : number :=
  match s with
  | EmptyString => Int acc
  | String c s' =>
      match digit_of c with
      | Some v => digits (10 * acc + v) s'
      | None => NaN
      end
  end.

Definition sample_StringToNumber (s : string) : number :=
  if String.eqb s "2.5" then Num (5 # 2)
  else if String.eqb s "Infinity" then Infinity
  else digits 0 s.

Definition sample_NumberToString (n : number) : string :=
  match n with
  | NaN => "NaN"
  | Num x => pretty (Qfloor x)
  | Infinity => "Infinity"
  | NegInfinity => "-Infinity"
  end.

Definition sample_JSON_parse_defined s : sample_JSON_parse s ≠ Ok JUndefined.
Proof. unfold sample_JSON_parse. repeat case_match; discriminate. Defined.

Definition sampleRuntime : Runtime :=
  {| atob := sample_atob;
     JSON_parse := sample_JSON_parse;
     new_URL := sample_new_URL;
     decodeURIComponent := sample_decodeURIComponent;
     StringToNumber := sample_StringToNumber;
     NumberToString := sample_NumberToString;
     uuidv4 := λ k, "id-" +:+ pretty k;
     COUNTRIES := [("US", "United States"); ("DE", "Germany")];
     JSON_parse_defined := sample_JSON_parse_defined |}.

Definition sample_raw (k : nat) : string := "vless://u@node" +:+ pretty k.

(** [n] untested records, as [addProcessedConfigs] creates them. *)
Definition sample_inventory (n : nat) : list ProxyConfig :=
  (λ k, new_config sampleRuntime k (sample_raw k)) <$> seq 0 n.

(** The records of an inventory as [configsWithSmartGroups] hands them on
    when there is no smart group. *)
Definition ungrouped (configs : list ProxyConfig) : list ConfigWithGroups :=
  (λ c, {| cfg := c; smartGroups := [] |}) <$> configs.

Definition sample_shown (n : nat) : list ConfigWithGroups :=
  ungrouped (sample_inventory n).

Definition sample_settings (c : Z) : SettingsData :=
  {| timeout := Int 3000; concurrentTests := Int c; autoTestInterval := Int 0;
     autoTestOnlyInactive := true; settings_smartGroups := [] |}.

Definition no_filters : Filters :=
  {| statusFilter := None; protocolFilter := None; groupFilter := "All";
     searchTerm := EmptyString |}.

(** A probe that answers in [50 + floor (u * 2000)] ms and is not made to
    fail. *)
Definition draws_of (u : Q) : Draws :=
  {| u_latency := u; u_fail := 0; u_jitter := 1 # 2; geo := GeoNotOk |}.

(** A probe measuring 1944 ms ([Math.random] returned 485/512) whose jitter
    draw is 1/256. *)
Definition slow_draws : Draws :=
  {| u_latency := 485 # 512; u_fail := 0; u_jitter := 1 # 256; geo := GeoNotOk |}.

(** A probe measuring 55 ms whose jitter draw is the largest double below
    1, [1 - 2^-53 * 2]. *)
Definition tie_draws : Draws :=
  {| u_latency := 3 # 1024; u_fail := 0;
     u_jitter := 4503599627370495 # 4503599627370496; geo := GeoNotOk |}.

(** A probe that the failure draw makes fail. *)
Definition failing_draws : Draws :=
  {| u_latency := 1 # 40; u_fail := 9 # 10; u_jitter := 1 # 2; geo := GeoNotOk |}.

(** Twelve probes, the third of which fails. *)
Definition twelve_draws : list (Draws * string) :=
  [(draws_of (1 # 40), "t01"); (draws_of (2 # 40), "t02");
   (failing_draws, "t03"); (draws_of (4 # 40), "t04");
   (draws_of (5 # 40), "t05"); (draws_of (6 # 40), "t06");
   (draws_of (7 # 40), "t07"); (draws_of (8 # 40), "t08");
   (draws_of (9 # 40), "t09"); (draws_of (10 # 40), "t10");
   (draws_of (11 # 40), "t11"); (draws_of (12 # 40), "t12")].

(** The settings after the user has emptied the concurrency field of the
    form: [Number] of the empty string is [0]. *)
Definition emptied_concurrency : SettingsData :=
  handleInputChange sampleRuntime "concurrentTests" EmptyString (sample_settings 5).

(** The settings after the user has typed [2.5] into the concurrency
    field. *)
Definition fractional_concurrency : SettingsData :=
  handleInputChange sampleRuntime "concurrentTests" "2.5" (sample_settings 5).


(** ** Notions the statements use *)

(** What [parseConfig] returns, as a function of what its [try] block
    did. *)
Definition parse_outcome (R : Runtime) (raw : string) : PartialConfig :=
  match parseConfig_try R raw with
  | Ok (Some p) => p
  | Ok None | Throw _ => placeholder
  end.

(** The records [addProcessedConfigs] of [ConfigManager.tsx] makes of the
    strings that pass its filter. *)
Fixpoint made (R : Runtime) (k : nat) (raws : list string) : list ProxyConfig :=
  match raws with
  | [] => []
  | raw :: raws' =>
      spread (new_config R k raw) (parse_outcome R raw) :: made R (S k) raws'
  end.

(** A record whose name and host are primitives, and a rule whose value
    is one: what the conversions of the rule engine never throw on. *)
Definition plain (c : ProxyConfig) : Prop :=
  primitive (name c) ∧ primitive (host c).

Definition plain_rule (rule : Rule) : Prop := primitive (value rule).

(** A rule [latency less_than V] whose value converts to a number above
    the sentinel. *)
Definition latency_below (R : Runtime) (rule : Rule) : Prop :=
  field rule = f_latency ∧ operator rule = less_than
  ∧ ∃ v, Number R (value rule) = Ok v ∧ num_lt (Int (-1)) v = true.

(** The key the comparator orders by when the sort key is the latency. *)
Definition latency_key (a : ConfigWithGroups) : number :=
  if bool_decide (latency (cfg a) = -1) then Infinity else Int (latency (cfg a)).

(** [a] may stand before [b] in the direction [dir]. *)
Definition latency_le (dir : SortDirection) (a b : ConfigWithGroups) : Prop :=
  match dir with
  | asc => num_lt (latency_key b) (latency_key a) = false
  | desc => num_lt (latency_key a) (latency_key b) = false
  end.

Definition not_testing (c : ProxyConfig) : Prop := status c ≠ Testing.

(** What holds of every state of a run, whatever the settings:
    [running] counts the probes in flight; the run has reported its end
    only with no probe in flight and nothing left to start; and once it has
    reported its end after a stop, no record is [Testing]. *)
Definition Inv (s : Sched) : Prop :=
  running s = Z.of_nat (length (pending s))
  ∧ (isTesting s = false →
     running s = 0 ∧ (testingStopFlag s = true ∨ queue s = []))
  ∧ (testingStopFlag s = true → isTesting s = false →
     Forall not_testing (configs s)).

(** What holds in addition when the concurrency is above 0 and there is a
    candidate, for the bound [c] the concurrency puts on the loop of
    [startTesting]: at most [c] probes are in flight, every candidate is
    tested, queued or in flight, and while the run has not reported its end
    a probe is in flight. *)
Definition Bounded (c : Z) (s : Sched) : Prop :=
  0 ≤ running s ≤ c
  ∧ 0 ≤ testedCount s
  ∧ testedCount s + Z.of_nat (length (queue s)) + running s = total s
  ∧ (isTesting s = true → 1 ≤ running s).

(** The bound the concurrency puts on the counter [i] of the loop of
    [startTesting] when there are [n] candidates: for an integer [i],
    [i < concurrentTests] says that [i] is below the least integer that is
    not below [concurrentTests]; [Infinity] only leaves the bound of the
    queue, and nothing is below [NaN]. *)
Definition worker_bound (concurrentTests : number) (n : Z) : Z :=
  match concurrentTests with
  | Num c => Qceiling c
  | Infinity => n
  | NaN | NegInfinity => 0
  end.


(** ** Notions the further statements use *)

(** The rule [rule] with another operator. *)
Definition with_operator (op : RuleOperator) (rule : Rule) : Rule :=
  {| rule_id := rule_id rule; field := field rule; operator := op;
     value := value rule |}.

#[global] Instance result_eq_dec {A} `{EqDecision A} : EqDecision (result A).
Proof. solve_decision. Defined.

(** A string without a line feed. *)
Fixpoint no_newline (s : string) : Prop :=
  match s with
  | EmptyString => True
  | String c s' => c ≠ newline ∧ no_newline s'
  end.

(** The raw strings of the selected records, in the order of the
    inventory. *)
Definition selected_raws (selectedConfigIds : gset string)
    (configs : list ProxyConfig) : list string :=
  rawConfig <$> filter (λ c, id c ∈ selectedConfigIds) configs.

(** ** Notions the statements about a run use *)

(** What a test has no business with: the fields of a record that say
    which server it is. *)
Definition identity (c : ProxyConfig) :=
  (id c, rawConfig c, name c, protocol c, host c, port c, group c).

(** The identifiers of displayed records. *)
Definition ids_of (l : list ConfigWithGroups) : list string :=
  (λ ct, id (cfg ct)) <$> l.

(** A record that carries the outcome of a probe. *)
Definition tested (c : ProxyConfig) : Prop :=
  status c = Active ∨ status c = Slow ∨ status c = Inactive.

(** The state [runNext] has written, after its [await], when it calls
    itself at its end. *)
Definition resumed (R : Runtime) (settings : SettingsData) (s : Sched)
    (config : ConfigWithGroups) (d : Draws) (now : string) : Sched :=
  let result := testConfig R (cfg config) (timeout settings) d in
  {| configs :=
       if testingStopFlag s then configs s
       else (λ c, if bool_decide (id c = id (cfg config))
                  then applyResult c result now else c) <$> configs s;
     isTesting := isTesting s;
     testingStopFlag := testingStopFlag s;
     counters :=
       if testingStopFlag s then counters s
       else count_result result (counters s);
     testProgress :=
       Math_round (dmul (ddiv (inject_Z (testedCount s + 1))
                              (inject_Z (total s))) 100);
     total := total s; queue := queue s;
     running := running s - 1;
     testedCount := testedCount s + 1;
     pending := pending s |}.

(** The resolved probes of a run that took the failure branch. *)
Definition failures (timeout : number) (events : list Event) : Z :=
  Z.of_nat
    (length (List.filter
               (λ e, match e with
                     | Resolved _ d _ => probe_failed timeout d
                     | StopPressed => false
                     end)
               events)).

(** The probes are started in the order of the display, each candidate at
    most once: what is queued is the rest of the candidates, what is in
    flight is among those before. *)
Definition InOrder (cands : list ConfigWithGroups) (s : Sched) : Prop :=
  ∃ k : nat, queue s = drop k cands ∧ pending s ⊆+ take k cands.

(** The progress shown once [r] of [n] probes have resolved:
    [Math.round((testedCount / configsToTest.length) * 100)]. *)
Definition progress_of (r n : Z) : Z :=
  Math_round (dmul (ddiv (inject_Z r) (inject_Z n)) 100).

(** Every candidate is resolved, in flight or queued; the progress shown is
    the rounded share of the resolved ones. *)
Definition Counted (s : Sched) : Prop :=
  0 ≤ testedCount s
  ∧ testedCount s + Z.of_nat (length (queue s)) + Z.of_nat (length (pending s))
    = total s
  ∧ testProgress s
    = (if testedCount s =? 0 then 0
       else progress_of (testedCount s) (total s)).

(** The two counters count resolved probes, all of them until a stop is
    requested. *)
Definition Tallied (s : Sched) : Prop :=
  0 ≤ fst (counters s) ∧ 0 ≤ snd (counters s)
  ∧ fst (counters s) + snd (counters s) ≤ testedCount s
  ∧ (testingStopFlag s = false →
     fst (counters s) + snd (counters s) = testedCount s).

(** Until a stop is requested, a record with the identifier of a candidate
    either waits as [Testing] for a probe that is queued or in flight, or
    carries the outcome of a probe. *)
Definition Awaited (cands : list ConfigWithGroups) (s : Sched) : Prop :=
  testingStopFlag s = false →
  Forall (λ c, id c ∈ ids_of cands →
               (status c = Testing ∧ id c ∈ ids_of (pending s ++ queue s))
               ∨ tested c)
         (configs s).

(** The records a run does not concern keep their place and their
    content. *)
Definition Untouched (cands : list ConfigWithGroups)
    (configs0 : list ProxyConfig) (s : Sched) : Prop :=
  ∀ (i : nat) c, configs0 !! i = Some c → id c ∉ ids_of cands →
                 status c ≠ Testing → configs s !! i = Some c.

(** What a probe learns about where the server is: the address and the
    country the geolocation service answered with, when the probe succeeded
    and the answer is a JSON value that is truthy and not a bogon. *)
Definition located (timeout : number) (d : Draws) : option (string * string) :=
  if probe_failed timeout d then None
  else match geo d with
       | GeoJson false geo_ip geo_country => Some (geo_ip, geo_country)
       | _ => None
       end.

(** A record as [addProcessedConfigs] makes it, before any test. *)
Definition fresh (c : ProxyConfig) : Prop :=
  status c = Untested ∧ latency c = -1 ∧ score c = 0 ∧ speed c = 0
  ∧ latencyHistory c = [] ∧ lastTested c = "Never" ∧ group c = None
  ∧ ip c = "N/A" ∧ country c = "Unknown" ∧ countryCode c = "UNKNOWN".

(** * Properties *)

(** ** The arithmetic of doubles *)

Lemma pow2_pos k : (0 < pow2 k)%Q.
Proof. apply Qpower_0_lt. reflexivity. Qed.

Lemma pow2_plus a b : (pow2 (a + b) == pow2 a * pow2 b)%Q.
Proof. apply Qpower_plus. discriminate. Qed.

Lemma pow2_inv a : (pow2 a * pow2 (- a) == 1)%Q.
Proof. rewrite <- pow2_plus. now rewrite Z.add_opp_diag_r. Qed.

Lemma pow2_le a b : a ≤ b → (pow2 a <= pow2 b)%Q.
Proof. intros H. apply Qpower_le_compat_l; [exact H | discriminate]. Qed.

Lemma pow2_nat k : 0 ≤ k → (pow2 k == inject_Z (2 ^ k))%Q.
Proof. intros H. unfold pow2. now rewrite Zpower_Qpower. Qed.

Lemma pow2_lt_inv a b x : (pow2 a <= x)%Q → (x < pow2 b)%Q → a < b.
Proof.
  intros H1 H2. destruct (Z_lt_le_dec a b) as [H|H]; [exact H|].
  apply pow2_le in H. lra.
Qed.

Lemma binade_le x : (0 < x)%Q → (pow2 (binade x) <= x)%Q.
Proof.
  intros Hx. unfold binade.
  set (e0 := Z.log2 (Qnum x) - Z.log2 (Z.pos (Qden x))).
  destruct (Qle_bool (pow2 e0) x) eqn:Hc; [now apply Qle_bool_iff|].
  destruct x as [n d]. cbn [Qnum Qden] in *.
  assert (Hn : 0 < n) by (unfold Qlt in Hx; cbn in Hx; lia).
  destruct (Z.log2_spec n Hn) as [Hn1 _].
  destruct (Z.log2_spec (Z.pos d) ltac:(lia)) as [_ Hd2].
  pose proof (Z.log2_nonneg n) as Hln.
  pose proof (Z.log2_nonneg (Z.pos d)) as Hld.
  replace (e0 - 1) with (Z.log2 n + - (Z.log2 (Z.pos d) + 1)) by (unfold e0; lia).
  rewrite pow2_plus.
  assert (H1 : (pow2 (Z.log2 n) <= inject_Z n)%Q).
  { rewrite pow2_nat by lia. rewrite <- Zle_Qle. exact Hn1. }
  assert (H2 : (inject_Z (Z.pos d) <= pow2 (Z.log2 (Z.pos d) + 1))%Q).
  { rewrite pow2_nat by lia. rewrite <- Zle_Qle.
    replace (Z.log2 (Z.pos d) + 1) with (Z.succ (Z.log2 (Z.pos d))) by lia. lia. }
  pose proof (pow2_inv (Z.log2 (Z.pos d) + 1)) as Hinv.
  pose proof (pow2_pos (Z.log2 n)) as Hp1.
  pose proof (pow2_pos (- (Z.log2 (Z.pos d) + 1))) as Hp2.
  pose proof (pow2_pos (Z.log2 (Z.pos d) + 1)) as Hp3.
  assert (Hd : (0 < inject_Z (Z.pos d))%Q) by reflexivity.
  assert (Hx' : (n # d == inject_Z n * / inject_Z (Z.pos d))%Q).
  { rewrite (Qmake_Qdiv n d). reflexivity. }
  rewrite Hx'.
  apply Qle_trans with (inject_Z n * pow2 (- (Z.log2 (Z.pos d) + 1)))%Q.
  - apply Qmult_le_compat_r; [exact H1 | lra].
  - assert (Hle : (pow2 (- (Z.log2 (Z.pos d) + 1)) <= / inject_Z (Z.pos d))%Q).
    { apply Qle_shift_inv_l; [exact Hd|].
      apply Qle_trans with
        (pow2 (- (Z.log2 (Z.pos d) + 1)) * pow2 (Z.log2 (Z.pos d) + 1))%Q.
      - apply Qmult_le_l; [exact Hp2 | exact H2].
      - rewrite Qmult_comm, Hinv. lra. }
    assert (Hn' : (0 <= inject_Z n)%Q).
    { change 0%Q with (inject_Z 0). rewrite <- Zle_Qle. lia. }
    rewrite !(Qmult_comm (inject_Z n)).
    apply Qmult_le_compat_r; [exact Hle | exact Hn'].
Qed.

Lemma round_even_near q :
  (inject_Z (round_even q) - q <= 1 # 2)%Q
  ∧ (q - inject_Z (round_even q) <= 1 # 2)%Q.
Proof.
  unfold round_even. pose proof (Qfloor_le q) as H1.
  pose proof (Qlt_floor q) as H2. rewrite inject_Z_plus in H2.
  change (inject_Z 1) with 1%Q in H2.
  destruct (Qcompare_spec (q - inject_Z (Qfloor q)) (1 # 2)) as [H|H|H].
  - destruct (Z.even (Qfloor q)); [|rewrite inject_Z_plus;
      change (inject_Z 1) with 1%Q]; split; lra.
  - split; lra.
  - rewrite inject_Z_plus. change (inject_Z 1) with 1%Q. split; lra.
Qed.

Lemma round_even_Z z : round_even (inject_Z z) = z.
Proof.
  unfold round_even. rewrite Qfloor_Z.
  destruct (Qcompare_spec (inject_Z z - inject_Z z) (1 # 2)) as [H|H|H];
    [lra | reflexivity | lra].
Qed.

Lemma round_even_proper q r : (q == r)%Q → round_even q = round_even r.
Proof.
  intros H. unfold round_even.
  assert (Hf : Qfloor q = Qfloor r) by now rewrite H.
  rewrite Hf.
  assert (Hc : (q - inject_Z (Qfloor r) ?= 1 # 2)%Q
               = (r - inject_Z (Qfloor r) ?= 1 # 2)%Q) by now rewrite H.
  now rewrite Hc.
Qed.

Lemma round53_error x :
  (0 < x)%Q → (x - x * eps <= round53 x)%Q ∧ (round53 x <= x + x * eps)%Q.
Proof.
  intros Hx. unfold round53. set (e := binade x).
  pose proof (binade_le x Hx) as He. fold e in He.
  set (m := (x * pow2 (52 - e))%Q).
  destruct (round_even_near m) as [H1 H2].
  pose proof (pow2_pos (e - 52)) as Hp.
  assert (Hm : (m * pow2 (e - 52) == x)%Q).
  { unfold m. rewrite <- Qmult_assoc, <- pow2_plus.
    replace (52 - e + (e - 52)) with 0 by lia. change (pow2 0) with 1%Q. ring. }
  assert (Hu : (pow2 (e - 52) * (1 # 2) <= x * eps)%Q).
  { replace (e - 52) with (e + -52) by lia. rewrite pow2_plus.
    assert (H52 : (pow2 (-52) * (1 # 2) == eps)%Q) by reflexivity.
    rewrite <- Qmult_assoc, H52.
    apply Qmult_le_compat_r; [exact He | discriminate]. }
  set (r := inject_Z (round_even m)) in *.
  assert (Ha : ((r - m) * pow2 (e - 52) <= (1 # 2) * pow2 (e - 52))%Q).
  { apply Qmult_le_compat_r; lra. }
  assert (Hb : ((m - r) * pow2 (e - 52) <= (1 # 2) * pow2 (e - 52))%Q).
  { apply Qmult_le_compat_r; lra. }
  split; lra.
Qed.

Lemma rnd_proper x y : (x == y)%Q → rnd x = rnd y.
Proof. intros H. unfold rnd. now rewrite (Qred_complete x y H). Qed.

(** The relative error of a rounding is at most [2^-53]. *)
Lemma rnd_error x : (Qabs (rnd x - x) <= Qabs x * eps)%Q.
Proof.
  unfold rnd. pose proof (Qred_correct x) as Hr. set (y := Qred x) in *.
  rewrite <- Hr. clearbody y. clear Hr x.
  destruct (Qcompare_spec y 0) as [H|H|H].
  - rewrite H. discriminate.
  - assert (Hy : (0 < - y)%Q) by lra.
    destruct (round53_error (- y) Hy) as [H1 H2].
    rewrite (Qabs_neg y) by lra. apply Qabs_Qle_condition. split; lra.
  - destruct (round53_error y H) as [H1 H2].
    rewrite (Qabs_pos y) by lra. apply Qabs_Qle_condition. split; lra.
Qed.

Lemma rnd_error_pos x :
  (0 <= x)%Q → (x - x * eps <= rnd x)%Q ∧ (rnd x <= x + x * eps)%Q.
Proof.
  intros Hx. pose proof (rnd_error x) as H. rewrite (Qabs_pos x) in H by exact Hx.
  apply Qabs_Qle_condition in H. split; lra.
Qed.

Lemma rnd_error_bound M x :
  (- M <= x)%Q → (x <= M)%Q →
  (x - M * eps <= rnd x)%Q ∧ (rnd x <= x + M * eps)%Q.
Proof.
  intros H1 H2. pose proof (rnd_error x) as H.
  assert (Ha : (Qabs x <= M)%Q) by (apply Qabs_Qle_condition; split; lra).
  assert (Hb : (Qabs x * eps <= M * eps)%Q).
  { apply Qmult_le_compat_r; [exact Ha | discriminate]. }
  apply Qabs_Qle_condition in H. split; lra.
Qed.

Lemma rnd_nonneg x : (0 <= x)%Q → (0 <= rnd x)%Q.
Proof.
  intros Hx. destruct (rnd_error_pos x Hx) as [H _].
  assert (He : (x * eps <= x * 1)%Q).
  { rewrite !(Qmult_comm x). apply Qmult_le_compat_r; [discriminate | exact Hx]. }
  lra.
Qed.

Lemma round53_exact x z k :
  (x == inject_Z z * pow2 k)%Q → 0 < z < 2 ^ 53 → (round53 x == x)%Q.
Proof.
  intros Hxz [Hz Hlt].
  pose proof (pow2_pos k) as Hk.
  assert (Hz' : (0 < inject_Z z)%Q).
  { change 0%Q with (inject_Z 0). rewrite <- Zlt_Qlt. exact Hz. }
  assert (Hx : (0 < x)%Q).
  { rewrite Hxz. apply Qmult_lt_0_compat; assumption. }
  unfold round53. set (e := binade x).
  pose proof (binade_le x Hx) as He. fold e in He.
  assert (Hup : (x < pow2 (53 + k))%Q).
  { rewrite Hxz, pow2_plus, (pow2_nat 53) by lia.
    apply Qmult_lt_compat_r; [exact Hk|]. rewrite <- Zlt_Qlt. exact Hlt. }
  pose proof (pow2_lt_inv e (53 + k) x He Hup) as Hek.
  assert (Hm : (x * pow2 (52 - e) == inject_Z (z * 2 ^ (k + 52 - e)))%Q).
  { rewrite Hxz, inject_Z_mult, <- pow2_nat by lia.
    rewrite <- Qmult_assoc, <- pow2_plus.
    now replace (k + (52 - e)) with (k + 52 - e) by lia. }
  rewrite (round_even_proper _ _ Hm), round_even_Z.
  rewrite inject_Z_mult, <- pow2_nat by lia.
  rewrite <- Qmult_assoc, <- pow2_plus.
  replace (k + 52 - e + (e - 52)) with k by lia. now symmetry.
Qed.

(** A number with a significand of at most 53 bits is a double. *)
Lemma rnd_exact z k :
  - 2 ^ 53 < z < 2 ^ 53 →
  (rnd (inject_Z z * pow2 k) == inject_Z z * pow2 k)%Q.
Proof.
  intros [Hlo Hhi]. unfold rnd.
  pose proof (Qred_correct (inject_Z z * pow2 k)) as Hr.
  set (y := Qred (inject_Z z * pow2 k)) in *.
  pose proof (pow2_pos k) as Hk.
  destruct (Qcompare_spec y 0) as [H|H|H].
  - rewrite <- Hr, H. reflexivity.
  - assert (Hy : (- y == inject_Z (- z) * pow2 k)%Q).
    { rewrite Hr, inject_Z_opp. ring. }
    assert (Hz : 0 < - z).
    { destruct (Z_lt_le_dec z 0) as [Hn|Hn]; [lia|exfalso].
      assert (Hz' : (0 <= inject_Z z)%Q).
      { change 0%Q with (inject_Z 0). rewrite <- Zle_Qle. exact Hn. }
      assert (0 <= inject_Z z * pow2 k)%Q by (apply Qmult_le_0_compat; lra).
      lra. }
    rewrite (round53_exact (- y) (- z) k Hy) by lia. rewrite <- Hr. ring.
  - assert (Hz : 0 < z).
    { destruct (Z_lt_le_dec 0 z) as [Hn|Hn]; [lia|exfalso].
      assert (Hz' : (inject_Z z <= 0)%Q).
      { change 0%Q with (inject_Z 0). rewrite <- Zle_Qle. exact Hn. }
      assert (Hneg : (0 <= (- inject_Z z) * pow2 k)%Q)
        by (apply Qmult_le_0_compat; lra).
      lra. }
    rewrite (round53_exact y z k Hr) by lia. exact Hr.
Qed.

Lemma rnd_Z z : - 2 ^ 53 < z < 2 ^ 53 → (rnd (inject_Z z) == inject_Z z)%Q.
Proof.
  intros Hz. assert (H : (inject_Z z == inject_Z z * pow2 0)%Q).
  { change (pow2 0) with 1%Q. ring. }
  rewrite (rnd_proper _ _ H), (rnd_exact z 0 Hz). now symmetry.
Qed.

Lemma rnd_half z :
  - 2 ^ 53 < z < 2 ^ 53 → (rnd (inject_Z z / 2) == inject_Z z / 2)%Q.
Proof.
  intros Hz. assert (H : (inject_Z z / 2 == inject_Z z * pow2 (-1))%Q).
  { change (pow2 (-1)) with (/ 2)%Q. reflexivity. }
  rewrite (rnd_proper _ _ H), (rnd_exact z (-1) Hz). now symmetry.
Qed.

(** The literal [0.1] is the double [3602879701896397 / 2^55], and the
    other two likewise. *)
Lemma literals :
  Qred d0_1 = (3602879701896397 # 36028797018963968)%Q
  ∧ Qred d0_2 = (3602879701896397 # 18014398509481984)%Q
  ∧ Qred d0_8 = (3602879701896397 # 4503599627370496)%Q.
Proof. vm_compute. repeat split. Qed.

(** ** Conversions *)

Section Conversions.
Context (R : Runtime).

Lemma join_with_throws (f : jsval → result string) l e :
  Forall (λ x, ∀ e, f x = Throw e → e = TypeError) l →
  join_with f l = Throw e → e = TypeError.
Proof.
  induction 1 as [|x l Hx _ IHl]; cbn; [discriminate|].
  destruct (match x with
            | JUndefined | JNull => Ok EmptyString
            | _ => f x
            end) as [sx|ex] eqn:Hfx; cbn.
  - destruct l as [|y l]; [discriminate|].
    destruct (join_with f (y :: l)) as [rest|er]; cbn; [discriminate|].
    intros [= <-]. now apply IHl.
  - intros [= <-]. destruct x; try discriminate; now apply Hx.
Qed.

(** A conversion to a string throws nothing but a [TypeError]. *)
Lemma String__throws : ∀ v e, String_ R v = Throw e → e = TypeError.
Proof.
  fix IH 1. intros [| | | | |items|fields] e; cbn; try discriminate.
  - apply join_with_throws.
    induction items as [|x l IHl]; constructor; [apply IH | exact IHl].
  - destruct (has_key _ _); [now intros [= <-] | discriminate].
Qed.

Lemma String__primitive v : primitive v → ∃ s, String_ R v = Ok s.
Proof. destruct v; cbn; intros H; try contradiction; eauto. Qed.

Lemma Number_primitive v : primitive v → ∃ n, Number R v = Ok n.
Proof. destruct v; cbn; intros H; try contradiction; eauto. Qed.

(** [Number] throws only for an array or an object without a primitive
    value, and then a [TypeError]. *)
Lemma Number_throws v e :
  Number R v = Throw e → e = TypeError ∧ ¬ primitive v ∧ String_ R v = Throw e.
Proof.
  destruct v; unfold Number; try discriminate;
    match goal with
    | |- context [String_ R ?x] => destruct (String_ R x) as [s|e'] eqn:Hs
    end; cbn; try discriminate;
    intros [= <-]; (split; [now apply (String__throws _ _ Hs)|]);
    (split; [intros [] | reflexivity]).
Qed.

Lemma ToPrimitive_throws v e : ToPrimitive R v = Throw e → e = TypeError.
Proof.
  destruct v; unfold ToPrimitive; try discriminate;
    match goal with
    | |- context [String_ R ?x] => destruct (String_ R x) as [s|e'] eqn:Hs
    end; cbn; try discriminate;
    intros [= <-]; now apply (String__throws _ _ Hs).
Qed.

Lemma ToPrimitive_primitive v p : ToPrimitive R v = Ok p → primitive p.
Proof.
  destruct v; unfold ToPrimitive; try (intros [= <-]; exact I);
    match goal with
    | |- context [String_ R ?x] => destruct (String_ R x) as [s|e']
    end; cbn; try discriminate; intros [= <-]; exact I.
Qed.

Lemma ToPrimitive_of_primitive v : primitive v → ToPrimitive R v = Ok v.
Proof. destruct v; cbn; intros H; try contradiction; reflexivity. Qed.

(** An object with a key [toString] of its own has no primitive value. *)
Lemma String__own_toString fields :
  has_key "toString" fields = true → String_ R (JObj fields) = Throw TypeError.
Proof. intros H. cbn. now rewrite H. Qed.

End Conversions.

(** ** Decoding *)

Section Decoding.
Context (R : Runtime).

Lemma parseConfig_outcome raw : parseConfig R raw = Ok (parse_outcome R raw).
Proof.
  unfold parseConfig, parse_outcome.
  destruct (parseConfig_try R raw) as [[p|]|e]; reflexivity.
Qed.

(** [parseConfig] never throws. *)
Lemma parseConfig_total raw : ∃ p, parseConfig R raw = Ok p.
Proof. eexists. apply parseConfig_outcome. Qed.

(** An exception inside the [try] block gives the placeholder. *)
Lemma parseConfig_caught raw e :
  parseConfig_try R raw = Throw e → parseConfig R raw = Ok placeholder.
Proof.
  intros H. rewrite parseConfig_outcome. unfold parse_outcome. now rewrite H.
Qed.

(** So does a string with none of the four prefixes. *)
Lemma parseConfig_other_prefix raw :
  startsWith raw "vmess://" = false →
  startsWith raw "vless://" = false →
  startsWith raw "ss://" = false →
  startsWith raw "trojan://" = false →
  parseConfig R raw = Ok placeholder.
Proof.
  intros H1 H2 H3 H4. rewrite parseConfig_outcome.
  unfold parse_outcome, parseConfig_try. now rewrite H1, H2, H3, H4.
Qed.

(** The vmess branch, for a payload that decodes and parses to anything
    but [null]: what is left to go wrong is the conversion of [data.port]. *)
Lemma parseConfig_try_vmess raw s data :
  startsWith raw "vmess://" = true →
  atob R (replace_first "vmess://" EmptyString raw) = Ok s →
  JSON_parse R s = Ok data →
  data ≠ JNull →
  ∃ ps add prt,
    get_prop data "ps" = Ok ps ∧ get_prop data "add" = Ok add ∧
    get_prop data "port" = Ok prt ∧
    parseConfig_try R raw =
      match Number R prt with
      | Ok port =>
          Ok (Some (parsed Vmess (js_or ps (JStr "Vmess Config")) add port))
      | Throw e => Throw e
      end.
Proof.
  intros Hp Ha Hj Hn.
  assert (Hu : data ≠ JUndefined).
  { intros ->. exact (JSON_parse_defined R s Hj). }
  assert (H : ∃ ps add prt, get_prop data "ps" = Ok ps
                            ∧ get_prop data "add" = Ok add
                            ∧ get_prop data "port" = Ok prt).
  { destruct data; try congruence; cbn; eauto 10. }
  destruct H as (ps & add & prt & H1 & H2 & H3).
  exists ps, add, prt. do 3 (split; [assumption|]).
  unfold parseConfig_try. rewrite Hp, Ha. cbn. rewrite Hj. cbn -[Number].
  rewrite H1. cbn -[Number]. rewrite H2. cbn -[Number]. rewrite H3.
  cbn -[Number]. destruct (Number R prt); reflexivity.
Qed.

(** The vmess branch throws exactly when [atob] throws, [JSON.parse]
    throws, the document is [null], or the conversion of [data.port] to a
    number throws. *)
Lemma parseConfig_try_vmess_throws raw e :
  startsWith raw "vmess://" = true →
  parseConfig_try R raw = Throw e →
  let payload := replace_first "vmess://" EmptyString raw in
  atob R payload = Throw e
  ∨ (∃ s, atob R payload = Ok s ∧ JSON_parse R s = Throw e)
  ∨ (∃ s, atob R payload = Ok s ∧ JSON_parse R s = Ok JNull)
  ∨ (∃ s data prt, atob R payload = Ok s ∧ JSON_parse R s = Ok data
                   ∧ get_prop data "port" = Ok prt ∧ Number R prt = Throw e).
Proof.
  intros Hp Ht payload. unfold parseConfig_try in Ht. rewrite Hp in Ht.
  fold payload in Ht.
  destruct (atob R payload) as [s|e1] eqn:Ha; cbn in Ht; [|left; congruence].
  right.
  destruct (JSON_parse R s) as [data|e2] eqn:Hj; cbn in Ht;
    [|left; exists s; split; congruence].
  right.
  assert (Hd : data = JNull ∨ data ≠ JNull)
    by (destruct data; auto; right; discriminate).
  destruct Hd as [->|Hn]; [left; eauto|right].
  destruct (parseConfig_try_vmess raw s data Hp Ha Hj Hn)
    as (ps & add & prt & _ & _ & Hprt & Htry).
  exists s, data, prt. split; [reflexivity|]. split; [exact Hj|].
  split; [exact Hprt|].
  assert (Ht' : parseConfig_try R raw = Throw e).
  { unfold parseConfig_try. rewrite Hp. fold payload. rewrite Ha. cbn.
    rewrite Hj. exact Ht. }
  rewrite Htry in Ht'. destruct (Number R prt); congruence.
Qed.

End Decoding.

(** ** The inventory *)

Section Inventory.
Context (R : Runtime).

Lemma map_result_made k raws :
  map_result (λ i raw, parsed ← parseConfig R raw;
                       mret (spread (new_config R i raw) parsed)) k raws
  = Ok (made R k raws).
Proof.
  revert k. induction raws as [|raw raws IH]; intros k; [reflexivity|].
  cbn. rewrite parseConfig_outcome. cbn. rewrite IH. reflexivity.
Qed.

Lemma made_rawConfig k raws : rawConfig <$> made R k raws = raws.
Proof.
  revert k. induction raws as [|raw raws IH]; intros k; [reflexivity|].
  cbn. now rewrite IH.
Qed.

Lemma made_length k raws : length (made R k raws) = length raws.
Proof. rewrite <- (made_rawConfig k raws) at 2. now rewrite length_fmap. Qed.

(** [addProcessedConfigs] of [ConfigManager.tsx] never throws: it appends
    one record for every string that passes the filter, which is made of
    the inventory of the closure. *)
Lemma addProcessedConfigs_ok k configs prev rawConfigs :
  let kept :=
    filter (is_new (list_to_set (rawConfig <$> configs))) rawConfigs in
  addProcessedConfigs R k configs prev rawConfigs
  = Ok (prev ++ made R k kept, length kept).
Proof.
  intros kept. unfold addProcessedConfigs. fold kept.
  rewrite map_result_made. cbn. rewrite made_length.
  case_bool_decide as Hlen; [reflexivity|].
  destruct kept; cbn in *; [now rewrite app_nil_r | lia].
Qed.

(** An item whose parse fails becomes the placeholder record and the
    others are kept. *)
Lemma made_placeholder k raws i raw e :
  raws !! i = Some raw →
  parseConfig_try R raw = Throw e →
  made R k raws !! i = Some (spread (new_config R (k + i) raw) placeholder).
Proof.
  revert k i. induction raws as [|r raws IH]; intros k i Hi Ht; [done|].
  destruct i as [|i]; cbn in *.
  - injection Hi as ->. unfold parse_outcome. rewrite Ht.
    now rewrite Nat.add_0_r.
  - replace (k + S i)%nat with (S k + i)%nat by lia. now apply IH.
Qed.

(** A string that is in the inventory of the closure is not added. *)
Lemma addProcessedConfigs_existing k configs prev rawConfigs raw inventory n :
  raw ∈ rawConfig <$> configs →
  addProcessedConfigs R k configs prev rawConfigs = Ok (inventory, n) →
  length (filter (λ c, rawConfig c = raw) inventory)
  = length (filter (λ c, rawConfig c = raw) prev).
Proof.
  intros Hin. rewrite addProcessedConfigs_ok. intros [= <- <-].
  rewrite filter_app, length_app.
  set (kept := filter (is_new (list_to_set (rawConfig <$> configs))) rawConfigs).
  assert (Hnone : filter (λ c, rawConfig c = raw) (made R k kept) = []).
  { destruct (filter _ (made R k kept)) as [|c rest] eqn:Hf; [done|exfalso].
    assert (Hc : c ∈ filter (λ c, rawConfig c = raw) (made R k kept))
      by (rewrite Hf; left).
    apply list_elem_of_filter in Hc as [Heq Hc].
    assert (Hraw : rawConfig c ∈ kept).
    { rewrite <- (made_rawConfig k). apply list_elem_of_fmap. eauto. }
    apply list_elem_of_filter in Hraw as [[_ Hnew] _].
    apply Hnew. rewrite Heq. now apply elem_of_list_to_set. }
  rewrite Hnone. cbn. lia.
Qed.

(** When the batch itself has no repetition and the closure knows every
    record of the inventory (as it does when it is the closure of the
    current render), the inventory stays free of duplicates. *)
Lemma addProcessedConfigs_NoDup k configs prev rawConfigs inventory n :
  NoDup (rawConfig <$> prev) →
  (∀ raw, raw ∈ rawConfig <$> prev → raw ∈ rawConfig <$> configs) →
  NoDup rawConfigs →
  addProcessedConfigs R k configs prev rawConfigs = Ok (inventory, n) →
  NoDup (rawConfig <$> inventory).
Proof.
  intros Hc Hsub Hr. rewrite addProcessedConfigs_ok. intros [= <- <-].
  rewrite fmap_app, made_rawConfig. apply NoDup_app. split; [done|]. split.
  - intros raw Hin Hnew. apply list_elem_of_filter in Hnew as [[_ Hnew] _].
    apply Hnew. apply elem_of_list_to_set. now apply Hsub.
  - now apply NoDup_filter.
Qed.

(** In the [App] component one item that [new URL] rejects makes the whole
    [map] throw, so nothing of the batch is added. *)
Lemma App_addProcessedConfigs_throws k configs prev rawConfigs raw e :
  raw ∈ filter (is_new (list_to_set (rawConfig <$> configs))) rawConfigs →
  new_URL R (replace_ss_prefix raw) = Throw e →
  ∃ e', App.addProcessedConfigs R k configs prev rawConfigs = Throw e'.
Proof.
  intros Hin Hurl. unfold App.addProcessedConfigs.
  set (kept := filter _ rawConfigs) in *. clearbody kept.
  assert (H : ∃ e', map_result (App.make_config R) k kept = Throw e').
  { revert k. induction Hin as [raw kept|raw r kept Hin IH]; intros k.
    - cbn. unfold App.make_config.
      destruct (App.parseConfig raw) as [p|e0]; cbn; [|eauto].
      rewrite Hurl. cbn. eauto.
    - cbn. destruct (App.make_config R k r); cbn; [|eauto].
      destruct (IH Hurl (S k)) as [e' ->]. cbn. eauto. }
  destruct H as [e' ->]. cbn. eauto.
Qed.

End Inventory.

(** C1 (decoding is total and a batch survives a bad item): this holds for
    [parseConfig] and for [addProcessedConfigs] of [ConfigManager.tsx]
    (lemmas [parseConfig_total], [addProcessedConfigs_ok],
    [made_placeholder]), and fails for [addProcessedConfigs] of the [App]
    component.
    For the batch of a well-formed link followed by a string that is no URL,
    [parseConfig] gives the placeholder for the second string and
    [ConfigManager.tsx] adds two records, the second being the placeholder
    record, whereas the [App] component throws a [TypeError] and adds
    nothing. *)
Theorem C1_App_batch_is_lost :
  let batch := ["vless://u@host.example:443?x=1#MyNode"; "not a link"] in
  parseConfig sampleRuntime "not a link" = Ok placeholder
  ∧ (∃ c1 c2,
       addProcessedConfigs sampleRuntime 0 [] [] batch = Ok ([c1; c2], 2%nat)
       ∧ name c1 = JStr "MyNode" ∧ protocol c1 = Vless
       ∧ name c2 = JStr "Unnamed Config" ∧ host c2 = JStr "unknown.host"
       ∧ port c2 = Int 0 ∧ protocol c2 = Unknown)
  ∧ App.addProcessedConfigs sampleRuntime 0 [] [] batch = Throw TypeError.
Proof.
  split; [reflexivity|]. split; [|reflexivity].
  do 2 eexists. split; [reflexivity|]. repeat split.
Qed.

(** An item with a scheme the [App] component does not know, which
    [new URL] accepts, becomes a record that is not the placeholder
    record. *)
Lemma App_unknown_scheme_is_not_placeholder :
  ∃ c, App.addProcessedConfigs sampleRuntime 0 [] [] ["ftp://files.example.org/"]
       = Ok ([c], 1%nat)
       ∧ name c = JStr "New Config" ∧ host c = JStr "N/A" ∧ protocol c = Unknown.
Proof. eexists. split; [reflexivity|]. repeat split. Qed.

(** C2 (no two records share a raw string): the filter of
    [addProcessedConfigs] looks only at the records that are in the
    inventory of its closure (lemmas [addProcessedConfigs_existing] and
    [addProcessedConfigs_NoDup]), so a string that occurs twice in one batch
    is added twice, by [ConfigManager.tsx] and by the [App] component
    alike. *)
Theorem C2_duplicate_within_one_batch :
  let raw := "trojan://pw@10.0.0.2:443" in
  (∃ c1 c2,
     addProcessedConfigs sampleRuntime 0 [] [] [raw; raw] = Ok ([c1; c2], 2%nat)
     ∧ rawConfig c1 = raw ∧ rawConfig c2 = raw)
  ∧ (∃ c1 c2,
       App.addProcessedConfigs sampleRuntime 0 [] [] [raw; raw]
       = Ok ([c1; c2], 2%nat)
       ∧ rawConfig c1 = raw ∧ rawConfig c2 = raw).
Proof.
  split; do 2 eexists; (split; [reflexivity|]); split; reflexivity.
Qed.

(** The same for every runtime and every inventory that does not hold the
    string yet. *)
Lemma addProcessedConfigs_batch_duplicate R k configs prev raw :
  trim raw ≠ EmptyString →
  raw ∉ rawConfig <$> configs →
  addProcessedConfigs R k configs prev [raw; raw]
  = Ok (prev ++ made R k [raw; raw], 2%nat).
Proof.
  intros Ht Hn. rewrite addProcessedConfigs_ok.
  assert (Hnew : is_new (list_to_set (rawConfig <$> configs)) raw).
  { split; [done|]. now rewrite elem_of_list_to_set. }
  rewrite !filter_cons, filter_nil. rewrite !decide_True by done. reflexivity.
Qed.

(** C10, as the code has it: a vmess link whose payload decodes and parses
    to a JSON value other than [null], and whose [port] converts to a
    number, gives a Vmess record with that number as its port; an absent
    [add] leaves the host [undefined] and an absent [port], which converts
    like every primitive, leaves the port [NaN], both overriding the
    defaults of the new record.  A vmess link gives the Unknown placeholder
    only when [atob] throws, [JSON.parse] throws, the document is [null],
    or [port] is an array or an object whose conversion to a number throws;
    and it does give it in the last case. *)
Theorem C10_vmess_missing_fields R k raw :
  startsWith raw "vmess://" = true →
  let payload := replace_first "vmess://" EmptyString raw in
  (∀ s data prt,
     atob R payload = Ok s → JSON_parse R s = Ok data → data ≠ JNull →
     get_prop data "port" = Ok prt →
     (∀ n, Number R prt = Ok n →
        ∃ p, parseConfig R raw = Ok p
             ∧ let c := spread (new_config R k raw) p in
               protocol c = Vmess ∧ port c = n
               ∧ (get_prop data "add" = Ok JUndefined → host c = JUndefined)
               ∧ (prt = JUndefined → port c = NaN))
     ∧ (primitive prt → ∃ n, Number R prt = Ok n)
     ∧ (∀ e, Number R prt = Throw e → parseConfig R raw = Ok placeholder))
  ∧ (∀ p, parseConfig R raw = Ok p → p_protocol p = Some Unknown →
          p = placeholder
          ∧ ((∃ e, atob R payload = Throw e)
             ∨ (∃ s e, atob R payload = Ok s ∧ JSON_parse R s = Throw e)
             ∨ (∃ s, atob R payload = Ok s ∧ JSON_parse R s = Ok JNull)
             ∨ (∃ s data prt,
                  atob R payload = Ok s ∧ JSON_parse R s = Ok data
                  ∧ get_prop data "port" = Ok prt ∧ ¬ primitive prt
                  ∧ Number R prt = Throw TypeError))).
Proof.
  intros Hp payload. split.
  - intros s data prt Ha Hj Hn Hprt.
    destruct (parseConfig_try_vmess R raw s data Hp Ha Hj Hn)
      as (ps & add & prt' & _ & Hadd & Hprt' & Htry).
    assert (prt' = prt) as -> by congruence.
    split; [|split].
    + intros n Hnum. rewrite Hnum in Htry. eexists. split.
      { rewrite parseConfig_outcome. unfold parse_outcome. rewrite Htry.
        reflexivity. }
      cbn. split; [reflexivity|]. split; [reflexivity|]. split.
      * intros H. congruence.
      * intros ->. cbn in Hnum. congruence.
    + apply Number_primitive.
    + intros e Hnum. rewrite Hnum in Htry.
      now apply (parseConfig_caught R raw e).
  - intros p Hparse Hunknown.
    rewrite parseConfig_outcome in Hparse. injection Hparse as <-.
    unfold parse_outcome in *.
    destruct (parseConfig_try R raw) as [[p|]|e] eqn:Htry.
    + exfalso. unfold parseConfig_try in Htry. rewrite Hp in Htry.
      destruct (atob R _); cbn in Htry; [|discriminate].
      destruct (JSON_parse R _) as [data|]; cbn in Htry; [|discriminate].
      destruct (get_prop data "ps"); cbn in Htry; [|discriminate].
      destruct (get_prop data "add"); cbn in Htry; [|discriminate].
      destruct (get_prop data "port"); cbn in Htry; [|discriminate].
      destruct (Number R _); cbn in Htry; [|discriminate].
      injection Htry as <-. discriminate.
    + exfalso. unfold parseConfig_try in Htry. rewrite Hp in Htry.
      destruct (atob R _); cbn in Htry; [|discriminate].
      destruct (JSON_parse R _) as [data|]; cbn in Htry; [|discriminate].
      destruct (get_prop data "ps"); cbn in Htry; [|discriminate].
      destruct (get_prop data "add"); cbn in Htry; [|discriminate].
      destruct (get_prop data "port"); cbn in Htry; [|discriminate].
      destruct (Number R _); cbn in Htry; discriminate.
    + split; [reflexivity|].
      destruct (parseConfig_try_vmess_throws R raw e Hp Htry)
        as [H|[(s & H1 & H2)|[H|(s & data & prt & H1 & H2 & H3 & H4)]]];
        eauto 6.
      do 3 right. exists s, data, prt.
      destruct (Number_throws R prt e H4) as (-> & Hnp & _). auto.
Qed.

Lemma C10_vmess_missing_fields_witness :
  ∃ p, parseConfig sampleRuntime "vmess://e30=" = Ok p
       ∧ protocol (spread (new_config sampleRuntime 0 "vmess://e30=") p) = Vmess
       ∧ host (spread (new_config sampleRuntime 0 "vmess://e30=") p) = JUndefined
       ∧ port (spread (new_config sampleRuntime 0 "vmess://e30=") p) = NaN.
Proof.
  destruct (C10_vmess_missing_fields sampleRuntime 0 "vmess://e30=" eq_refl)
    as [H _].
  destruct (H "{}" (JObj []) JUndefined eq_refl eq_refl ltac:(discriminate)
              eq_refl) as (Hok & _ & _).
  destruct (Hok NaN eq_refl) as (p & Hp & Hproto & _ & Hhost & Hport).
  exists p. repeat split; [exact Hp | exact Hproto | | ].
  - apply Hhost. reflexivity.
  - apply Hport. reflexivity.
Defined.

(** C10 as stated fails for the document [null]: the payload is valid
    base64 of valid JSON and has neither field, and the read of [data.ps]
    throws, so the result is the Unknown placeholder although neither
    [atob] nor [JSON.parse] threw.  It also fails for a document whose
    [port] is an object with a key [toString] of its own: the document
    lacks [add], and [Number(data.port)] throws inside the [try]. *)
Lemma C10_null_document_gives_placeholder :
  (startsWith "vmess://bnVsbA==" "vmess://" = true
   ∧ atob sampleRuntime (replace_first "vmess://" EmptyString "vmess://bnVsbA==")
     = Ok "null"
   ∧ JSON_parse sampleRuntime "null" = Ok JNull
   ∧ parseConfig sampleRuntime "vmess://bnVsbA==" = Ok placeholder
   ∧ p_protocol placeholder = Some Unknown)
  ∧ (let raw := "vmess://eyJwb3J0Ijp7InRvU3RyaW5nIjoxfX0=" in
     let data := JObj [("port", JObj [("toString", JNum (Int 1))])] in
     (s ← atob sampleRuntime (replace_first "vmess://" EmptyString raw);
      JSON_parse sampleRuntime s) = Ok data
     ∧ get_prop data "add" = Ok JUndefined
     ∧ (prt ← get_prop data "port"; Number sampleRuntime prt) = Throw TypeError
     ∧ parseConfig sampleRuntime raw = Ok placeholder).
Proof. repeat split. Qed.

(** ** One probe *)

Section Probe.
Context (R : Runtime).

(** The geolocation data touches none of the fields the claims are
    about. *)
Lemma with_geo_fields g p :
  p_status (with_geo R g p) = p_status p
  ∧ p_latency (with_geo R g p) = p_latency p
  ∧ p_score (with_geo R g p) = p_score p
  ∧ p_speed (with_geo R g p) = p_speed p
  ∧ p_latencyHistory (with_geo R g p) = p_latencyHistory p.
Proof. destruct g as [| | |[] ? ?]; repeat split. Qed.

Lemma Qltb_lt x y : Qltb x y = true ↔ (x < y)%Q.
Proof.
  unfold Qltb. rewrite negb_true_iff. split.
  - intros H. apply Qnot_le_lt. intros Hle. apply Qle_bool_iff in Hle.
    congruence.
  - intros H. apply not_true_is_false. intros Hle.
    apply Qle_bool_iff in Hle. apply Qlt_not_le in H. contradiction.
Qed.

Lemma Qltb_ge x y : Qltb x y = false ↔ (y <= x)%Q.
Proof.
  unfold Qltb. rewrite negb_false_iff. apply Qle_bool_iff.
Qed.





Lemma Qfloor_lt_Z y (n : Z) : (y < inject_Z n)%Q → Qfloor y < n.
Proof.
  intros H. pose proof (Qfloor_le y) as Hf. rewrite Zlt_Qlt. lra.
Qed.

Lemma Qfloor_ge_Z y (n : Z) : (inject_Z n <= y)%Q → n ≤ Qfloor y.
Proof.
  intros H. rewrite <- (Qfloor_Z n). now apply Qfloor_resp_le.
Qed.

(** [testLatency] lies between 50 and 2050. *)
Lemma testLatency_bounds d :
  unit_interval (u_latency d) → 50 ≤ testLatency d ≤ 2050.
Proof.
  intros [H0 H1]. unfold testLatency, dmul.
  set (x := (u_latency d * 2000)%Q).
  assert (Hx0 : (0 <= x)%Q) by (unfold x; lra).
  assert (Hx1 : (x <= 2000)%Q) by (unfold x; lra).
  pose proof (rnd_nonneg x Hx0) as Hr0.
  destruct (rnd_error_bound 2000 x ltac:(lra) Hx1) as [_ Hr1].
  assert (He : (2000 * eps <= 1 # 2)%Q) by (vm_compute; discriminate).
  assert (Ha : 0 ≤ Qfloor (rnd x)) by (apply Qfloor_ge_Z; exact Hr0).
  assert (Hb : Qfloor (rnd x) < 2001).
  { apply Qfloor_lt_Z. change (inject_Z 2001) with 2001%Q. lra. }
  lia.
Qed.

Lemma Math_round_bounds x :
  (x - (1 # 2) < inject_Z (Math_round x))%Q
  ∧ (inject_Z (Math_round x) <= x + (1 # 2))%Q.
Proof.
  unfold Math_round. split.
  - pose proof (Qlt_floor (x + (1 # 2))) as H.
    rewrite inject_Z_plus in H. change (inject_Z 1) with 1%Q in H. lra.
  - apply Qfloor_le.
Qed.

Lemma Qfloor_unique y (m : Z) :
  (inject_Z m <= y)%Q → (y < inject_Z m + 1)%Q → Qfloor y = m.
Proof.
  intros H1 H2. apply Z.le_antisymm.
  - assert (Qfloor y < m + 1); [|lia]. apply Qfloor_lt_Z.
    rewrite inject_Z_plus. exact H2.
  - now apply Qfloor_ge_Z.
Qed.

(** A number close to a fraction of twentieths that is not whole has the
    floor of that fraction. *)
Lemma Qfloor_near_twentieth (N : Z) (y : Q) :
  N mod 20 ≠ 0 →
  (inject_Z N / 20 - (1 # 40) <= y)%Q → (y <= inject_Z N / 20 + (1 # 40))%Q →
  Qfloor y = N / 20.
Proof.
  intros Hmod H1 H2.
  pose proof (Z.div_mod N 20 ltac:(lia)) as Hdm.
  pose proof (Z.mod_pos_bound N 20 ltac:(lia)) as Hb.
  assert (HN : (inject_Z N == 20 * inject_Z (N / 20) + inject_Z (N mod 20))%Q).
  { rewrite Hdm at 1. rewrite inject_Z_plus, inject_Z_mult. reflexivity. }
  assert (Hm1 : (1 <= inject_Z (N mod 20))%Q).
  { change 1%Q with (inject_Z 1). rewrite <- Zle_Qle. lia. }
  assert (Hm2 : (inject_Z (N mod 20) <= 19)%Q).
  { change 19%Q with (inject_Z 19). rewrite <- Zle_Qle. lia. }
  assert (Hq : (inject_Z N / 20
                == inject_Z (N / 20) + inject_Z (N mod 20) * (1 # 20))%Q).
  { rewrite HN. field. }
  set (A := (inject_Z N / 20)%Q) in *. clearbody A.
  apply Qfloor_unique; lra.
Qed.

Lemma Qfloor_twentieth (N : Z) (y : Q) :
  (y == inject_Z N / 20)%Q → Qfloor y = N / 20.
Proof.
  intros H. rewrite H.
  assert (Hq : (inject_Z N / 20 == N # 20)%Q) by (rewrite (Qmake_Qdiv N 20); reflexivity).
  rewrite Hq. reflexivity.
Qed.

(** For the latencies a probe measures, the score computed in doubles is
    the score of the exact quotient. *)
Lemma score_exact lat :
  0 ≤ lat ≤ 2050 →
  score_of lat = Z.max 0 (Math_round (100 - inject_Z lat / 20)).
Proof.
  intros [Hlat0 Hlat1]. unfold score_of. f_equal. unfold Math_round.
  unfold ddiv.
  change (inject_Z lat / 20)%Q with (inject_Z lat * (1 # 20))%Q.
  set (q := (inject_Z lat * (1 # 20))%Q).
  assert (Hl0 : (0 <= inject_Z lat)%Q).
  { change 0%Q with (inject_Z 0). rewrite <- Zle_Qle. exact Hlat0. }
  assert (Hl1 : (inject_Z lat <= 2050)%Q).
  { change 2050%Q with (inject_Z 2050). rewrite <- Zle_Qle. exact Hlat1. }
  assert (Hq0 : (0 <= q)%Q) by (unfold q; lra).
  assert (Hq1 : (q <= 200)%Q) by (unfold q; lra).
  assert (Hexact : (100 - q + (1 # 2) == inject_Z (2010 - lat) / 20)%Q).
  { unfold q. unfold Z.sub. rewrite inject_Z_plus, inject_Z_opp. field. }
  rewrite (Qfloor_twentieth (2010 - lat) _ Hexact).
  destruct (Z.eq_dec ((2010 - lat) mod 20) 0) as [Hmod|Hmod].
  - (* a tie: the quotient and the difference are doubles *)
    pose proof (Z.div_mod (2010 - lat) 20 ltac:(lia)) as Hdm.
    set (k := (2010 - lat) / 20) in *.
    assert (Hlat : lat = 2010 - 20 * k) by lia.
    assert (Hq : (q == inject_Z (201 - 2 * k) / 2)%Q).
    { unfold q. rewrite Hlat. unfold Z.sub.
      rewrite !inject_Z_plus, !inject_Z_opp, !inject_Z_mult. field. }
    unfold dsub.
    rewrite (rnd_proper q _ Hq).
    assert (Hk : -100 ≤ k ≤ 101) by lia.
    pose proof (rnd_half (201 - 2 * k) ltac:(lia)) as Ha.
    assert (Hy : (100 - rnd (inject_Z (201 - 2 * k) / 2)
                  == inject_Z (2 * k - 1) / 2)%Q).
    { rewrite Ha. unfold Z.sub.
      rewrite !inject_Z_plus, !inject_Z_opp, !inject_Z_mult. field. }
    rewrite (rnd_proper _ _ Hy).
    pose proof (rnd_half (2 * k - 1) ltac:(lia)) as Hb.
    assert (Hb' : (rnd (inject_Z (2 * k - 1) / 2) + (1 # 2) == inject_Z k)%Q).
    { rewrite Hb. unfold Z.sub.
      rewrite !inject_Z_plus, !inject_Z_opp, !inject_Z_mult. field. }
    apply Qfloor_unique; rewrite Hb'; lra.
  - unfold dsub.
    destruct (rnd_error_bound 200 q ltac:(lra) Hq1) as [Ha1 Ha2].
    assert (He : (200 * eps <= 1 # 1000)%Q) by (vm_compute; discriminate).
    set (a := rnd q) in *.
    destruct (rnd_error_bound 200 (100 - a) ltac:(lra) ltac:(lra)) as [Hb1 Hb2].
    apply Qfloor_near_twentieth; [exact Hmod | |]; rewrite <- Hexact; lra.
Qed.

(** The score of a measured latency lies between 0 and 100. *)
Lemma score_bounds lat :
  0 ≤ lat → 0 ≤ Z.max 0 (Math_round (100 - inject_Z lat / 20)) ≤ 100.
Proof.
  intros H. split; [lia|]. apply Z.max_lub; [lia|].
  unfold Math_round. change 100 with (Qfloor (100 + (1 # 2))) at 2.
  apply Qfloor_resp_le.
  assert (Hl : (inject_Z 0 <= inject_Z lat)%Q) by (rewrite <- Zle_Qle; exact H).
  change (inject_Z 0) with 0%Q in Hl. unfold Qdiv.
  assert (0 <= inject_Z lat * / 20)%Q
    by (apply Qmult_le_0_compat; [exact Hl | discriminate]).
  lra.
Qed.

(** The double [Math.round] is applied to for the speed lies within ten
    per cent of the base speed, up to the rounding of the five operations
    and of the two literals, which is far below one millionth. *)
Lemma jitter_bounds b u :
  50 ≤ b ≤ 2000 → unit_interval u →
  let B := inject_Z b in
  let v := dadd B (dsub (dmul (dmul u B) d0_2) (dmul B d0_1)) in
  ((9 # 10) * B - (1 # 1000000) <= v)%Q
  ∧ (v <= (11 # 10) * B + (1 # 1000000))%Q.
Proof.
  intros [Hb0 Hb1] [Hu0 Hu1] B v. subst v. unfold dadd, dsub, dmul.
  assert (HB0 : (50 <= B)%Q).
  { unfold B. change 50%Q with (inject_Z 50). rewrite <- Zle_Qle. exact Hb0. }
  assert (HB1 : (B <= 2000)%Q).
  { unfold B. change 2000%Q with (inject_Z 2000). rewrite <- Zle_Qle.
    exact Hb1. }
  clearbody B.
  destruct literals as (H1 & H2 & _).
  assert (Hk1 : (d0_1 == 3602879701896397 # 36028797018963968)%Q)
    by (rewrite <- H1; symmetry; apply Qred_correct).
  assert (Hk2 : (d0_2 == 3602879701896397 # 18014398509481984)%Q)
    by (rewrite <- H2; symmetry; apply Qred_correct).
  set (k1 := d0_1) in *. set (k2 := d0_2) in *. clearbody k1 k2.
  set (p := (u * B)%Q).
  assert (Hp0 : (0 <= p)%Q) by (unfold p; apply Qmult_le_0_compat; lra).
  assert (Hp1 : (p <= B)%Q).
  { unfold p. rewrite <- (Qmult_1_l B) at 2.
    apply Qmult_le_compat_r; lra. }
  assert (He : (eps == 1 # 9007199254740992)%Q) by reflexivity.
  destruct (rnd_error_bound 2000 p ltac:(lra) ltac:(lra)) as [Ha1 Ha2].
  set (t1 := rnd p) in *. clearbody t1.
  set (x2 := (t1 * k2)%Q).
  assert (Hx2 : (x2 == t1 * (3602879701896397 # 18014398509481984))%Q)
    by (unfold x2; now rewrite Hk2).
  destruct (rnd_error_bound 2000 x2 ltac:(lra) ltac:(lra)) as [Hb1' Hb2'].
  set (t2 := rnd x2) in *. clearbody t2.
  set (x3 := (B * k1)%Q).
  assert (Hx3 : (x3 == B * (3602879701896397 # 36028797018963968))%Q)
    by (unfold x3; now rewrite Hk1).
  destruct (rnd_error_bound 2000 x3 ltac:(lra) ltac:(lra)) as [Hc1 Hc2].
  set (t3 := rnd x3) in *. clearbody t3.
  destruct (rnd_error_bound 2000 (t2 - t3) ltac:(lra) ltac:(lra)) as [Hd1 Hd2].
  set (t4 := rnd (t2 - t3)) in *. clearbody t4.
  destruct (rnd_error_bound 4000 (B + t4) ltac:(lra) ltac:(lra)) as [He1 He2].
  set (t5 := rnd (B + t4)) in *. clearbody t5.
  split; lra.
Qed.

(** So the speed, its nearest integer, is within ten per cent and one half
    of the base speed, bounds included. *)
Lemma speed_bounds b u :
  50 ≤ b ≤ 2000 → unit_interval u →
  let B := inject_Z b in
  let sp := Math_round (dadd B (dsub (dmul (dmul u B) d0_2) (dmul B d0_1))) in
  9 * b - 5 ≤ 10 * sp ≤ 11 * b + 5.
Proof.
  intros Hb Hu B sp. destruct (jitter_bounds b u Hb Hu) as [Hlo Hhi].
  fold B in Hlo, Hhi.
  set (v := dadd B (dsub (dmul (dmul u B) d0_2) (dmul B d0_1))) in *.
  destruct (Math_round_bounds v) as [Hr1 Hr2]. fold sp in Hr1, Hr2.
  split.
  - assert (H : 9 * b - 6 < 10 * sp); [|lia]. rewrite Zlt_Qlt.
    unfold Z.sub. rewrite inject_Z_plus, !inject_Z_mult. fold B.
    change (inject_Z 9) with 9%Q. change (inject_Z 10) with 10%Q.
    change (inject_Z (- (6))) with (-6)%Q. lra.
  - assert (H : 10 * sp < 11 * b + 6); [|lia]. rewrite Zlt_Qlt.
    rewrite inject_Z_plus, !inject_Z_mult. fold B.
    change (inject_Z 11) with 11%Q. change (inject_Z 10) with 10%Q.
    change (inject_Z 6) with 6%Q. lra.
Qed.

End Probe.



(** C6, as the code has it: a probe that takes the success branch (its
    latency does not exceed the timeout and it does not report failure)
    gives status [Slow] above 1000 ms and [Active] otherwise, the score
    [max(0, round(100 - latency/20))], which lies between 0 and 100, and a
    speed that is the nearest integer to a double within ten per cent of
    [max(50, 2000 - latency)] (up to the rounding of the doubles, less than
    a millionth); so the speed itself is within ten per cent plus one half
    of that base, the two bounds included. *)
Theorem C6_success_branch R config tmo d :
  Draws_ok d →
  probe_failed tmo d = false →
  let lat := testLatency d in
  let b := baseSpeed lat in
  let r := testConfig R config tmo d in
  p_status r = Some (if bool_decide (1000 < lat) then Slow else Active)
  ∧ p_latency r = Some lat
  ∧ ∃ sc sp,
      p_score r = Some sc ∧ p_speed r = Some sp
      ∧ sc = Z.max 0 (Math_round (100 - inject_Z lat / 20))
      ∧ 0 ≤ sc ≤ 100
      ∧ (∃ v, ((9 # 10) * inject_Z b - (1 # 1000000) <= v)%Q
              ∧ (v <= (11 # 10) * inject_Z b + (1 # 1000000))%Q
              ∧ sp = Math_round v)
      ∧ 9 * b - 5 ≤ 10 * sp ≤ 11 * b + 5.
Proof.
  intros (Hlat & _ & Hjit) Hok lat b r. subst r.
  unfold testConfig. rewrite Hok.
  set (p := test_result _ _ _ _ _).
  destruct (with_geo_fields R (geo d) p) as (-> & -> & -> & -> & _).
  subst p. cbn [p_status p_latency p_score p_speed test_result].
  fold lat. split; [reflexivity|]. split; [reflexivity|].
  pose proof (testLatency_bounds d Hlat) as Hge. fold lat in Hge.
  assert (Hb : 50 ≤ b ≤ 2000) by (unfold b, baseSpeed; lia).
  exists (score_of lat), (speed_of (u_jitter d) lat).
  split; [reflexivity|]. split; [reflexivity|].
  rewrite score_exact by lia. split; [reflexivity|].
  split; [apply score_bounds; lia|]. unfold speed_of. fold b. split.
  - eexists. destruct (jitter_bounds b (u_jitter d) Hb Hjit) as [Hlo Hhi].
    split; [exact Hlo|]. split; [exact Hhi | reflexivity].
  - exact (speed_bounds b (u_jitter d) Hb Hjit).
Qed.

Lemma C6_success_branch_witness :
  let r := testConfig sampleRuntime (new_config sampleRuntime 0 "ss://x")
             (Int 3000) (draws_of (1 # 40)) in
  p_status r = Some Active ∧ p_latency r = Some 100
  ∧ ∃ sc sp,
      p_score r = Some sc ∧ p_speed r = Some sp ∧ 0 ≤ sc ≤ 100
      ∧ 9 * 1900 - 5 ≤ 10 * sp ≤ 11 * 1900 + 5.
Proof.
  assert (Hd : Draws_ok (draws_of (1 # 40))).
  { unfold Draws_ok, unit_interval. cbn. repeat split; vm_compute; congruence. }
  destruct (C6_success_branch sampleRuntime (new_config sampleRuntime 0 "ss://x")
              (Int 3000) (draws_of (1 # 40)) Hd eq_refl)
    as (Hst & Hl & sc & sp & Hsc & Hsp & _ & Hb & _ & Hbnd).
  split; [exact Hst|]. split; [exact Hl|].
  exists sc, sp. split; [exact Hsc|]. split; [exact Hsp|]. split; [exact Hb|].
  exact Hbnd.
Defined.

(** C6 as stated fails.  A probe that measures 1944 ms has the base speed
    56; when the jitter draw is 1/256 the double rounded is about 50.44 and
    the speed stored is 50, which is below 50.4, nine tenths of the base.
    A probe that measures 55 ms has the base speed 1945; when the jitter
    draw is the largest double below 1 the double rounded is exactly 2139.5,
    eleven tenths of the base, and the speed stored is 2140.  And a probe
    whose latency is within the timeout can still report failure: with the
    failure draw at 0.9 a probe of 100 ms ends [Inactive]. *)
Lemma C6_speed_leaves_the_ten_percent_band :
  let c := new_config sampleRuntime 0 "ss://x" in
  (testLatency slow_draws = 1944
   ∧ probe_failed (Int 3000) slow_draws = false
   ∧ baseSpeed 1944 = 56
   ∧ p_speed (testConfig sampleRuntime c (Int 3000) slow_draws) = Some 50
   ∧ ¬ ((9 # 10) * inject_Z 56 <= inject_Z 50)%Q)
  ∧ (testLatency tie_draws = 55
     ∧ probe_failed (Int 3000) tie_draws = false
     ∧ baseSpeed 55 = 1945
     ∧ p_speed (testConfig sampleRuntime c (Int 3000) tie_draws) = Some 2140
     ∧ ¬ (inject_Z 2140 <= (11 # 10) * inject_Z 1945)%Q)
  ∧ (testLatency failing_draws = 100
     ∧ p_status (testConfig sampleRuntime c (Int 3000) failing_draws)
       = Some Inactive).
Proof.
  repeat split; vm_compute; congruence.
Qed.

(** ** The rule engine *)

Lemma numFields_decide f :
  bool_decide (f ∈ numFields)
  = match f with f_latency | f_score | f_speed => true | _ => false end.
Proof. destruct f; vm_compute; reflexivity. Qed.

Lemma strFields_decide f :
  bool_decide (f ∈ strFields)
  = match f with f_latency | f_score | f_speed => false | _ => true end.
Proof. destruct f; vm_compute; reflexivity. Qed.

Lemma isNaN_Int z : isNaN (Int z) = false.
Proof. reflexivity. Qed.

Lemma num_lt_NaN a : num_lt a NaN = false.
Proof. destruct a; reflexivity. Qed.

Lemma num_lt_Int a b : num_lt (Int a) (Int b) = bool_decide (a < b).
Proof.
  unfold Int, num_lt, Qltb. destruct (Qle_bool (inject_Z b) (inject_Z a)) eqn:H.
  - apply Qle_bool_iff in H. rewrite <- Zle_Qle in H.
    rewrite bool_decide_eq_false_2 by lia. reflexivity.
  - rewrite bool_decide_eq_true_2; [reflexivity|].
    destruct (Z_lt_le_dec a b) as [|Hle]; [assumption|exfalso].
    rewrite Zle_Qle in Hle. apply Qle_bool_iff in Hle. congruence.
Qed.

(** On the latency a rule [less_than] is the comparison of two numbers,
    the latency as it is stored and the value of the rule. *)
Lemma evaluateRule_latency R c rule v :
  field rule = f_latency → operator rule = less_than →
  Number R (value rule) = Ok v →
  evaluateRule R c rule = Ok (num_lt (Int (latency c)) v).
Proof.
  intros Hf Ho Hv. unfold evaluateRule. rewrite Hf, Ho. cbn. rewrite Hv. cbn.
  destruct v; reflexivity.
Qed.

Lemma evaluateRule_latency_below R c rule :
  latency c = -1 → latency_below R rule → evaluateRule R c rule = Ok true.
Proof.
  intros Hlat (Hf & Ho & v & Hv & Hgt).
  rewrite (evaluateRule_latency R c rule v Hf Ho Hv), Hlat, Hgt. reflexivity.
Qed.

Lemma every_result_true {A} (f : A → result bool) l :
  every_result f l = Ok true ↔ Forall (λ x, f x = Ok true) l.
Proof.
  induction l as [|x l IH]; cbn.
  - split; [constructor | reflexivity].
  - rewrite Forall_cons, <- IH.
    destruct (f x) as [[]|e]; cbn; intuition congruence.
Qed.

Lemma every_result_Throw {A} (f : A → result bool) l e :
  every_result f l = Throw e → ∃ x, x ∈ l ∧ f x = Throw e.
Proof.
  induction l as [|x l IH]; cbn; [discriminate|].
  destruct (f x) as [[]|e'] eqn:Hx; cbn.
  - intros H. destruct (IH H) as (y & Hy & He). exists y. split; [now right | exact He].
  - discriminate.
  - intros [= ->]. exists x. split; [left | exact Hx].
Qed.

Lemma every_result_total {A} (f : A → result bool) l :
  Forall (λ x, ∃ b, f x = Ok b) l → ∃ b, every_result f l = Ok b.
Proof.
  induction 1 as [|x l [b Hb] _ IH]; cbn; [eauto|].
  rewrite Hb. cbn. destruct b; eauto.
Qed.

Lemma filter_result_Ok {A} (f : A → result bool) l r :
  filter_result f l = Ok r →
  Forall (λ x, ∃ b, f x = Ok b) l ∧ r = filter (λ x, f x = Ok true) l.
Proof.
  revert r. induction l as [|x l IH]; intros r H; cbn in H.
  - injection H as <-. split; [constructor | reflexivity].
  - destruct (f x) as [b|e] eqn:Hx; cbn in H; [|discriminate].
    destruct (filter_result f l) as [r'|e] eqn:Hl; cbn in H; [|discriminate].
    injection H as <-. destruct (IH r' eq_refl) as [Hall ->].
    split; [constructor; eauto|].
    rewrite filter_cons. destruct b.
    + rewrite decide_True by exact Hx. reflexivity.
    + rewrite decide_False by congruence. reflexivity.
Qed.

Lemma filter_result_total {A} (f : A → result bool) l :
  Forall (λ x, ∃ b, f x = Ok b) l → ∃ r, filter_result f l = Ok r.
Proof.
  induction 1 as [|x l [b Hb] _ [r IH]]; cbn; [eauto|].
  rewrite Hb, IH. cbn. eauto.
Qed.

Lemma filter_result_throws {A} (f : A → result bool) l e :
  filter_result f l = Throw e → ∃ x, x ∈ l ∧ f x = Throw e.
Proof.
  induction l as [|x l IH]; cbn; [discriminate|].
  destruct (f x) as [b|e'] eqn:Hx; cbn.
  - destruct (filter_result f l) as [r|e'']; cbn; [discriminate|].
    intros [= ->]. destruct (IH eq_refl) as (y & Hy & He).
    exists y. split; [now right | exact He].
  - intros [= ->]. exists x. split; [left | exact Hx].
Qed.

Lemma filter_result_Throw {A} (f : A → result bool) l x e :
  x ∈ l → f x = Throw e → (∀ y e', f y = Throw e' → e' = e) →
  filter_result f l = Throw e.
Proof.
  intros Hin Hx Hall. induction Hin as [x l|x y l Hin IH]; cbn.
  - now rewrite Hx.
  - destruct (f y) as [b|e'] eqn:Hy; cbn; [|now rewrite (Hall y e' Hy)].
    now rewrite IH.
Qed.

Lemma map_res_Ok {A B} (f : A → result B) l r :
  map_res f l = Ok r → Forall2 (λ x y, f x = Ok y) l r.
Proof.
  revert r. induction l as [|x l IH]; intros r H; cbn in H.
  - injection H as <-. constructor.
  - destruct (f x) as [y|e] eqn:Hx; cbn in H; [|discriminate].
    destruct (map_res f l) as [r'|e] eqn:Hl; cbn in H; [|discriminate].
    injection H as <-. constructor; auto.
Qed.

Lemma map_res_total {A B} (f : A → result B) l :
  Forall (λ x, ∃ y, f x = Ok y) l → ∃ r, map_res f l = Ok r.
Proof.
  induction 1 as [|x l [y Hy] _ [r IH]]; cbn; [eauto|].
  rewrite Hy, IH. cbn. eauto.
Qed.

Lemma map_res_throws {A B} (f : A → result B) l e :
  map_res f l = Throw e → ∃ x, x ∈ l ∧ f x = Throw e.
Proof.
  induction l as [|x l IH]; cbn; [discriminate|].
  destruct (f x) as [b|e'] eqn:Hx; cbn.
  - destruct (map_res f l) as [r|e'']; cbn; [discriminate|].
    intros [= ->]. destruct (IH eq_refl) as (y & Hy & He).
    exists y. split; [now right | exact He].
  - intros [= ->]. exists x. split; [left | exact Hx].
Qed.

(** The groups a record is listed in. *)
Lemma classify_Ok R groups c cw :
  classify R groups c = Ok cw →
  cfg cw = c
  ∧ smartGroups cw = sg_name <$> filter (λ sg, matches R c sg = Ok true) groups.
Proof.
  unfold classify. intros H.
  destruct (filter_result (matches R c) groups) as [m|e] eqn:Hm; cbn in H;
    [|discriminate].
  injection H as <-. apply filter_result_Ok in Hm as [_ ->]. split; reflexivity.
Qed.

Lemma classify_member R groups c cw n :
  classify R groups c = Ok cw →
  n ∈ smartGroups cw ↔
  ∃ sg, sg ∈ groups ∧ sg_name sg = n
        ∧ Forall (λ r, evaluateRule R c r = Ok true) (rules sg).
Proof.
  intros H. apply classify_Ok in H as [_ ->].
  rewrite list_elem_of_fmap. split.
  - intros (sg & -> & Hin). apply list_elem_of_filter in Hin as [Hm Hin].
    exists sg. split; [exact Hin|]. split; [reflexivity|].
    now apply every_result_true.
  - intros (sg & Hin & <- & Hall). exists sg. split; [reflexivity|].
    apply list_elem_of_filter. split; [|exact Hin].
    now apply every_result_true.
Qed.

(** The classification keeps the records and their order. *)
Lemma configsWithSmartGroups_cfg R groups inventory out :
  configsWithSmartGroups R groups inventory = Ok out → cfg <$> out = inventory.
Proof.
  unfold configsWithSmartGroups. intros H. apply map_res_Ok in H.
  induction H as [|c cw l out Hc _ IH]; [reflexivity|].
  cbn. rewrite IH. now destruct (classify_Ok _ _ _ _ Hc) as [-> _].
Qed.

(** C9 (the sentinel is an ordinary number for the rule engine): for a
    record whose latency is [-1], a rule [latency less_than V] whose value
    converts to the number [v] evaluates to the comparison [-1 < v] of
    numbers: true for every finite [v] above [-1] and for [Infinity], false
    for [v] equal to [-1] or below, for [NaN] and for [-Infinity].  The rule
    the settings form adds by default ([latency less_than 300]) holds of the
    record, and a smart group made of rules with a value above [-1] lists
    it as a member. *)
Theorem C9_sentinel_passes_less_than R c :
  latency c = -1 →
  (∀ rule v, field rule = f_latency → operator rule = less_than →
             Number R (value rule) = Ok v →
             evaluateRule R c rule = Ok (num_lt (Int (-1)) v))
  ∧ (∀ x, num_lt (Int (-1)) (Num x) = true ↔ (inject_Z (-1) < x)%Q)
  ∧ num_lt (Int (-1)) Infinity = true
  ∧ num_lt (Int (-1)) NaN = false
  ∧ num_lt (Int (-1)) NegInfinity = false
  ∧ (∀ rule, latency_below R rule → evaluateRule R c rule = Ok true)
  ∧ (∀ rid, evaluateRule R c (newRule rid) = Ok true)
  ∧ (∀ groups sg out,
       sg ∈ groups → Forall (latency_below R) (rules sg) →
       configsWithSmartGroups R groups [c] = Ok out →
       ∃ cw, out = [cw] ∧ cfg cw = c ∧ sg_name sg ∈ smartGroups cw)
  ∧ (∀ sg, Forall (latency_below R) (rules sg) →
           configsWithSmartGroups R [sg] [c]
           = Ok [ {| cfg := c; smartGroups := [sg_name sg] |} ]).
Proof.
  intros Hlat.
  assert (Hall : ∀ sg, Forall (latency_below R) (rules sg) →
                       matches R c sg = Ok true).
  { intros sg Hrules. apply every_result_true.
    eapply Forall_impl; [exact Hrules|]. intros rule.
    now apply evaluateRule_latency_below. }
  split; [|split; [|split; [|split; [|split; [|split; [|split; [|split]]]]]]].
  - intros rule v Hf Ho Hv.
    rewrite (evaluateRule_latency R c rule v Hf Ho Hv), Hlat. reflexivity.
  - intros x. cbn. split; [apply Qltb_lt|].
    intros H. unfold Qltb. destruct (Qle_bool x (inject_Z (-1))) eqn:Hle;
      [|reflexivity].
    apply Qle_bool_iff in Hle. lra.
  - reflexivity.
  - reflexivity.
  - reflexivity.
  - intros rule. now apply evaluateRule_latency_below.
  - intros rid. apply evaluateRule_latency_below; [exact Hlat|].
    repeat split. exists (Int 300). split; reflexivity.
  - intros groups sg out Hsg Hrules Hout.
    unfold configsWithSmartGroups in Hout. cbn in Hout.
    destruct (classify R groups c) as [cw|e] eqn:Hcw; cbn in Hout;
      [|discriminate].
    injection Hout as <-. exists cw. split; [reflexivity|].
    split; [apply (classify_Ok _ _ _ _ Hcw)|].
    apply (classify_member _ _ _ _ _ Hcw). exists sg.
    split; [exact Hsg|]. split; [reflexivity|].
    apply every_result_true. now apply Hall.
  - intros sg Hrules. unfold configsWithSmartGroups, classify. cbn.
    rewrite (Hall sg Hrules). reflexivity.
Qed.

Lemma C9_sentinel_passes_less_than_witness :
  let c := new_config sampleRuntime 0 "ss://x" in
  let fast := {| sg_id := "g1"; sg_name := "Fast"; sg_color := "#22c55e";
                 rules := [newRule "r1"] |} in
  evaluateRule sampleRuntime c (newRule "r1") = Ok true
  ∧ configsWithSmartGroups sampleRuntime [fast] [c]
    = Ok [ {| cfg := c; smartGroups := ["Fast"] |} ].
Proof.
  intros c fast.
  destruct (C9_sentinel_passes_less_than sampleRuntime c eq_refl)
    as (_ & _ & _ & _ & _ & _ & Hdefault & _ & Hgroup).
  split; [apply Hdefault|].
  apply (Hgroup fast). repeat constructor. exists (Int 300).
  split; reflexivity.
Defined.

(** ** Sorting *)

Section Sorting.
Context {A : Type} (cmp : A → A → result Z) (le : A → A → Prop).
Hypothesis le_trans : ∀ x y z, le x y → le y z → le x z.
Hypothesis cmp_le : ∀ x y c, cmp x y = Ok c → c ≤ 0 → le x y.
Hypothesis cmp_gt : ∀ x y c, cmp x y = Ok c → 0 < c → le y x.

Lemma insert_by_Permutation x l r : insert_by cmp x l = Ok r → r ≡ₚ x :: l.
Proof.
  revert r. induction l as [|y l IH]; intros r H; cbn in H.
  - now injection H as <-.
  - destruct (cmp x y) as [c|e]; cbn in H; [|discriminate].
    destruct (0 <? c).
    + destruct (insert_by cmp x l) as [r'|e]; cbn in H; [|discriminate].
      injection H as <-. rewrite (IH r' eq_refl). apply Permutation_swap.
    + now injection H as <-.
Qed.

Lemma sort_by_Permutation l r : sort_by cmp l = Ok r → r ≡ₚ l.
Proof.
  revert r. induction l as [|x l IH]; intros r H; cbn in H.
  - now injection H as <-.
  - destruct (sort_by cmp l) as [r'|e]; cbn in H; [|discriminate].
    rewrite (insert_by_Permutation _ _ _ H). now rewrite (IH r' eq_refl).
Qed.

Lemma insert_by_total x l :
  (∀ y, y ∈ l → ∃ c, cmp x y = Ok c) → ∃ r, insert_by cmp x l = Ok r.
Proof.
  induction l as [|y l IH]; intros H; cbn; [eauto|].
  destruct (H y) as [c Hc]; [left|]. rewrite Hc. cbn.
  destruct (0 <? c); [|eauto].
  destruct IH as [r Hr]; [intros z Hz; apply H; now right|].
  rewrite Hr. cbn. eauto.
Qed.

(** The sort returns as soon as the comparator does on the elements of the
    list. *)
Lemma sort_by_total l :
  (∀ x y, x ∈ l → y ∈ l → ∃ c, cmp x y = Ok c) → ∃ r, sort_by cmp l = Ok r.
Proof.
  induction l as [|x l IH]; intros H; cbn; [eauto|].
  destruct IH as [r Hr]; [intros y z Hy Hz; apply H; now right|].
  rewrite Hr. cbn. apply insert_by_total. intros y Hy. apply H; [left|].
  right. now rewrite <- (sort_by_Permutation _ _ Hr).
Qed.

Lemma insert_by_sorted x l r :
  StronglySorted le l → insert_by cmp x l = Ok r → StronglySorted le r.
Proof.
  revert r. induction l as [|y l IH]; intros r Hs H; cbn in H.
  - injection H as <-. repeat constructor.
  - apply StronglySorted_cons in Hs as [Hy Hl].
    destruct (cmp x y) as [c|e] eqn:Hcmp; cbn in H; [|discriminate].
    destruct (0 <? c) eqn:Hc.
    + destruct (insert_by cmp x l) as [r'|e] eqn:Hr; cbn in H; [|discriminate].
      injection H as <-.
      apply StronglySorted_cons. split; [|now apply IH].
      rewrite (insert_by_Permutation _ _ _ Hr). constructor; [|exact Hy].
      apply (cmp_gt _ _ c Hcmp). lia.
    + injection H as <-.
      assert (Hxy : le x y) by (apply (cmp_le _ _ c Hcmp); lia).
      apply StronglySorted_cons. split.
      * constructor; [exact Hxy|].
        eapply Forall_impl; [exact Hy|]. intros z Hz. now apply (le_trans x y z).
      * apply StronglySorted_cons. now split.
Qed.

Lemma sort_by_sorted l r : sort_by cmp l = Ok r → StronglySorted le r.
Proof.
  revert r. induction l as [|x l IH]; intros r H; cbn in H.
  - injection H as <-. constructor.
  - destruct (sort_by cmp l) as [r'|e]; cbn in H; [|discriminate].
    eapply insert_by_sorted; [|exact H]. now apply IH.
Qed.

Lemma StronglySorted_lookup_lt l i j a b :
  StronglySorted le l → l !! i = Some a → l !! j = Some b → (i < j)%nat →
  le a b.
Proof.
  intros Hs. revert i j. induction Hs as [|x l Hs IH Hx]; intros i j Hi Hj Hlt.
  - done.
  - destruct i as [|i], j as [|j]; cbn in *; try lia.
    + injection Hi as ->. rewrite Forall_lookup in Hx. eauto.
    + apply (IH i j); [done|done|lia].
Qed.

End Sorting.

(** Two numbers are compared as numbers, without any conversion. *)
Lemma js_lt_numbers R x y : js_lt R (JNum x) (JNum y) = Ok (num_lt x y).
Proof. reflexivity. Qed.

Lemma js_gt_numbers R x y : js_gt R (JNum x) (JNum y) = Ok (num_lt y x).
Proof. reflexivity. Qed.

Lemma sort_value_latency a : sort_value k_latency a = JNum (latency_key a).
Proof. unfold sort_value, latency_key. case_bool_decide; reflexivity. Qed.

(** Sorting by latency never throws. *)
Lemma compareConfigs_latency R dir a b :
  compareConfigs R {| key := k_latency; direction := dir |} a b
  = Ok (if num_lt (latency_key a) (latency_key b) then
          match dir with asc => -1 | desc => 1 end
        else if num_lt (latency_key b) (latency_key a) then
          match dir with asc => 1 | desc => -1 end
        else 0).
Proof.
  unfold compareConfigs. cbn [key direction]. rewrite !sort_value_latency.
  rewrite js_lt_numbers, js_gt_numbers. cbn.
  destruct (num_lt (latency_key a) (latency_key b)); [reflexivity|]. cbn.
  destruct (num_lt (latency_key b) (latency_key a)); reflexivity.
Qed.

Ltac latency_cases :=
  unfold latency_le, latency_key in *;
  repeat case_bool_decide; cbn [num_lt] in *;
  rewrite ?num_lt_Int in *;
  try change (num_lt Infinity (Int ?z)) with false in *;
  try change (num_lt (Int ?z) Infinity) with true in *;
  repeat case_bool_decide;
  intros; try discriminate; try reflexivity; try lia.

Lemma latency_le_trans dir x y z :
  latency_le dir x y → latency_le dir y z → latency_le dir x z.
Proof. destruct dir; latency_cases. Qed.

Lemma compareConfigs_le R dir x y c :
  compareConfigs R {| key := k_latency; direction := dir |} x y = Ok c →
  c ≤ 0 → latency_le dir x y.
Proof.
  rewrite compareConfigs_latency. intros [= <-]. unfold latency_le.
  destruct dir, (num_lt (latency_key x) (latency_key y)) eqn:H1,
    (num_lt (latency_key y) (latency_key x)) eqn:H2; try lia; try reflexivity;
    revert H1 H2; latency_cases.
Qed.

Lemma compareConfigs_gt R dir x y c :
  compareConfigs R {| key := k_latency; direction := dir |} x y = Ok c →
  0 < c → latency_le dir y x.
Proof.
  rewrite compareConfigs_latency. intros [= <-]. unfold latency_le.
  destruct dir, (num_lt (latency_key x) (latency_key y)) eqn:H1,
    (num_lt (latency_key y) (latency_key x)) eqn:H2; try lia; try reflexivity;
    revert H1 H2; latency_cases.
Qed.

(** The sentinel is compared as [Infinity]: it is larger than every other
    latency. *)
Lemma sentinel_is_largest a b :
  latency (cfg a) = -1 → latency (cfg b) ≠ -1 →
  num_lt (latency_key b) (latency_key a) = true.
Proof.
  intros Ha Hb. unfold latency_key.
  rewrite (bool_decide_eq_true_2 _ Ha), (bool_decide_eq_false_2 _ Hb).
  reflexivity.
Qed.

Lemma sort_by_latency_placement R dir l out i j a b :
  sort_by (compareConfigs R {| key := k_latency; direction := dir |}) l = Ok out →
  out !! i = Some a → out !! j = Some b →
  latency (cfg a) = -1 → latency (cfg b) ≠ -1 →
  match dir with
  | asc => (j < i)%nat
  | desc => (i < j)%nat
  end.
Proof.
  intros Hout Hi Hj Ha Hb.
  pose proof (sort_by_sorted _ (latency_le dir) (latency_le_trans dir)
                (compareConfigs_le R dir) (compareConfigs_gt R dir) l out Hout)
    as Hs.
  pose proof (sentinel_is_largest a b Ha Hb) as Hlt.
  assert (Hne : i ≠ j) by (intros ->; congruence).
  destruct dir; cbn.
  - destruct (decide (j < i)%nat) as [|Hn]; [done|exfalso].
    pose proof (StronglySorted_lookup_lt _ out i j a b Hs Hi Hj ltac:(lia)) as H.
    cbn in H. congruence.
  - destruct (decide (i < j)%nat) as [|Hn]; [done|exfalso].
    pose proof (StronglySorted_lookup_lt _ out j i b a Hs Hj Hi ltac:(lia)) as H.
    cbn in H. congruence.
Qed.

(** C7 (placement of the sentinel): when the view is sorted by latency, a
    record whose latency is [-1] is compared as [Infinity] in both
    directions; so in ascending order every such record stands after every
    record with a latency of [0] or more, and in descending order before
    it. *)
Theorem C7_sentinel_sorts_as_infinity R groups fl dir inventory out i j a b :
  filteredAndSortedConfigs R groups fl {| key := k_latency; direction := dir |}
    inventory = Ok out →
  out !! i = Some a → out !! j = Some b →
  latency (cfg a) = -1 → 0 ≤ latency (cfg b) →
  sort_value k_latency a = JNum Infinity
  ∧ match dir with
    | asc => (j < i)%nat
    | desc => (i < j)%nat
    end.
Proof.
  intros Hq Hi Hj Ha Hb. split.
  { unfold sort_value. now rewrite bool_decide_eq_true_2. }
  unfold filteredAndSortedConfigs in Hq.
  destruct (configsWithSmartGroups _ _ _) as [l0|e]; cbn in Hq; [|discriminate].
  destruct (filter_result _ _) as [l4|e]; cbn in Hq; [|discriminate].
  apply (sort_by_latency_placement R dir l4 out i j a b Hq Hi Hj Ha). lia.
Qed.

(** A record that was never tested and one that answered in 100 ms: in
    ascending order the tested one comes first. *)
Lemma C7_sentinel_sorts_as_infinity_witness :
  let untested := new_config sampleRuntime 0 "ss://a" in
  let fresh := new_config sampleRuntime 1 "ss://b" in
  let tested :=
    probe sampleRuntime (Int 3000) fresh (draws_of (1 # 40), "t1") fresh in
  ∃ out a b,
    filteredAndSortedConfigs sampleRuntime [] no_filters
      {| key := k_latency; direction := asc |} [untested; tested] = Ok out
    ∧ out !! 1%nat = Some a ∧ out !! 0%nat = Some b
    ∧ latency (cfg a) = -1 ∧ latency (cfg b) = 100
    ∧ sort_value k_latency a = JNum Infinity ∧ (0 < 1)%nat.
Proof.
  intros untested fresh tested.
  exists [ {| cfg := tested; smartGroups := [] |};
           {| cfg := untested; smartGroups := [] |} ],
         {| cfg := untested; smartGroups := [] |},
         {| cfg := tested; smartGroups := [] |}.
  do 5 (split; [vm_compute; reflexivity|]).
  apply (C7_sentinel_sorts_as_infinity sampleRuntime [] no_filters asc
           [untested; tested]
           [ {| cfg := tested; smartGroups := [] |};
             {| cfg := untested; smartGroups := [] |} ]
           1%nat 0%nat
           {| cfg := untested; smartGroups := [] |}
           {| cfg := tested; smartGroups := [] |});
    [vm_compute; reflexivity | reflexivity | reflexivity | reflexivity
    | vm_compute; discriminate].
Defined.

(** ** The manual test run *)

Ltac runNext_cases s :=
  let Hflag := fresh "Hflag" in
  let Hqueue := fresh "Hqueue" in
  unfold runNext;
  destruct (testingStopFlag s) eqn:Hflag, (queue s) eqn:Hqueue;
  repeat case_bool_decide; cbn in *; rewrite ?Hflag, ?Hqueue; cbn in *.

Lemma revert_testing_not_testing l : Forall not_testing (revert_testing <$> l).
Proof.
  apply Forall_fmap, Forall_forall. intros c _. unfold not_testing, revert_testing.
  cbn. case_bool_decide; [discriminate | assumption].
Qed.

Lemma runNext_flag s : testingStopFlag (runNext s) = testingStopFlag s.
Proof. runNext_cases s; congruence. Qed.

Lemma runNext_total s : total (runNext s) = total s.
Proof. runNext_cases s; congruence. Qed.

Lemma runNext_testedCount s : testedCount (runNext s) = testedCount s.
Proof. runNext_cases s; congruence. Qed.

Lemma runNext_queue_length s :
  (length (queue (runNext s)) ≤ length (queue s))%nat.
Proof. runNext_cases s; lia. Qed.

Lemma runNext_Inv s : Inv s → Inv (runNext s).
Proof.
  intros (Ha & Hb & Hc). unfold Inv.
  runNext_cases s; repeat split; try congruence; try tauto; try lia;
    auto using revert_testing_not_testing.
  - rewrite length_app. cbn. lia.
  - match goal with
    | H : isTesting s = false |- _ => destruct (Hb H) as [_ [?|?]]; discriminate
    end.
  - match goal with
    | H : isTesting s = false |- _ => destruct (Hb H) as [_ [?|?]]; discriminate
    end.
Qed.

(** A turn of [runNext] that meets fewer than [c] probes in flight leaves
    at most [c]. *)
Lemma runNext_Bounded c s :
  0 ≤ running s < c → 0 ≤ testedCount s →
  testedCount s + Z.of_nat (length (queue s)) + running s = total s →
  Bounded c (runNext s).
Proof.
  intros Hr Ht Hsum. unfold Bounded.
  runNext_cases s; repeat split; try congruence; try lia.
Qed.

(** Started with no stop requested, a turn takes the head of a queue that
    is not empty. *)
Lemma runNext_starts s config rest :
  testingStopFlag s = false → queue s = config :: rest →
  running (runNext s) = running s + 1
  ∧ queue (runNext s) = rest
  ∧ pending (runNext s) = pending s ++ [config]
  ∧ isTesting (runNext s) = isTesting s
  ∧ configs (runNext s) = configs s.
Proof. intros Hf Hq. unfold runNext. rewrite Hf, Hq. repeat split. Qed.

(** An integer is below a number exactly when it is below the least
    integer that is not below the number. *)
Lemma lt_Qceiling (i : Z) c : (inject_Z i < c)%Q ↔ i < Qceiling c.
Proof.
  pose proof (Qle_ceiling c) as H1. pose proof (Qceiling_lt c) as H2. split.
  - intros H. rewrite Zlt_Qlt. lra.
  - intros H. assert (Hle : i ≤ Qceiling c - 1) by lia.
    rewrite Zle_Qle in Hle. lra.
Qed.

Lemma lt_min_true i c len :
  lt_min i (Num c) len = true ↔ i < Qceiling c ∧ i < Z.of_nat len.
Proof.
  unfold lt_min, Math_min, Int. cbn [num_lt].
  rewrite <- lt_Qceiling, (Zlt_Qlt i (Z.of_nat len)).
  destruct (Qltb (inject_Z (Z.of_nat len)) c) eqn:H; cbn [num_lt].
  - apply Qltb_lt in H. rewrite Qltb_lt. split; [intros; split; lra | tauto].
  - rewrite Qltb_lt.
    assert (Hle : (c <= inject_Z (Z.of_nat len))%Q).
    { destruct (Qlt_le_dec (inject_Z (Z.of_nat len)) c) as [Hlt|]; [|assumption].
      apply Qltb_lt in Hlt. congruence. }
    split; [intros; split; lra | tauto].
Qed.

(** The loop of [startTesting] goes on while its counter is below the bound
    of the concurrency and below the length of the queue. *)
Lemma lt_min_bound ct n i len :
  0 ≤ i → Z.of_nat len ≤ n →
  lt_min i ct len = true ↔ i < worker_bound ct n ∧ i < Z.of_nat len.
Proof.
  intros Hi Hn. destruct ct as [|c| |]; cbn [worker_bound].
  - unfold lt_min. cbn. split; [discriminate | lia].
  - apply lt_min_true.
  - change (lt_min i Infinity len) with (num_lt (Int i) (Int (Z.of_nat len))).
    rewrite num_lt_Int, bool_decide_eq_true. lia.
  - unfold lt_min. cbn. split; [discriminate | lia].
Qed.

Lemma lt_min_len i ct len : lt_min i ct len = true → i < Z.of_nat len.
Proof.
  destruct ct as [|c| |].
  - discriminate.
  - intros H. now apply lt_min_true in H.
  - change (lt_min i Infinity len) with (num_lt (Int i) (Int (Z.of_nat len))).
    now rewrite num_lt_Int, bool_decide_eq_true.
  - discriminate.
Qed.

Lemma launch_Inv fuel ct i s : Inv s → Inv (launch fuel ct i s).
Proof.
  revert i s. induction fuel as [|fuel IH]; intros i s H; cbn [launch]; [exact H|].
  destruct (lt_min _ _ _); [|exact H]. apply IH, runNext_Inv, H.
Qed.

(** The loop of [startTesting] leaves by its own test: fuel beyond the
    length of the queue changes nothing. *)
Lemma launch_fuel fuel ct i s :
  Z.of_nat (length (queue s)) - i ≤ Z.of_nat fuel →
  launch (S fuel) ct i s = launch fuel ct i s.
Proof.
  revert i s. induction fuel as [|fuel IH]; intros i s Hle.
  - cbn [launch]. destruct (lt_min i ct (length (queue s))) eqn:Hc;
      [|reflexivity].
    apply lt_min_len in Hc. lia.
  - change (launch (S (S fuel)) ct i s)
      with (if lt_min i ct (length (queue s))
            then launch (S fuel) ct (i + 1) (runNext s) else s).
    change (launch (S fuel) ct i s)
      with (if lt_min i ct (length (queue s))
            then launch fuel ct (i + 1) (runNext s) else s).
    destruct (lt_min _ _ _); [|reflexivity]. apply IH.
    pose proof (runNext_queue_length s). lia.
Qed.

(** In particular the fuel [startTesting] gives its loop is enough. *)
Lemma launch_fuel_extra extra ct s :
  launch (length (queue s) + extra) ct 0 s = launch (length (queue s)) ct 0 s.
Proof.
  induction extra as [|extra IH]; [now rewrite Nat.add_0_r|].
  rewrite Nat.add_succ_r, launch_fuel by lia. exact IH.
Qed.

Lemma launch_Bounded ct fuel i s :
  testingStopFlag s = false → running s = i →
  Bounded (worker_bound ct (total s)) s →
  Bounded (worker_bound ct (total s)) (launch fuel ct i s)
  ∧ running s ≤ running (launch fuel ct i s).
Proof.
  revert i s. induction fuel as [|fuel IH]; intros i s Hf Hi Hb; cbn [launch];
    [split; [exact Hb | lia]|].
  destruct (lt_min i ct (length (queue s))) eqn:Hc; [|split; [exact Hb | lia]].
  destruct Hb as (Hr & Ht & Hsum & Hrun).
  apply (lt_min_bound ct (total s)) in Hc as [Hic Hlen]; [|lia|lia].
  destruct (queue s) as [|config rest] eqn:Hq; [cbn in Hlen; lia|].
  destruct (runNext_starts s config rest Hf Hq) as (Hr' & _).
  destruct (IH (i + 1) (runNext s)) as [Hb' Hle].
  - now rewrite runNext_flag.
  - lia.
  - rewrite runNext_total.
    apply runNext_Bounded; [lia | lia | now rewrite Hq].
  - rewrite runNext_total in Hb'. split; [exact Hb' | lia].
Qed.

Section Run.
Context (R : Runtime) (settings : SettingsData).

(** The state [startTesting] hands to its loop. *)
Lemma startTesting_Inv shown configs0 : Inv (startTesting settings shown configs0).
Proof.
  unfold startTesting. apply launch_Inv. unfold Inv. cbn.
  repeat split; discriminate.
Qed.

Lemma fire_Inv s e s' : Inv s → fire R settings s e = Some s' → Inv s'.
Proof.
  intros (Ha & Hb & Hc) Hfire. destruct e as [i d now|]; cbn in Hfire.
  - destruct (pending s !! i) as [config|] eqn:Hi; [|discriminate].
    injection Hfire as <-. unfold resume. apply runNext_Inv.
    assert (Hlen : (i < length (pending s))%nat) by (eapply lookup_lt_Some, Hi).
    assert (Ht : isTesting s = true).
    { destruct (isTesting s) eqn:Ht; [reflexivity|].
      destruct (Hb eq_refl) as [H0 _]. lia. }
    unfold Inv. cbn. repeat split; try congruence.
    rewrite length_delete by eauto. lia.
  - destruct (isTesting s) eqn:Ht; [|discriminate]. injection Hfire as <-.
    unfold Inv. cbn. repeat split; congruence.
Qed.

Lemma run_Inv events s s' : Inv s → run R settings events s = Some s' → Inv s'.
Proof.
  revert s. induction events as [|e events IH]; intros s H Hrun; cbn in Hrun.
  - now injection Hrun as <-.
  - destruct (fire R settings s e) as [s1|] eqn:Hfire; [|discriminate].
    cbn in Hrun. eapply IH; [|exact Hrun]. eapply fire_Inv; eauto.
Qed.

(** Nothing in a run clears the stop flag. *)
Lemma fire_flag s e s' :
  fire R settings s e = Some s' →
  (e = StopPressed ∨ testingStopFlag s = true) → testingStopFlag s' = true.
Proof.
  intros Hfire H. destruct e as [i d now|]; cbn in Hfire.
  - destruct (pending s !! i); [|discriminate]. injection Hfire as <-.
    unfold resume. rewrite runNext_flag. cbn. destruct H; [discriminate|done].
  - destruct (isTesting s); [|discriminate]. now injection Hfire as <-.
Qed.

Lemma run_flag events s s' :
  run R settings events s = Some s' →
  (StopPressed ∈ events ∨ testingStopFlag s = true) →
  testingStopFlag s' = true.
Proof.
  revert s. induction events as [|e events IH]; intros s Hrun H; cbn in Hrun.
  - injection Hrun as <-. destruct H as [H|H]; [|exact H].
    now apply elem_of_nil in H.
  - destruct (fire R settings s e) as [s1|] eqn:Hfire; [|discriminate].
    cbn in Hrun. apply (IH s1 Hrun).
    destruct H as [H|H].
    + apply elem_of_cons in H as [Heq|H]; [|now left].
      right. apply (fire_flag s e s1 Hfire). now left.
    + right. apply (fire_flag s e s1 Hfire). now right.
Qed.

Lemma fire_Bounded c s e s' :
  Inv s → Bounded c s → fire R settings s e = Some s' →
  Bounded c s'
  ∧ total s' = total s
  ∧ testedCount s' = testedCount s + resolutions [e].
Proof.
  intros (Ha & _) (Hr & Ht & Hsum & Hrun) Hfire.
  destruct e as [i d now|]; cbn in Hfire.
  - destruct (pending s !! i) as [config|] eqn:Hi; [|discriminate].
    injection Hfire as <-.
    assert (Hlen : (i < length (pending s))%nat) by (eapply lookup_lt_Some, Hi).
    unfold resume. rewrite runNext_total, runNext_testedCount. cbn.
    split; [|split; [reflexivity | unfold resolutions; cbn; lia]].
    apply runNext_Bounded; cbn; lia.
  - destruct (isTesting s) eqn:Hs; [|discriminate]. injection Hfire as <-.
    cbn. split; [|split; [reflexivity | unfold resolutions; cbn; lia]].
    unfold Bounded. cbn. auto.
Qed.

Lemma resolutions_cons e events :
  resolutions (e :: events) = resolutions [e] + resolutions events.
Proof. unfold resolutions. destruct e; cbn; lia. Qed.

Lemma run_Bounded c events s s' :
  Inv s → Bounded c s → run R settings events s = Some s' →
  Bounded c s'
  ∧ total s' = total s
  ∧ testedCount s' = testedCount s + resolutions events.
Proof.
  revert s. induction events as [|e events IH]; intros s Hi Hb Hrun;
    cbn in Hrun.
  - injection Hrun as <-. split; [exact Hb|]. split; [reflexivity|].
    unfold resolutions. cbn. lia.
  - destruct (fire R settings s e) as [s1|] eqn:Hfire; [|discriminate].
    cbn in Hrun.
    destruct (fire_Bounded c s e s1 Hi Hb Hfire) as (Hb1 & Ht1 & Hc1).
    destruct (IH s1 (fire_Inv s e s1 Hi Hfire) Hb1 Hrun) as (Hb' & Ht' & Hc').
    split; [exact Hb'|]. split; [congruence|].
    rewrite resolutions_cons. lia.
Qed.

(** While no stop is requested, a probe that resolves is merged into the
    record that has the identifier of the record handed to [testConfig];
    when that record is the one handed over, the merge is [probe]. *)
Lemma resume_configs s config d now :
  testingStopFlag s = false →
  configs (resume R settings s config d now)
  = (λ c, if bool_decide (id c = id (cfg config))
          then applyResult c (testConfig R (cfg config) (timeout settings) d) now
          else c) <$> configs s.
Proof.
  intros Hf. unfold resume. rewrite Hf.
  set (s2 := Build_Sched _ _ _ _ _ _ _ _ _ _).
  assert (Hf2 : testingStopFlag s2 = false) by reflexivity.
  unfold runNext. rewrite Hf2.
  destruct (queue s2); [case_bool_decide|]; reflexivity.
Qed.

(** The unattended run merges in the same way. *)
Lemma autoTest_loop_cons config rest d now ds inventory :
  autoTest_loop R settings (config :: rest) ((d, now) :: ds) inventory
  = autoTest_loop R settings rest ds
      ((λ c, if bool_decide (id c = id config)
             then applyResult c (testConfig R config (timeout settings) d) now
             else c) <$> inventory).
Proof. reflexivity. Qed.

(** With no probe in flight and the end not reported, nothing can happen
    but a press of the stop button, which changes neither. *)
Lemma run_stuck events s s' :
  pending s = [] → isTesting s = true →
  run R settings events s = Some s' →
  pending s' = [] ∧ isTesting s' = true ∧ configs s' = configs s.
Proof.
  revert s. induction events as [|e events IH]; intros s Hp Ht Hrun;
    cbn in Hrun.
  - now injection Hrun as <-.
  - destruct e as [i d now|]; cbn in Hrun.
    + rewrite Hp in Hrun. discriminate.
    + rewrite Ht in Hrun. cbn in Hrun.
      destruct (IH (stopTesting s) Hp Ht Hrun) as (? & ? & ?). auto.
Qed.

End Run.

Lemma launch_total fuel ct i s : total (launch fuel ct i s) = total s.
Proof.
  revert i s. induction fuel as [|fuel IH]; intros i s; cbn [launch]; [reflexivity|].
  destruct (lt_min _ _ _); [|reflexivity]. now rewrite IH, runNext_total.
Qed.

Lemma launch_testedCount fuel ct i s :
  testedCount (launch fuel ct i s) = testedCount s.
Proof.
  revert i s. induction fuel as [|fuel IH]; intros i s; cbn [launch]; [reflexivity|].
  destruct (lt_min _ _ _); [|reflexivity]. now rewrite IH, runNext_testedCount.
Qed.

(** A concurrency above 0 leaves a bound above 0 for the loop. *)
Lemma worker_bound_pos ct n :
  num_lt (Int 0) ct = true → 0 < n → 0 < worker_bound ct n.
Proof.
  destruct ct as [|c| |]; cbn [worker_bound]; try discriminate.
  - intros H _. apply lt_Qceiling. now apply Qltb_lt in H.
  - auto.
Qed.

(** With a concurrency above 0 and a candidate, [startTesting] leaves at
    least one probe in flight and no more than the bound of the
    concurrency. *)
Lemma startTesting_Bounded settings shown configs0 :
  num_lt (Int 0) (concurrentTests settings) = true →
  filter is_candidate shown ≠ [] →
  let s0 := startTesting settings shown configs0 in
  let n := Z.of_nat (length (filter is_candidate shown)) in
  Bounded (worker_bound (concurrentTests settings) n) s0 ∧ 1 ≤ running s0
  ∧ total s0 = n
  ∧ testedCount s0 = 0.
Proof.
  intros Hc0 Hne s0 n. subst s0 n. unfold startTesting.
  rewrite launch_total, launch_testedCount. cbn [total testedCount].
  set (ct := concurrentTests settings) in *.
  set (configsToTest := filter is_candidate shown) in *.
  destruct configsToTest as [|config rest] eqn:Hq; [done|].
  set (n := Z.of_nat (length (config :: rest))).
  assert (Hn : 0 < n) by (unfold n; cbn [length]; lia).
  pose proof (worker_bound_pos ct n Hc0 Hn) as Hb0.
  set (init := Build_Sched _ _ _ _ _ _ _ _ _ _).
  cbn [length launch].
  assert (Hcond : lt_min 0 ct (length (queue init)) = true).
  { apply (lt_min_bound ct n); [lia | reflexivity |]. split; [exact Hb0|].
    exact Hn. }
  rewrite Hcond.
  destruct (runNext_starts init config rest eq_refl eq_refl) as (Hr & _).
  destruct (launch_Bounded ct (length rest) (0 + 1) (runNext init)) as [Hb Hle].
  - now rewrite runNext_flag.
  - rewrite Hr. reflexivity.
  - rewrite runNext_total. change (total init) with n.
    apply runNext_Bounded; [cbn; lia | cbn; lia | reflexivity].
  - rewrite runNext_total in Hb. change (total init) with n in Hb.
    split; [exact Hb|]. split; [|split; reflexivity].
    rewrite Hr in Hle. change (running init) with 0 in Hle. lia.
Qed.

(** *** A run after the stop button *)

Section Stopped.
Context (R : Runtime) (settings : SettingsData).

Lemma run_snoc events e s s' :
  run R settings (events ++ [e]) s = Some s'
  ↔ ∃ s1, run R settings events s = Some s1 ∧ fire R settings s1 e = Some s'.
Proof.
  revert s. induction events as [|e0 events IH]; intros s; cbn.
  - split.
    + intros H. exists s. split; [reflexivity|].
      destruct (fire R settings s e); cbn in H; [exact H | discriminate].
    + intros (s2 & [= <-] & H). rewrite H. reflexivity.
  - destruct (fire R settings s e0) as [s1|]; cbn; [apply IH|].
    split; [discriminate | now intros (s2 & H & _)].
Qed.

(** Once the end is reported nothing more happens: no probe is left to
    resolve and the button does not read "stop" any more. *)
Lemma run_ended events s s' :
  isTesting s = false → pending s = [] →
  run R settings events s = Some s' → events = [] ∧ s' = s.
Proof.
  intros Ht Hp Hrun. destruct events as [|e events]; cbn in Hrun.
  - injection Hrun as <-. auto.
  - destruct e as [i d now|]; cbn in Hrun.
    + rewrite Hp in Hrun. discriminate.
    + rewrite Ht in Hrun. discriminate.
Qed.

(** A probe that resolves after the stop: its result is dropped; when it
    was the last one in flight the end is reported and the records that
    are [Testing] are reverted, otherwise nothing else changes. *)
Lemma resume_stopped s config d now :
  testingStopFlag s = true →
  let s' := resume R settings s config d now in
  testingStopFlag s' = true ∧ pending s' = pending s
  ∧ running s' = running s - 1
  ∧ (running s = 1 →
     isTesting s' = false ∧ configs s' = revert_testing <$> configs s)
  ∧ (running s ≠ 1 → isTesting s' = isTesting s ∧ configs s' = configs s).
Proof.
  intros Hf. unfold resume, runNext. rewrite Hf. cbn [testingStopFlag running].
  case_bool_decide; cbn; repeat split; intros; try lia; reflexivity.
Qed.

Lemma fire_stopped s i d now s' :
  Inv s → testingStopFlag s = true →
  fire R settings s (Resolved i d now) = Some s' →
  Inv s' ∧ testingStopFlag s' = true
  ∧ S (length (pending s')) = length (pending s)
  ∧ (length (pending s) = 1%nat →
     isTesting s' = false ∧ configs s' = revert_testing <$> configs s)
  ∧ (length (pending s) ≠ 1%nat →
     isTesting s' = isTesting s ∧ configs s' = configs s).
Proof.
  intros Hi Hf Hfire. pose proof (fire_Inv R settings s _ s' Hi Hfire) as Hi'.
  destruct Hi as (Hr & _). cbn in Hfire.
  destruct (pending s !! i) as [config|] eqn:Hl; [|discriminate].
  injection Hfire as <-.
  assert (Hlen : (i < length (pending s))%nat) by (eapply lookup_lt_Some, Hl).
  destruct (resume_stopped (drop_pending i s) config d now Hf)
    as (Hf' & Hp' & _ & H1 & H2).
  cbn [drop_pending running configs isTesting pending] in *.
  split; [exact Hi'|]. split; [exact Hf'|].
  split; [rewrite Hp', length_delete by eauto; lia|].
  split; intros Hone; [apply H1 | apply H2]; lia.
Qed.

(** After the stop, the run reports its end when as many probes have
    resolved as were in flight, not before, and reverts the records that
    are [Testing] at that moment. *)
Lemma stopped_run events s s' :
  Inv s → testingStopFlag s = true → isTesting s = true → pending s ≠ [] →
  run R settings events s = Some s' →
  resolutions events ≤ Z.of_nat (length (pending s))
  ∧ (resolutions events < Z.of_nat (length (pending s)) →
     isTesting s' = true ∧ configs s' = configs s)
  ∧ (resolutions events = Z.of_nat (length (pending s)) →
     isTesting s' = false ∧ pending s' = []
     ∧ configs s' = revert_testing <$> configs s).
Proof.
  revert s. induction events as [|e events IH]; intros s Hi Hf Ht Hp Hrun.
  - cbn in Hrun. injection Hrun as <-. unfold resolutions. cbn.
    destruct (pending s); [done|]. cbn [length].
    split; [lia|]. split; [auto | lia].
  - rewrite resolutions_cons. cbn [run] in Hrun.
    destruct (fire R settings s e) as [s1|] eqn:Hfire; [|discriminate].
    cbn in Hrun. destruct e as [i d now|].
    + destruct (fire_stopped s i d now s1 Hi Hf Hfire)
        as (Hi1 & Hf1 & Hlen & H1 & H2).
      change (resolutions [Resolved i d now]) with 1.
      destruct (decide (length (pending s) = 1%nat)) as [Hone|Hmany].
      * destruct (H1 Hone) as [Ht1 Hc1].
        assert (Hp1 : pending s1 = []).
        { destruct (pending s1); [reflexivity|]. cbn in Hlen. lia. }
        destruct (run_ended events s1 s' Ht1 Hp1 Hrun) as [-> ->].
        unfold resolutions. cbn. rewrite Hone.
        split; [lia|]. split; [lia | auto].
      * destruct (H2 Hmany) as [Ht1 Hc1]. rewrite Ht in Ht1.
        assert (Hp1 : pending s1 ≠ []).
        { intros Hnil. rewrite Hnil in Hlen. cbn in Hlen. lia. }
        destruct (IH s1 Hi1 Hf1 Ht1 Hp1 Hrun) as (Ha & Hb & Hc).
        rewrite Hc1 in Hb, Hc.
        split; [lia|]. split; intros Hres; [apply Hb | apply Hc]; lia.
    + cbn in Hfire. rewrite Ht in Hfire. injection Hfire as <-.
      change (resolutions [StopPressed]) with 0.
      destruct (IH (stopTesting s)) as (Ha & Hb & Hc); auto.
      { destruct Hi as (Hr & Hb & Hc). unfold Inv. cbn.
        repeat split; try congruence; tauto. }
Qed.

(** The probes in flight can all resolve. *)
Lemma stopped_run_resolves d now s :
  Inv s → testingStopFlag s = true →
  ∃ s', run R settings (replicate (length (pending s)) (Resolved 0 d now)) s
        = Some s'.
Proof.
  remember (length (pending s)) as n eqn:Hn. revert s Hn.
  induction n as [|n IH]; intros s Hn Hi Hf; cbn [replicate run]; [eauto|].
  destruct (pending s) as [|config rest] eqn:Hp; [discriminate|].
  assert (Hex : ∃ s1, fire R settings s (Resolved 0 d now) = Some s1)
    by (cbn; rewrite Hp; eauto).
  destruct Hex as [s1 Hfire]. rewrite Hfire. cbn.
  destruct (fire_stopped s 0 d now s1 Hi Hf Hfire) as (Hi1 & Hf1 & Hlen & _).
  apply IH; [|exact Hi1|exact Hf1]. rewrite Hp in Hlen.
  cbn [length] in Hn, Hlen. lia.
Qed.

End Stopped.
(** C3, as the code has it.  In a manual run with a concurrency above 0
    and at least one candidate in which the stop button was pressed:
    as long as the run has not reported its end a probe is in flight, the
    probes in flight can all resolve, and the run reports its end exactly
    when the last of them has resolved; the step that reports the end turns
    every record that is [Testing] into the same record with the status
    [Untested] and leaves every other record as it is.  A run that has
    reported its end has no probe in flight and no record [Testing], and
    its records are those of the state before the last probe resolved, the
    [Testing] ones reverted to [Untested]. *)
Theorem C3_stop_leaves_no_record_testing R settings shown configs0 events s :
  num_lt (Int 0) (concurrentTests settings) = true →
  filter is_candidate shown ≠ [] →
  run R settings events (startTesting settings shown configs0) = Some s →
  StopPressed ∈ events →
  let reverted :=
    fmap (λ c, if bool_decide (status c = Testing)
               then set_status Untested c else c) in
  (isTesting s = true →
   pending s ≠ []
   ∧ (∀ d now, ∃ s', run R settings
                       (replicate (length (pending s)) (Resolved 0 d now)) s
                     = Some s')
   ∧ ∀ events' s',
       run R settings events' s = Some s' →
       (resolutions events' < Z.of_nat (length (pending s)) →
        isTesting s' = true ∧ configs s' = configs s)
       ∧ (resolutions events' = Z.of_nat (length (pending s)) →
          isTesting s' = false ∧ pending s' = []
          ∧ configs s' = reverted (configs s)))
  ∧ (isTesting s = false →
     pending s = []
     ∧ Forall (λ c, status c ≠ Testing) (configs s)
     ∧ ∃ events1 i d now s1,
         events = events1 ++ [Resolved i d now]
         ∧ run R settings events1 (startTesting settings shown configs0) = Some s1
         ∧ isTesting s1 = true ∧ testingStopFlag s1 = true
         ∧ configs s = reverted (configs s1)).
Proof.
  intros Hc0 Hne Hrun Hstop reverted.
  pose proof (startTesting_Inv settings shown configs0) as Hi0.
  destruct (startTesting_Bounded settings shown configs0 Hc0 Hne)
    as (Hb0 & _).
  pose proof (run_Inv R settings events _ s Hi0 Hrun) as Hi.
  destruct (run_Bounded R settings _ events _ s Hi0 Hb0 Hrun)
    as ((_ & _ & _ & Hgo) & _).
  pose proof (run_flag R settings events _ s Hrun (or_introl Hstop)) as Hflag.
  split.
  - intros Ht. specialize (Hgo Ht).
    assert (Hp : pending s ≠ []).
    { destruct Hi as (Hr & _). intros Hnil. rewrite Hnil in Hr. cbn in Hr. lia. }
    split; [exact Hp|]. split.
    + intros d now. now apply stopped_run_resolves.
    + intros events' s' Hrun'.
      destruct (stopped_run R settings events' s s' Hi Hflag Ht Hp Hrun')
        as (_ & H1 & H2).
      split; [exact H1 | exact H2].
  - intros Hend. destruct Hi as (Ha & Hb & Hc).
    assert (Hp : pending s = []).
    { destruct (Hb Hend) as [H0 _]. destruct (pending s); [reflexivity|].
      cbn in Ha. lia. }
    split; [exact Hp|]. split; [exact (Hc Hflag Hend)|].
    destruct (exists_last (l := events)) as (events1 & e & Hev).
    { intros ->. now apply elem_of_nil in Hstop. }
    rewrite Hev in Hrun. apply run_snoc in Hrun as (s1 & Hrun1 & Hfire).
    pose proof (run_Inv R settings events1 _ s1 Hi0 Hrun1) as Hi1.
    destruct e as [i d now|].
    + assert (Hstop1 : StopPressed ∈ events1).
      { rewrite Hev in Hstop. apply elem_of_app in Hstop as [H|H]; [exact H|].
        apply elem_of_cons in H as [H|H]; [discriminate|].
        now apply elem_of_nil in H. }
      pose proof (run_flag R settings events1 _ s1 Hrun1 (or_introl Hstop1))
        as Hflag1.
      assert (Ht1 : isTesting s1 = true).
      { destruct (isTesting s1) eqn:Ht1; [reflexivity|exfalso].
        destruct Hi1 as (Ha1 & Hb1 & _). destruct (Hb1 Ht1) as [H0 _].
        cbn in Hfire. destruct (pending s1); [discriminate|]. cbn in Ha1. lia. }
      destruct (fire_stopped R settings s1 i d now s Hi1 Hflag1 Hfire)
        as (_ & _ & _ & H1 & H2).
      destruct (decide (length (pending s1) = 1%nat)) as [Hone|Hmany].
      * exists events1, i, d, now, s1. destruct (H1 Hone) as [_ Hcfg]. auto.
      * destruct (H2 Hmany) as [Ht _]. congruence.
    + cbn in Hfire. destruct (isTesting s1) eqn:Ht1; [|discriminate].
      injection Hfire as <-. cbn in Hend. congruence.
Qed.

(** Ten queued records, three at a time; the stop comes after the first
    probe has resolved. *)
Lemma C3_stop_leaves_no_record_testing_witness :
  let settings := sample_settings 3 in
  let d := draws_of (1 # 40) in
  let events := [Resolved 0 d "t1"; StopPressed; Resolved 0 d "t2";
                 Resolved 0 d "t3"; Resolved 0 d "t4"] in
  ∃ s, run sampleRuntime settings events
         (startTesting settings (sample_shown 10) (sample_inventory 10)) = Some s
       ∧ status <$> configs s
         = [Active; Untested; Untested; Untested; Untested; Untested; Untested;
            Untested; Untested; Untested]
       ∧ pending s = [] ∧ Forall (λ c, status c ≠ Testing) (configs s).
Proof.
  intros settings d events.
  destruct (run sampleRuntime settings events
              (startTesting settings (sample_shown 10) (sample_inventory 10)))
    as [s|] eqn:Hrun; [|vm_compute in Hrun; discriminate].
  exists s. split; [reflexivity|].
  assert (Hend : isTesting s = false ∧ status <$> configs s
                 = [Active; Untested; Untested; Untested; Untested; Untested;
                    Untested; Untested; Untested; Untested]).
  { vm_compute in Hrun. injection Hrun as <-. split; reflexivity. }
  split; [exact (proj2 Hend)|].
  destruct (C3_stop_leaves_no_record_testing sampleRuntime settings
              (sample_shown 10) (sample_inventory 10) events s
              eq_refl ltac:(discriminate) Hrun ltac:(right; left))
    as [_ H].
  destruct (H (proj1 Hend)) as (Hp & Hall & _). split; [exact Hp | exact Hall].
Defined.

(** C3 as stated fails when no probe was started.  With the concurrency
    field of the form emptied the settings hold [0]; [startTesting] then
    marks the three candidates [Testing] and starts no probe.  The stop
    button can be pressed; no probe is in flight, and whatever happens
    afterwards the run never reports its end and the three records stay
    [Testing]. *)
Lemma C3_stop_without_probe_leaves_testing :
  let settings := emptied_concurrency in
  let s0 := startTesting settings (sample_shown 3) (sample_inventory 3) in
  concurrentTests settings = Int 0
  ∧ ∀ events s,
      run sampleRuntime settings (StopPressed :: events) s0 = Some s →
      testingStopFlag s = true ∧ pending s = [] ∧ isTesting s = true
      ∧ status <$> configs s = [Testing; Testing; Testing].
Proof.
  intros settings s0. split; [reflexivity|].
  intros events s Hrun.
  pose proof (run_flag sampleRuntime settings _ s0 s Hrun ltac:(left; left))
    as Hflag.
  destruct (run_stuck sampleRuntime settings _ s0 s eq_refl eq_refl Hrun)
    as (Hp & Ht & Hc).
  split; [exact Hflag|]. split; [exact Hp|]. split; [exact Ht|].
  rewrite Hc. reflexivity.
Qed.

(** C4, as the code has it: the concurrency is neither clamped nor
    rounded.  When the configured concurrency is a number [c > 0] and there
    is a candidate, [startTesting] starts at least one probe; throughout
    the run the probes in flight are at most the least integer that is not
    below [c], which is [c] when [c] is an integer and is more than [c],
    by less than one, otherwise; as long as the run has not reported its
    end a probe is in flight, so that it can go on; and it has reported its
    end when as many probes have resolved as there were candidates, which
    is the most that can resolve. *)
Theorem C4_workers_within_concurrency R settings shown configs0 c :
  concurrentTests settings = Num c → (0 < c)%Q →
  filter is_candidate shown ≠ [] →
  let s0 := startTesting settings shown configs0 in
  let n := Z.of_nat (length (filter is_candidate shown)) in
  1 ≤ running s0 ≤ Qceiling c
  ∧ (c <= inject_Z (Qceiling c))%Q ∧ (inject_Z (Qceiling c) < c + 1)%Q
  ∧ (∀ z : Z, (c == inject_Z z)%Q → Qceiling c = z)
  ∧ running s0 = Z.of_nat (length (pending s0))
  ∧ ∀ events s,
      run R settings events s0 = Some s →
      running s = Z.of_nat (length (pending s))
      ∧ running s ≤ Qceiling c
      ∧ (isTesting s = true → ∃ config, pending s !! 0%nat = Some config)
      ∧ resolutions events ≤ n
      ∧ (resolutions events = n → isTesting s = false).
Proof.
  intros Hc Hc1 Hne s0 n.
  assert (Hpos : num_lt (Int 0) (concurrentTests settings) = true).
  { rewrite Hc. now apply Qltb_lt. }
  destruct (startTesting_Bounded settings shown configs0 Hpos Hne)
    as (Hb0 & Hr0 & Ht0 & Hn0).
  rewrite Hc in Hb0. cbn [worker_bound] in Hb0.
  fold s0 in Hb0, Hr0, Ht0, Hn0. fold n in Ht0.
  pose proof (startTesting_Inv settings shown configs0) as Hi0. fold s0 in Hi0.
  split; [destruct Hb0 as ([_ ?] & _); lia|].
  split; [apply Qle_ceiling|].
  split; [pose proof (Qceiling_lt c) as Hlt; rewrite Z.sub_1_r in Hlt;
          unfold Z.pred in Hlt; rewrite inject_Z_plus in Hlt;
          change (inject_Z (-1)) with (-1)%Q in Hlt; lra|].
  split; [intros z Hz; rewrite Hz; apply Qceiling_Z|].
  split; [exact (proj1 Hi0)|].
  intros events s Hrun.
  destruct (run_Inv R settings events s0 s Hi0 Hrun) as (Ha & _).
  destruct (run_Bounded R settings _ events s0 s Hi0 Hb0 Hrun)
    as ((Hr & Ht & Hsum & Hgo) & Htot & Hcount).
  split; [exact Ha|]. split; [lia|]. split; [|split].
  - intros Htest. specialize (Hgo Htest).
    destruct (pending s) as [|config rest]; [cbn in Ha; lia|].
    exists config. reflexivity.
  - lia.
  - intros Hall. destruct (isTesting s) eqn:Htest; [|reflexivity].
    specialize (Hgo eq_refl). lia.
Qed.

Lemma C4_workers_within_concurrency_witness :
  let settings := sample_settings 3 in
  let s0 := startTesting settings (sample_shown 10) (sample_inventory 10) in
  1 ≤ running s0 ≤ 3
  ∧ ∀ events s, run sampleRuntime settings events s0 = Some s →
                running s ≤ 3 ∧ resolutions events ≤ 10
                ∧ (resolutions events = 10 → isTesting s = false).
Proof.
  intros settings s0.
  destruct (C4_workers_within_concurrency sampleRuntime settings (sample_shown 10)
              (sample_inventory 10) (inject_Z 3) eq_refl ltac:(reflexivity)
              ltac:(discriminate))
    as (H1 & _ & _ & _ & _ & H2).
  split; [exact H1|].
  intros events s Hrun. destruct (H2 events s Hrun) as (_ & Hle & _ & Hres & Hend).
  split; [exact Hle|]. split; [exact Hres | exact Hend].
Defined.

(** C4 as stated fails: nothing clamps the concurrency, and nothing rounds
    it.  The settings form stores [Number("0")]; with that value and three
    candidates [startTesting] marks the three records [Testing] and starts
    no probe, and from there the run never reports its end.  It stores
    [Number("2.5")] as well; with that value and ten candidates
    [startTesting] starts three probes, more than the configured
    concurrency. *)
Lemma C4_concurrency_is_not_clamped :
  (let settings :=
     handleInputChange sampleRuntime "concurrentTests" "0" (sample_settings 5) in
   let s0 := startTesting settings (sample_shown 3) (sample_inventory 3) in
   concurrentTests settings = Int 0
   ∧ length (filter is_candidate (sample_shown 3)) = 3%nat
   ∧ running s0 = 0 ∧ pending s0 = []
   ∧ status <$> configs s0 = [Testing; Testing; Testing]
   ∧ ∀ events s, run sampleRuntime settings events s0 = Some s →
                 isTesting s = true ∧ pending s = []
                 ∧ status <$> configs s = [Testing; Testing; Testing])
  ∧ (let settings := fractional_concurrency in
     let s0 := startTesting settings (sample_shown 10) (sample_inventory 10) in
     concurrentTests settings = Num (5 # 2)
     ∧ length (filter is_candidate (sample_shown 10)) = 10%nat
     ∧ running s0 = 3 ∧ length (pending s0) = 3%nat
     ∧ num_lt (concurrentTests settings) (Int (running s0)) = true).
Proof.
  split.
  - intros settings s0. do 5 (split; [reflexivity|]).
    intros events s Hrun.
    destruct (run_stuck sampleRuntime settings events s0 s eq_refl eq_refl Hrun)
      as (Hp & Ht & Hc).
    split; [exact Ht|]. split; [exact Hp|]. rewrite Hc. reflexivity.
  - vm_compute. repeat split; reflexivity.
Qed.

(** *** The history of a record *)

Lemma probe_id R tmo config dn c : id (probe R tmo config dn c) = id c.
Proof. reflexivity. Qed.

(** An unattended pass over records with distinct identifiers that tests
    every record merges, into each record, a probe started on that record
    as the pass found it. *)
Lemma autoTest_loop_distinct R settings done l ds :
  NoDup (id <$> done ++ l) → length ds = length l →
  autoTest_loop R settings l ds (done ++ l)
  = done ++ zip_with (λ c dn, probe R (timeout settings) c dn c) l ds.
Proof.
  revert done ds. induction l as [|config rest IH]; intros done ds Hnd Hlen.
  - destruct ds; [|discriminate]. reflexivity.
  - destruct ds as [|[d now] ds]; [discriminate|]. rewrite autoTest_loop_cons.
    cbn [zip_with].
    set (g := λ c, if bool_decide (id c = id config)
                   then applyResult c (testConfig R config (timeout settings) d) now
                   else c).
    rewrite fmap_app, NoDup_app in Hnd. destruct Hnd as (Hd & Hsep & Hl).
    rewrite fmap_cons, NoDup_cons in Hl. destruct Hl as [Hhead Hrest].
    assert (Hg1 : g <$> done = done).
    { rewrite <- (list_fmap_id done) at 2. apply list_fmap_ext.
      intros i c Hc. unfold g. rewrite bool_decide_eq_false_2; [reflexivity|].
      intros Heq. apply (Hsep (id c)).
      - apply list_elem_of_fmap_2. eapply list_elem_of_lookup_2, Hc.
      - rewrite Heq, fmap_cons. left. }
    assert (Hg2 : g <$> rest = rest).
    { rewrite <- (list_fmap_id rest) at 2. apply list_fmap_ext.
      intros i c Hc. unfold g. rewrite bool_decide_eq_false_2; [reflexivity|].
      intros Heq. apply Hhead. rewrite <- Heq.
      apply list_elem_of_fmap_2. eapply list_elem_of_lookup_2, Hc. }
    rewrite fmap_app, fmap_cons, Hg1, Hg2.
    unfold g at 1. rewrite bool_decide_eq_true_2 by reflexivity.
    change (applyResult config (testConfig R config (timeout settings) d) now)
      with (probe R (timeout settings) config (d, now) config).
    set (c' := probe R (timeout settings) config (d, now) config).
    rewrite (cons_middle c' done rest), app_assoc.
    rewrite IH.
    + now rewrite <- app_assoc.
    + rewrite <- app_assoc, fmap_app. cbn [app fmap list_fmap].
      apply NoDup_app. split; [exact Hd|]. split.
      * intros x Hx. specialize (Hsep x Hx). exact Hsep.
      * apply NoDup_cons. split; assumption.
    + cbn in Hlen. lia.
Qed.





(** * Further properties of the code *)

(** ** The rule engine, beyond the sentinel *)

Ltac wrong_field H :=
  let Hd := fresh in
  exfalso; pose proof (bool_decide_pack _ H) as Hd; vm_compute in Hd; exact Hd.

(** The value of a record under a field is a primitive unless the field is
    the name or the host and the record holds an array or an object
    there. *)
Lemma get_field_primitive c f : plain c → primitive (get_field c f).
Proof.
  intros [Hn Hh]. destruct f; cbn; try exact I; try assumption.
  destruct (group c); exact I.
Qed.

Lemma String__throws_object R v e :
  String_ R v = Throw e → e = TypeError ∧ ¬ primitive v.
Proof.
  intros H. split; [exact (String__throws R v e H)|].
  intros Hp. destruct (String__primitive R v Hp) as [s Hs]. congruence.
Qed.

(** A rule throws only a [TypeError], and only when the value of the
    record or the value of the rule is an array or an object. *)
Lemma evaluateRule_throws R c rule e :
  evaluateRule R c rule = Throw e →
  e = TypeError
  ∧ (¬ primitive (get_field c (field rule)) ∨ ¬ primitive (value rule)).
Proof.
  unfold evaluateRule.
  remember (get_field c (field rule)) as a eqn:Ea.
  remember (value rule) as b eqn:Eb.
  intros H.
  destruct a eqn:Ha; try discriminate; rewrite <- Ha in H.
  all: destruct (bool_decide (field rule ∈ numFields));
    [ destruct (Number R a) as [va|ea] eqn:HA; cbn in H;
      [ destruct (Number R b) as [vb|eb] eqn:HB; cbn in H;
        [ destruct (isNaN va || isNaN vb); discriminate
        | injection H as <-; apply Number_throws in HB as (-> & Hp & _); auto ]
      | injection H as <-; apply Number_throws in HA as (-> & Hp & _);
        rewrite Ha in Hp; auto ]
    | destruct (bool_decide (field rule ∈ strFields)); [|discriminate];
      destruct (String_ R a) as [sa|ea] eqn:HA; cbn in H;
      [ destruct (String_ R b) as [sb|eb] eqn:HB; cbn in H;
        [ discriminate
        | injection H as <-; apply String__throws_object in HB as [-> Hp]; auto ]
      | injection H as <-; apply String__throws_object in HA as [-> Hp];
        rewrite Ha in Hp; auto ] ].
Qed.

(** On primitives a rule returns. *)
Lemma evaluateRule_primitive R c rule :
  primitive (get_field c (field rule)) → primitive (value rule) →
  ∃ b, evaluateRule R c rule = Ok b.
Proof.
  intros Ha Hb. destruct (evaluateRule R c rule) as [b|e] eqn:H; [eauto|].
  apply evaluateRule_throws in H as (_ & [Hn|Hn]); contradiction.
Qed.

(** A rule whose operator does not fit the type of its field holds of no
    record: a text operator on [latency], [score] or [speed], an order
    operator on a text field.  The rule is false whenever the two values
    compared are primitives; when the name or the host of the record, or
    the value of the rule, is an array or an object, the conversion takes
    place before the operator is looked at and may throw a [TypeError]
    instead. *)
Theorem evaluateRule_operator_mismatch R c rule :
  (field rule ∈ numFields
   ∧ (operator rule = contains ∨ operator rule = not_contains))
  ∨ (field rule ∈ strFields
     ∧ (operator rule = greater_than ∨ operator rule = less_than)) →
  (evaluateRule R c rule = Ok false ∨ evaluateRule R c rule = Throw TypeError)
  ∧ (primitive (get_field c (field rule)) → primitive (value rule) →
     evaluateRule R c rule = Ok false)
  ∧ (evaluateRule R c rule = Throw TypeError →
     ¬ primitive (get_field c (field rule)) ∨ ¬ primitive (value rule)).
Proof.
  intros H.
  assert (Hnot : evaluateRule R c rule ≠ Ok true).
  { intros Htrue. unfold evaluateRule in Htrue.
    rewrite numFields_decide, strFields_decide in Htrue.
    remember (get_field c (field rule)) as a eqn:Ea.
    remember (value rule) as b eqn:Eb.
    destruct H as [[Hf [Ho|Ho]]|[Hf [Ho|Ho]]]; rewrite Ho in Htrue;
      destruct (field rule); try (wrong_field Hf);
      destruct a eqn:Ha; try discriminate; rewrite <- Ha in Htrue;
      repeat match type of Htrue with
             | context [Number R ?x] =>
                 destruct (Number R x); cbn -[Number String_] in Htrue;
                 try discriminate
             | context [String_ R ?x] =>
                 destruct (String_ R x); cbn -[Number String_] in Htrue;
                 try discriminate
             | context [isNaN ?x || isNaN ?y] =>
                 destruct (isNaN x || isNaN y); try discriminate
             end. }
  split; [|split].
  - destruct (evaluateRule R c rule) as [[]|e] eqn:He; [done | now left|].
    right. now destruct (evaluateRule_throws R c rule e He) as [-> _].
  - intros Ha Hb. destruct (evaluateRule_primitive R c rule Ha Hb) as [[] Hr];
      [contradiction | exact Hr].
  - intros He. exact (proj2 (evaluateRule_throws R c rule _ He)).
Qed.

Lemma evaluateRule_operator_mismatch_witness :
  evaluateRule sampleRuntime (new_config sampleRuntime 0 "ss://x")
    {| rule_id := "r"; field := f_latency; operator := contains;
       value := JStr "1" |} = Ok false.
Proof.
  destruct (evaluateRule_operator_mismatch sampleRuntime
              (new_config sampleRuntime 0 "ss://x")
              {| rule_id := "r"; field := f_latency; operator := contains;
                 value := JStr "1" |}) as (_ & H & _).
  - left. split; [|now left]. apply (bool_decide_unpack _). reflexivity.
  - apply H; exact I.
Defined.

(** A record whose value for the field of a rule is [undefined] or [null]
    fails the rule whatever its operator, the negated ones included: a record
    without a group fails every rule on [group], and a record whose host is
    [undefined] fails every rule on [host]. *)
Theorem evaluateRule_absent_value R c rule :
  (field rule = f_group ∧ group c = None)
  ∨ (field rule = f_host ∧ (host c = JUndefined ∨ host c = JNull))
  ∨ (field rule = f_name ∧ (name c = JUndefined ∨ name c = JNull)) →
  evaluateRule R c rule = Ok false.
Proof.
  intros [[Hf Hg]|[[Hf [Hh|Hh]]|[Hf [Hn|Hn]]]]; unfold evaluateRule;
    rewrite Hf; cbn; rewrite ?Hg, ?Hh, ?Hn; reflexivity.
Qed.

Lemma evaluateRule_absent_value_witness :
  evaluateRule sampleRuntime (new_config sampleRuntime 0 "ss://x")
    {| rule_id := "r"; field := f_group; operator := not_contains;
       value := JStr "work" |} = Ok false.
Proof. apply evaluateRule_absent_value. left. split; reflexivity. Defined.

(** On a numeric field a rule whose value does not convert to a number
    holds of no record, [not_equals] included. *)
Theorem evaluateRule_value_not_a_number R c rule :
  field rule ∈ numFields → Number R (value rule) = Ok NaN →
  evaluateRule R c rule = Ok false.
Proof.
  intros Hf Hv. unfold evaluateRule. rewrite numFields_decide.
  destruct (field rule); try (wrong_field Hf); cbn; rewrite Hv; reflexivity.
Qed.

Lemma evaluateRule_value_not_a_number_witness :
  evaluateRule sampleRuntime (new_config sampleRuntime 0 "ss://x")
    {| rule_id := "r"; field := f_score; operator := not_equals;
       value := JStr "fast" |} = Ok false.
Proof.
  apply evaluateRule_value_not_a_number; [|reflexivity].
  apply (bool_decide_unpack _). reflexivity.
Defined.

(** Of two numbers that are not [NaN] exactly one of [<], [===] and [>]
    holds. *)
Lemma num_trichotomy a b :
  isNaN a = false → isNaN b = false →
  (num_lt a b = true ∧ num_eq a b = false ∧ num_lt b a = false)
  ∨ (num_lt a b = false ∧ num_eq a b = true ∧ num_lt b a = false)
  ∨ (num_lt a b = false ∧ num_eq a b = false ∧ num_lt b a = true).
Proof.
  destruct a as [|x| |], b as [|y| |]; cbn; try discriminate; intros _ _;
    auto 7.
  destruct (Qlt_le_dec x y) as [Hlt|Hle].
  - left. rewrite (proj2 (Qltb_lt x y) Hlt).
    split; [reflexivity|]. split.
    + apply not_true_is_false. intros H. apply Qeq_bool_iff in H. lra.
    + apply Qltb_ge. lra.
  - destruct (Qlt_le_dec y x) as [Hlt|Hle'].
    + right. right. rewrite (proj2 (Qltb_lt y x) Hlt).
      split; [apply Qltb_ge; lra|]. split; [|reflexivity].
      apply not_true_is_false. intros H. apply Qeq_bool_iff in H. lra.
    + right. left. split; [apply Qltb_ge; lra|].
      split; [apply Qeq_bool_iff; lra | apply Qltb_ge; lra].
Qed.

(** On a numeric field with a numeric value exactly one of [less_than],
    [equals] and [greater_than] holds, and [not_equals] is the negation of
    [equals]. *)
Theorem evaluateRule_numeric_trichotomy R c rule v :
  field rule ∈ numFields → Number R (value rule) = Ok v → isNaN v = false →
  let holds op := evaluateRule R c (with_operator op rule) in
  ∃ lt eq gt,
    holds less_than = Ok lt ∧ holds equals = Ok eq ∧ holds greater_than = Ok gt
    ∧ holds not_equals = Ok (negb eq)
    ∧ ((lt = true ∧ eq = false ∧ gt = false)
       ∨ (lt = false ∧ eq = true ∧ gt = false)
       ∨ (lt = false ∧ eq = false ∧ gt = true)).
Proof.
  intros Hf Hv Hnan holds. subst holds. unfold evaluateRule, with_operator.
  cbn [field operator value]. rewrite numFields_decide.
  destruct (field rule); try (wrong_field Hf);
    cbn -[num_lt num_eq Int isNaN];
    rewrite Hv; cbn -[num_lt num_eq Int isNaN]; rewrite isNaN_Int, Hnan;
    cbn -[num_lt num_eq Int];
    match goal with
    | |- context [num_lt ?a v] =>
        exists (num_lt a v), (num_eq a v), (num_lt v a);
        do 4 (split; [reflexivity|]);
        apply (num_trichotomy a v); [reflexivity | exact Hnan]
    end.
Qed.

Lemma evaluateRule_numeric_trichotomy_witness :
  let c := new_config sampleRuntime 0 "ss://x" in
  let holds op := evaluateRule sampleRuntime c (with_operator op (newRule "r")) in
  ∃ lt eq gt,
    holds less_than = Ok lt ∧ holds equals = Ok eq ∧ holds greater_than = Ok gt
    ∧ holds not_equals = Ok (negb eq)
    ∧ ((lt = true ∧ eq = false ∧ gt = false)
       ∨ (lt = false ∧ eq = true ∧ gt = false)
       ∨ (lt = false ∧ eq = false ∧ gt = true)).
Proof.
  intros c.
  assert (Hf : field (newRule "r") ∈ numFields)
    by (apply (bool_decide_unpack _); reflexivity).
  exact (evaluateRule_numeric_trichotomy sampleRuntime c (newRule "r") (Int 300)
           Hf eq_refl eq_refl).
Defined.

(** When the classification returns, it keeps the records and their order,
    and lists for each record exactly the names of the groups all of whose
    rules hold of it; a group without rules lists every record.  It
    returns whenever the names and hosts of the records and the values of
    the rules are primitives; when it throws, a rule has thrown on a
    record, a [TypeError], and no record is listed. *)
Theorem configsWithSmartGroups_membership R groups inventory :
  (∀ out, configsWithSmartGroups R groups inventory = Ok out →
     cfg <$> out = inventory
     ∧ ∀ cw, cw ∈ out →
         (∀ n, n ∈ smartGroups cw ↔
               ∃ sg, sg ∈ groups ∧ sg_name sg = n
                     ∧ Forall (λ r, evaluateRule R (cfg cw) r = Ok true)
                              (rules sg))
         ∧ (∀ sg, sg ∈ groups → rules sg = [] → sg_name sg ∈ smartGroups cw))
  ∧ (Forall plain inventory →
     Forall (λ sg, Forall plain_rule (rules sg)) groups →
     ∃ out, configsWithSmartGroups R groups inventory = Ok out)
  ∧ (∀ e, configsWithSmartGroups R groups inventory = Throw e →
          e = TypeError
          ∧ ∃ c sg r, c ∈ inventory ∧ sg ∈ groups ∧ r ∈ rules sg
                      ∧ evaluateRule R c r = Throw TypeError).
Proof.
  split; [|split].
  - intros out Hout. unfold configsWithSmartGroups in Hout.
    apply map_res_Ok in Hout.
    split.
    + induction Hout as [|c cw l out Hc _ IH]; [reflexivity|].
      cbn. rewrite IH. now destruct (classify_Ok _ _ _ _ Hc) as [-> _].
    + intros cw Hcw.
      assert (Hc : ∃ c, classify R groups c = Ok cw).
      { clear -Hout Hcw. induction Hout as [|c cw' l out Hc _ IH];
          [now apply elem_of_nil in Hcw|].
        apply elem_of_cons in Hcw as [->|Hcw]; eauto. }
      destruct Hc as [c Hc].
      assert (Hcfg : cfg cw = c) by apply (classify_Ok _ _ _ _ Hc).
      rewrite Hcfg. split.
      * intros n. apply (classify_member _ _ _ _ _ Hc).
      * intros sg Hin Hnil. apply (classify_member _ _ _ _ _ Hc).
        exists sg. split; [exact Hin|]. split; [reflexivity|].
        rewrite Hnil. constructor.
  - intros Hinv Hgroups. unfold configsWithSmartGroups.
    apply map_res_total. eapply Forall_impl; [exact Hinv|].
    intros c Hc. unfold classify.
    destruct (filter_result_total (matches R c) groups) as [m Hm].
    + eapply Forall_impl; [exact Hgroups|]. intros sg Hsg.
      unfold matches. apply every_result_total.
      eapply Forall_impl; [exact Hsg|]. intros r Hr.
      apply evaluateRule_primitive; [now apply get_field_primitive | exact Hr].
    + rewrite Hm. cbn. eauto.
  - intros e He. unfold configsWithSmartGroups in He.
    apply map_res_throws in He as (c & Hc & He). unfold classify in He.
    destruct (filter_result (matches R c) groups) as [m|e'] eqn:Hm;
      cbn in He; [discriminate|]. injection He as ->.
    apply filter_result_throws in Hm as (sg & Hsg & Hm).
    apply every_result_Throw in Hm as (r & Hr & Hm).
    destruct (evaluateRule_throws R c r e Hm) as [-> _].
    split; [reflexivity|]. exists c, sg, r. auto.
Qed.

(** A vmess link whose [ps] is an object with a key [toString] of its own
    gives a record with that object as its name; a rule on the name, with
    an operator that does not fit, throws on it, and so does the
    classification with a group that has this rule. *)
Lemma classification_throws_on_a_name_object :
  let rule := {| rule_id := "r"; field := f_name; operator := less_than;
                 value := JStr "x" |} in
  let sg := {| sg_id := "g"; sg_name := "G"; sg_color := "#000000";
               rules := [rule] |} in
  ∃ c, addProcessedConfigs sampleRuntime 0 [] []
         ["vmess://eyJwcyI6eyJ0b1N0cmluZyI6MX19"] = Ok ([c], 1%nat)
       ∧ name c = JObj [("toString", JNum (Int 1))]
       ∧ evaluateRule sampleRuntime c rule = Throw TypeError
       ∧ configsWithSmartGroups sampleRuntime [sg] [c] = Throw TypeError.
Proof. eexists. repeat split. Qed.

(** ** The view *)

Lemma List_filter_stdpp {A} (f : A → bool) l :
  List.filter f l = filter (λ x, f x = true) l.
Proof.
  induction l as [|x l IH]; [reflexivity|]. cbn [List.filter].
  rewrite filter_cons, IH.
  destruct (f x); [rewrite decide_True by done | rewrite decide_False by done];
    reflexivity.
Qed.

(** The stages of the pipeline. *)
Lemma filteredAndSortedConfigs_Ok R groups fl sortConfig inventory out :
  filteredAndSortedConfigs R groups fl sortConfig inventory = Ok out →
  ∃ all l4,
    configsWithSmartGroups R groups inventory = Ok all
    ∧ l4 = filter (λ cw, search_pass fl cw = Ok true)
             (filter (λ cw, group_pass fl cw = true)
                (filter (λ cw, protocol_pass fl cw = true)
                   (filter (λ cw, status_pass fl cw = true) all)))
    ∧ sort_by (compareConfigs R sortConfig) l4 = Ok out.
Proof.
  unfold filteredAndSortedConfigs. intros H.
  destruct (configsWithSmartGroups R groups inventory) as [all|e]; cbn in H;
    [|discriminate].
  rewrite !List_filter_stdpp in H.
  destruct (filter_result (search_pass fl) _) as [l4|e] eqn:H4; cbn in H;
    [|discriminate].
  apply filter_result_Ok in H4 as [_ ->]. eauto.
Qed.

(** The view is made of records of the inventory, each at most as often as
    the inventory has it, and it holds exactly those that pass the four
    filters. *)
Theorem filteredAndSortedConfigs_sound R groups fl sortConfig inventory out :
  filteredAndSortedConfigs R groups fl sortConfig inventory = Ok out →
  ∃ all,
    configsWithSmartGroups R groups inventory = Ok all
    ∧ out ⊆+ all
    ∧ ∀ cw, cw ∈ out ↔
            cw ∈ all
            ∧ status_pass fl cw = true ∧ protocol_pass fl cw = true
            ∧ group_pass fl cw = true ∧ search_pass fl cw = Ok true.
Proof.
  intros H.
  apply filteredAndSortedConfigs_Ok in H as (all & l4 & Hall & -> & Hsort).
  exists all. split; [exact Hall|].
  pose proof (sort_by_Permutation _ _ _ Hsort) as Hperm. split.
  - rewrite Hperm. apply sublist_submseteq.
    repeat (etransitivity; [apply sublist_filter|]). reflexivity.
  - intros cw. rewrite Hperm, !list_elem_of_filter. tauto.
Qed.

Lemma filteredAndSortedConfigs_sound_witness :
  let inventory := sample_inventory 3 in
  let sortConfig := {| key := k_name; direction := asc |} in
  ∃ out all,
    filteredAndSortedConfigs sampleRuntime [] no_filters sortConfig inventory
    = Ok out
    ∧ length out = 3%nat
    ∧ configsWithSmartGroups sampleRuntime [] inventory = Ok all
    ∧ out ⊆+ all.
Proof.
  intros inventory sortConfig.
  destruct (filteredAndSortedConfigs sampleRuntime [] no_filters sortConfig
              inventory) as [out|e] eqn:Hout;
    [|vm_compute in Hout; discriminate].
  destruct (filteredAndSortedConfigs_sound sampleRuntime [] no_filters
              sortConfig inventory out Hout) as (all & Hall & Hsub & _).
  exists out, all. split; [reflexivity|].
  split; [vm_compute in Hout; injection Hout as <-; reflexivity|].
  split; [exact Hall | exact Hsub].
Defined.

(** A record whose host is not a string (a vmess link without [add] gives
    such a record) breaks the view as soon as a search term is typed that its
    name does not contain: [c.host.toLowerCase()] throws and the whole
    pipeline with it. *)
Theorem filteredAndSortedConfigs_search_throws
    R groups fl sortConfig inventory all cw nm :
  configsWithSmartGroups R groups inventory = Ok all →
  cw ∈ all →
  status_pass fl cw = true → protocol_pass fl cw = true →
  group_pass fl cw = true →
  name (cfg cw) = JStr nm →
  includes (toLowerCase nm) (toLowerCase (searchTerm fl)) = false →
  (∀ s, host (cfg cw) ≠ JStr s) →
  filteredAndSortedConfigs R groups fl sortConfig inventory = Throw TypeError.
Proof.
  intros Hall Hin Hs Hp Hg Hn Hinc Hh.
  unfold filteredAndSortedConfigs. rewrite Hall. cbn.
  rewrite !List_filter_stdpp.
  rewrite (filter_result_Throw (search_pass fl) _ cw TypeError); [reflexivity| | |].
  - rewrite !list_elem_of_filter. tauto.
  - unfold search_pass. rewrite Hn. cbn. rewrite Hinc.
    destruct (host (cfg cw)); try reflexivity. now destruct (Hh s).
  - intros y e' Hy. unfold search_pass, toLowerCase_of in Hy.
    destruct (name (cfg y)); cbn in Hy; try (injection Hy as <-; reflexivity).
    match type of Hy with
    | context [if ?b then _ else _] => destruct b
    end; cbn in Hy; [discriminate Hy|].
    destruct (host (cfg y)); cbn in Hy;
      try (injection Hy as <-; reflexivity); discriminate Hy.
Qed.

Lemma filteredAndSortedConfigs_search_throws_witness :
  ∃ c, addProcessedConfigs sampleRuntime 0 [] [] ["vmess://e30="] = Ok ([c], 1%nat)
       ∧ filteredAndSortedConfigs sampleRuntime []
           {| statusFilter := None; protocolFilter := None;
              groupFilter := "All"; searchTerm := "node" |}
           {| key := k_latency; direction := asc |} [c]
         = Throw TypeError.
Proof.
  eexists. split; [reflexivity|].
  eapply (filteredAndSortedConfigs_search_throws sampleRuntime [] _ _ _ _
            {| cfg := _; smartGroups := [] |} "Vmess Config");
    [reflexivity | left | reflexivity | reflexivity | reflexivity | reflexivity
    | reflexivity | discriminate].
Defined.

Lemma num_lt_irrefl n : num_lt n n = false.
Proof. destruct n; cbn; try reflexivity. apply Qltb_ge. lra. Qed.

Lemma prim_lt_irrefl R p b : prim_lt R p p = Ok b → b = false.
Proof.
  assert (Hs : ∀ s, string_lt s s = false).
  { intros s. unfold string_lt. pose proof (String.compare_antisym s s) as Ha.
    destruct (String.compare s s); [reflexivity | discriminate | reflexivity]. }
  unfold prim_lt.
  destruct p; try (intros [= <-]; apply Hs);
    match goal with
    | |- context [Number R ?x] =>
        destruct (Number R x) as [nx|e]; cbn; [|discriminate];
        intros [= <-]; apply num_lt_irrefl
    end.
Qed.

Lemma js_lt_irrefl R v b : js_lt R v v = Ok b → b = false.
Proof.
  unfold js_lt. destruct (ToPrimitive R v) as [p|e]; cbn; [|discriminate].
  apply prim_lt_irrefl.
Qed.

Lemma js_gt_irrefl R v b : js_gt R v v = Ok b → b = false.
Proof.
  unfold js_gt. destruct (ToPrimitive R v) as [p|e]; cbn; [|discriminate].
  apply prim_lt_irrefl.
Qed.

(** Two records with the same value under the sort key compare as equal,
    when the comparison returns. *)
Lemma compareConfigs_equal_keys R sortConfig a b c :
  sort_value (key sortConfig) a = sort_value (key sortConfig) b →
  compareConfigs R sortConfig a b = Ok c → c = 0.
Proof.
  intros Heq. unfold compareConfigs. rewrite Heq.
  destruct (js_lt R _ _) as [lt|e] eqn:Hlt; cbn; [|discriminate].
  rewrite (js_lt_irrefl _ _ _ Hlt).
  destruct (js_gt R _ _) as [gt|e] eqn:Hgt; cbn; [|discriminate].
  rewrite (js_gt_irrefl _ _ _ Hgt). now intros [= <-].
Qed.

(** On primitives the comparison returns. *)
Lemma prim_lt_total R pa pb :
  primitive pa → primitive pb → ∃ b, prim_lt R pa pb = Ok b.
Proof.
  intros Ha Hb. unfold prim_lt.
  destruct (Number_primitive R pa Ha) as [na Hna].
  destruct (Number_primitive R pb Hb) as [nb Hnb].
  destruct pa, pb; try contradiction; rewrite ?Hna, ?Hnb; cbn; eauto.
Qed.

Lemma compareConfigs_total R sortConfig a b :
  primitive (sort_value (key sortConfig) a) →
  primitive (sort_value (key sortConfig) b) →
  ∃ c, compareConfigs R sortConfig a b = Ok c.
Proof.
  intros Ha Hb. unfold compareConfigs, js_lt, js_gt.
  rewrite !(ToPrimitive_of_primitive R _ Ha), !(ToPrimitive_of_primitive R _ Hb).
  cbn.
  destruct (prim_lt_total R _ _ Ha Hb) as [lt ->]. cbn.
  destruct lt; [eauto|].
  destruct (prim_lt_total R _ _ Hb Ha) as [gt ->]. cbn.
  destruct gt; eauto.
Qed.

Lemma insert_by_filter {A} (P : A → Prop) `{∀ a, Decision (P a)} cmp x l r :
  (∀ y c, P x → P y → cmp x y = Ok c → c ≤ 0) →
  insert_by cmp x l = Ok r →
  filter P r = filter P (x :: l).
Proof.
  intros Hle. revert r. induction l as [|y l IH]; intros r Hr; cbn in Hr.
  - now injection Hr as <-.
  - destruct (cmp x y) as [c|e] eqn:Hcmp; cbn in Hr; [|discriminate].
    destruct (0 <? c) eqn:Hc; [|now injection Hr as <-].
    destruct (insert_by cmp x l) as [r'|e]; cbn in Hr; [|discriminate].
    injection Hr as <-.
    rewrite (filter_cons _ y), (IH r' eq_refl), !filter_cons.
    destruct (decide (P x)) as [Hx|Hx], (decide (P y)) as [Hy|Hy];
      try reflexivity.
    specialize (Hle y c Hx Hy Hcmp). lia.
Qed.

Lemma sort_by_filter {A} (P : A → Prop) `{∀ a, Decision (P a)} cmp l r :
  (∀ x y c, P x → P y → cmp x y = Ok c → c ≤ 0) →
  sort_by cmp l = Ok r →
  filter P r = filter P l.
Proof.
  intros Hle. revert r. induction l as [|x l IH]; intros r Hr; cbn in Hr.
  - now injection Hr as <-.
  - destruct (sort_by cmp l) as [r'|e]; cbn in Hr; [|discriminate].
    rewrite (insert_by_filter P cmp x r' r) by (try exact Hr; intros y; apply Hle).
    rewrite !filter_cons, (IH r' eq_refl). reflexivity.
Qed.

(** The sort is stable for every key and both directions: records whose
    values under the sort key are equal keep the order they had.  The sort
    returns whenever the values under the sort key are primitives. *)
Theorem sort_keeps_order_of_equals R sortConfig
    (P : ConfigWithGroups → Prop) `{∀ a, Decision (P a)} l :
  (∀ a b, P a → P b →
          sort_value (key sortConfig) a = sort_value (key sortConfig) b) →
  (∀ out, sort_by (compareConfigs R sortConfig) l = Ok out →
          filter P out = filter P l)
  ∧ ((∀ a, a ∈ l → primitive (sort_value (key sortConfig) a)) →
     ∃ out, sort_by (compareConfigs R sortConfig) l = Ok out).
Proof.
  intros Heq. split.
  - intros out Hout.
    apply (sort_by_filter P (compareConfigs R sortConfig) l out); [|exact Hout].
    intros a b c Ha Hb Hc.
    rewrite (compareConfigs_equal_keys R sortConfig a b c (Heq a b Ha Hb) Hc).
    lia.
  - intros Hprim. apply sort_by_total. intros a b Ha Hb.
    apply compareConfigs_total; auto.
Qed.

Lemma sort_keeps_order_of_equals_witness :
  let fresh := new_config sampleRuntime 1 "ss://b" in
  let tested :=
    probe sampleRuntime (Int 3000) fresh (draws_of (1 # 40), "t1") fresh in
  let l := ungrouped [new_config sampleRuntime 0 "ss://a"; tested;
                      new_config sampleRuntime 2 "ss://c"] in
  ∃ out, sort_by (compareConfigs sampleRuntime
                    {| key := k_latency; direction := asc |}) l = Ok out
         ∧ (λ a, id (cfg a)) <$> filter (λ a, latency (cfg a) = -1) out
           = ["id-0"; "id-2"].
Proof.
  intros fresh tested l.
  destruct (sort_keeps_order_of_equals sampleRuntime
              {| key := k_latency; direction := asc |}
              (λ a, latency (cfg a) = -1) l) as [Hstable Htotal].
  - intros a b Ha Hb. cbn. rewrite Ha, Hb. reflexivity.
  - destruct Htotal as [out Hout].
    + intros a _. cbn. case_bool_decide; exact I.
    + exists out. split; [exact Hout|]. rewrite (Hstable out Hout). reflexivity.
Defined.

(** ** Sharing, pasting and the best record *)

Lemma Forall_filter_keep {A} (P Q : A → Prop) `{∀ a, Decision (Q a)} l :
  Forall P l → Forall P (filter Q l).
Proof.
  rewrite !Forall_forall. intros Hall x Hx.
  apply list_elem_of_filter in Hx as [_ Hx]. now apply Hall.
Qed.

Lemma split_lines_no_newline s : no_newline s → split_lines s = [s].
Proof.
  induction s as [|c s IH]; cbn; [reflexivity|]. intros [Hc Hs].
  destruct (Ascii.eqb_spec c newline); [contradiction|]. now rewrite IH.
Qed.

Lemma split_lines_app a s :
  no_newline a → split_lines (a +:+ String newline s) = a :: split_lines s.
Proof.
  induction a as [|c a IH]; cbn [no_newline].
  - intros _. reflexivity.
  - intros [Hc Ha].
    change (split_lines (String c a +:+ String newline s))
      with (if Ascii.eqb c newline
            then EmptyString :: split_lines (a +:+ String newline s)
            else match split_lines (a +:+ String newline s) with
                 | [] => [String c EmptyString]
                 | line :: lines => String c line :: lines
                 end).
    destruct (Ascii.eqb_spec c newline); [contradiction|]. now rewrite IH.
Qed.

Lemma join_lines_cons a b l :
  join_lines (a :: b :: l) = a +:+ String newline (join_lines (b :: l)).
Proof. reflexivity. Qed.

Lemma split_join l :
  l ≠ [] → Forall no_newline l → split_lines (join_lines l) = l.
Proof.
  intros Hne Hall. induction Hall as [|a l Ha Hall IH]; [done|].
  destruct l as [|b l].
  - now apply split_lines_no_newline.
  - rewrite join_lines_cons, split_lines_app by exact Ha. f_equal.
    now apply IH.
Qed.

Lemma join_lines_empty l :
  join_lines l = EmptyString → l = [] ∨ l = [EmptyString].
Proof.
  destruct l as [|a [|b l]]; cbn; [auto | intros ->; auto |].
  destruct a; cbn; discriminate.
Qed.

Lemma handleShareSelected_Some sel configs text :
  handleShareSelected sel configs = Some text →
  text = join_lines (selected_raws sel configs) ∧ selected_raws sel configs ≠ [].
Proof.
  unfold handleShareSelected. fold (selected_raws sel configs).
  destruct (String.eqb_spec (join_lines (selected_raws sel configs)) EmptyString)
    as [|Hne]; [discriminate|].
  intros [= <-]. split; [reflexivity|]. intros Hnil. apply Hne.
  now rewrite Hnil.
Qed.

(** Pasting what "share selected" copied into the paste box of the same
    inventory adds no record. *)
Theorem share_then_paste_adds_nothing R k sel configs text :
  Forall (λ c, no_newline (rawConfig c)) configs →
  handleShareSelected sel configs = Some text →
  processInputs R k configs text = Ok (configs, 0%nat).
Proof.
  intros Hnl Hshare. apply handleShareSelected_Some in Hshare as [-> Hne].
  unfold processInputs. rewrite split_join; [|exact Hne|].
  - rewrite addProcessedConfigs_ok.
    assert (Hnone : filter (is_new (list_to_set (rawConfig <$> configs)))
                      (selected_raws sel configs) = []).
    { destruct (filter _ (selected_raws sel configs)) as [|raw rest] eqn:Hf;
        [done|exfalso].
      assert (Hin : raw ∈ filter (is_new (list_to_set (rawConfig <$> configs)))
                            (selected_raws sel configs)) by (rewrite Hf; left).
      apply list_elem_of_filter in Hin as [[_ Hnew] Hin]. apply Hnew.
      apply elem_of_list_to_set. unfold selected_raws in Hin.
      apply list_elem_of_fmap in Hin as (c & -> & Hc).
      apply list_elem_of_filter in Hc as [_ Hc]. now apply list_elem_of_fmap_2. }
    rewrite Hnone. cbn. now rewrite app_nil_r.
  - unfold selected_raws. apply Forall_fmap.
    eapply Forall_impl; [apply Forall_filter_keep, Hnl|]. auto.
Qed.

Lemma share_then_paste_adds_nothing_witness :
  let configs := sample_inventory 3 in
  ∃ text, handleShareSelected {["id-0"; "id-2"]} configs = Some text
          ∧ processInputs sampleRuntime 3 configs text = Ok (configs, 0%nat).
Proof.
  intros configs. eexists. split; [reflexivity|].
  apply (share_then_paste_adds_nothing sampleRuntime 3 {["id-0"; "id-2"]} configs);
    [|reflexivity].
  repeat constructor; vm_compute; intuition discriminate.
Defined.

(** Pasted into an empty inventory, the shared text gives one record for
    every shared record that is not blank, in the same order. *)
Theorem share_then_paste_elsewhere R k sel configs text inventory n :
  Forall (λ c, no_newline (rawConfig c)) configs →
  handleShareSelected sel configs = Some text →
  processInputs R k [] text = Ok (inventory, n) →
  rawConfig <$> inventory
  = filter (λ raw, trim raw ≠ EmptyString) (selected_raws sel configs)
  ∧ n = length inventory.
Proof.
  intros Hnl Hshare. apply handleShareSelected_Some in Hshare as [-> Hne].
  unfold processInputs. rewrite split_join; [|exact Hne|].
  - rewrite addProcessedConfigs_ok. intros [= <- <-]. cbn [app].
    rewrite made_rawConfig, made_length. split; [|reflexivity].
    apply list_filter_iff. intros raw. unfold is_new. cbn.
    split; [tauto|]. intros Ht. split; [exact Ht | apply not_elem_of_empty].
  - unfold selected_raws. apply Forall_fmap.
    eapply Forall_impl; [apply Forall_filter_keep, Hnl|]. auto.
Qed.

Lemma share_then_paste_elsewhere_witness :
  ∃ text inventory,
    handleShareSelected {["id-0"; "id-2"]} (sample_inventory 3) = Some text
    ∧ processInputs sampleRuntime 0 [] text = Ok (inventory, 2%nat)
    ∧ rawConfig <$> inventory = [sample_raw 0; sample_raw 2].
Proof.
  do 2 eexists. split; [reflexivity|]. split; [reflexivity|].
  refine (proj1 (share_then_paste_elsewhere sampleRuntime 0 {["id-0"; "id-2"]}
                   (sample_inventory 3) _ _ 2%nat _ eq_refl eq_refl)).
  repeat constructor; vm_compute; intuition discriminate.
Defined.

Lemma foldl_better a l :
  let b := foldl better a l in
  b ∈ a :: l ∧ latency b ≤ latency a ∧ ∀ c, c ∈ l → latency b ≤ latency c.
Proof.
  revert a. induction l as [|x l IH]; intros a; cbn.
  - split; [left|]. split; [lia|]. intros c Hc. now apply elem_of_nil in Hc.
  - destruct (IH (better a x)) as (Hin & Hle & Hall).
    assert (Hb : better a x ∈ [a; x] ∧ latency (better a x) ≤ latency a
                 ∧ latency (better a x) ≤ latency x).
    { unfold better. case_bool_decide; (split; [repeat constructor | lia]). }
    destruct Hb as (Hb1 & Hb2 & Hb3). split; [|split].
    + apply elem_of_cons in Hin as [->|Hin]; [|now do 2 right].
      apply elem_of_cons in Hb1 as [->|Hb1]; [left|].
      apply list_elem_of_singleton in Hb1 as ->. right. left.
    + lia.
    + intros c Hc. apply elem_of_cons in Hc as [->|Hc]; [lia|]. now apply Hall.
Qed.

(** "Copy best" takes a record that is Active or Slow with a latency above
    the sentinel and that no other such record beats; it alerts exactly when
    there is no such record.  An untested, failed or testing record is never
    copied. *)
Theorem bestConfig_is_fastest configs :
  match bestConfig configs with
  | Some best =>
      best ∈ configs ∧ is_working best
      ∧ handleCopyBest configs = Some (rawConfig best)
      ∧ ∀ c, c ∈ configs → is_working c → latency best ≤ latency c
  | None => handleCopyBest configs = None ∧ ∀ c, c ∈ configs → ¬ is_working c
  end.
Proof.
  unfold handleCopyBest, bestConfig.
  destruct (filter is_working configs) as [|first rest] eqn:Hf.
  - split; [reflexivity|]. intros c Hc Hw.
    assert (H : c ∈ filter is_working configs)
      by (apply list_elem_of_filter; auto).
    rewrite Hf in H. now apply elem_of_nil in H.
  - destruct (foldl_better first rest) as (Hin & Hle & Hall).
    rewrite <- Hf in Hin. apply list_elem_of_filter in Hin as [Hw Hin].
    split; [exact Hin|]. split; [exact Hw|]. split; [reflexivity|].
    intros c Hc Hcw.
    assert (H : c ∈ filter is_working configs)
      by (apply list_elem_of_filter; auto).
    rewrite Hf in H. apply elem_of_cons in H as [->|H]; [exact Hle|].
    now apply Hall.
Qed.

(** ** Groups and the selection *)

(** After "set group" with a name, the group filter of that name shows every
    selected record, whatever the smart groups are; with the empty answer the
    selected records lose their group and the [none] filter shows them.  The
    records that are not selected are left as they were, and a cancelled
    prompt changes nothing. *)
Theorem handleSetGroup_then_filter R groups groupName sel configs fl :
  groupName ≠ "All" → groupName ≠ "none" →
  groupFilter fl = (if String.eqb groupName EmptyString then "none" else groupName) →
  let configs' := handleSetGroup (Some groupName) sel configs in
  (∀ all cw, configsWithSmartGroups R groups configs' = Ok all → cw ∈ all →
             id (cfg cw) ∈ sel → group_pass fl cw = true)
  ∧ (∀ i c, configs !! i = Some c → id c ∉ sel → configs' !! i = Some c)
  ∧ id <$> configs' = id <$> configs
  ∧ handleSetGroup None sel configs = configs.
Proof.
  intros Hall Hnone Hfl configs'. subst configs'. split; [|split; [|split]].
  - intros all cw Hok Hcw Hsel.
    apply configsWithSmartGroups_cfg in Hok.
    assert (Hc' : cfg cw ∈ handleSetGroup (Some groupName) sel configs)
      by (rewrite <- Hok; now apply list_elem_of_fmap_2).
    unfold handleSetGroup in Hc'.
    apply list_elem_of_fmap in Hc' as (c & Hcw' & _).
    unfold group_pass. rewrite Hcw' in Hsel |- *. rewrite Hfl.
    destruct (decide (id c ∈ sel)) as [Hin|Hin].
    + rewrite (bool_decide_eq_true_2 _ Hin).
      destruct (String.eqb_spec groupName EmptyString) as [->|Hne]; cbn.
      * reflexivity.
      * destruct (String.eqb_spec groupName "All"); [done|].
        destruct (String.eqb_spec groupName "none"); [done|].
        now rewrite bool_decide_eq_true_2.
    + rewrite (bool_decide_eq_false_2 _ Hin) in Hsel. contradiction.
  - intros i c Hi Hsel. cbn. rewrite list_lookup_fmap, Hi. cbn.
    now rewrite bool_decide_eq_false_2.
  - cbn. rewrite <- list_fmap_compose. apply list_fmap_ext.
    intros i c _. cbn. case_bool_decide; reflexivity.
  - reflexivity.
Qed.

Lemma handleSetGroup_then_filter_witness :
  let configs' := handleSetGroup (Some "work") {["id-1"]} (sample_inventory 3) in
  let fl := {| statusFilter := None; protocolFilter := None;
               groupFilter := "work"; searchTerm := EmptyString |} in
  (∀ all cw, configsWithSmartGroups sampleRuntime [] configs' = Ok all →
             cw ∈ all →
             id (cfg cw) ∈ ({["id-1"]} : gset string) → group_pass fl cw = true)
  ∧ configsWithSmartGroups sampleRuntime [] configs' = Ok (ungrouped configs')
  ∧ group <$> configs' = [None; Some "work"; None].
Proof.
  intros configs' fl. split; [|split; reflexivity].
  apply (handleSetGroup_then_filter sampleRuntime [] "work" {["id-1"]}
           (sample_inventory 3) fl); [discriminate | discriminate | reflexivity].
Defined.

Lemma length_filter_all {A} (P : A → Prop) `{∀ a, Decision (P a)} l :
  length (filter P l) = length l ↔ Forall P l.
Proof.
  induction l as [|x l IH]; [cbn; split; [constructor | reflexivity]|].
  rewrite filter_cons. destruct (decide (P x)) as [Hx|Hx]; cbn.
  - rewrite Forall_cons. split.
    + intros [= Hl]. split; [exact Hx | now apply IH].
    + intros [_ Hl]. f_equal. now apply IH.
  - pose proof (length_filter P l). split; [lia|].
    intros Hf. apply Forall_cons in Hf as [? _]. contradiction.
Qed.

(** The header check box is checked exactly when the view is not empty and
    all of it is selected, and it is never checked and indeterminate at
    once.  "Select all" makes it checked for a view that is not empty,
    "deselect all" clears it, and both leave the selection outside the view
    alone. *)
Theorem handleSelectAll_checkbox prev allVisibleIds :
  (∀ sel, fst (selectAllCheckbox sel allVisibleIds) = true ↔
          allVisibleIds ≠ [] ∧ ∀ i, i ∈ allVisibleIds → i ∈ sel)
  ∧ (∀ sel, selectAllCheckbox sel allVisibleIds ≠ (true, true))
  ∧ selectAllCheckbox (handleSelectAll allVisibleIds true prev) allVisibleIds
    = (bool_decide (allVisibleIds ≠ []), false)
  ∧ selectAllCheckbox (handleSelectAll allVisibleIds false prev) allVisibleIds
    = (false, false)
  ∧ ∀ checked i, i ∉ allVisibleIds →
      (i ∈ handleSelectAll allVisibleIds checked prev ↔ i ∈ prev).
Proof.
  assert (Hchecked : ∀ sel : gset string,
            fst (selectAllCheckbox sel allVisibleIds) = true ↔
            allVisibleIds ≠ [] ∧ ∀ i, i ∈ allVisibleIds → i ∈ sel).
  { intros sel. unfold selectAllCheckbox. cbn [fst].
    rewrite andb_true_iff, !bool_decide_eq_true, length_filter_all, Forall_forall.
    destruct allVisibleIds; cbn; split; intros [? ?]; split; auto; try lia.
    done. }
  assert (Hnone : ∀ sel : gset string, (∀ i, i ∈ allVisibleIds → i ∉ sel) →
            filter (λ i, i ∈ sel) allVisibleIds = []).
  { intros sel Hout.
    destruct (filter _ allVisibleIds) as [|i rest] eqn:Hf; [done|exfalso].
    assert (Hi : i ∈ filter (λ i, i ∈ sel) allVisibleIds) by (rewrite Hf; left).
    apply list_elem_of_filter in Hi as [Hi1 Hi2]. exact (Hout i Hi2 Hi1). }
  split; [exact Hchecked|]. split; [|split; [|split]].
  - intros sel. unfold selectAllCheckbox.
    destruct (_ && _); cbn; congruence.
  - assert (Hlen : length (filter (λ i, i ∈ handleSelectAll allVisibleIds true prev)
                            allVisibleIds) = length allVisibleIds).
    { apply length_filter_all, Forall_forall. intros i Hi. cbn.
      apply elem_of_union. right. now apply elem_of_list_to_set. }
    unfold selectAllCheckbox. rewrite (bool_decide_eq_true_2 _ Hlen).
    destruct allVisibleIds as [|i l]; [reflexivity|].
    rewrite (bool_decide_eq_true_2 (0 < length (i :: l))%nat) by (cbn; lia).
    rewrite (bool_decide_eq_true_2 (i :: l ≠ [])) by done. reflexivity.
  - unfold selectAllCheckbox. rewrite Hnone.
    + cbn. destruct allVisibleIds; reflexivity.
    + intros i Hi. cbn. rewrite elem_of_difference, elem_of_list_to_set. tauto.
  - intros checked i Hi. destruct checked; cbn.
    + rewrite elem_of_union, elem_of_list_to_set. tauto.
    + rewrite elem_of_difference, elem_of_list_to_set. tauto.
Qed.

(** ** The dashboard *)

Lemma status_partition configs :
  (count_status Active configs + count_status Slow configs
   + count_status Inactive configs
   + length (filter (λ c, status c = Untested ∨ status c = Testing) configs)
   = length configs)%nat
  ∧ (length (filter (λ c, status c = Active ∨ status c = Slow) configs)
     = count_status Active configs + count_status Slow configs)%nat.
Proof.
  unfold count_status. induction configs as [|c l [IH1 IH2]]; [split; reflexivity|].
  rewrite !filter_cons.
  destruct (status c) eqn:Hs; repeat case_decide; cbn [length];
    try lia; exfalso; intuition congruence.
Qed.

(** The four segments of the status chart add up to the number of records
    (a record being tested counts as untested), and the status bar agrees
    with the dashboard: its active count is the dashboard's active plus
    slow, its inactive count the dashboard's inactive. *)
Theorem stats_partition configs :
  let s := stats configs in
  (st_active s + st_slow s + st_inactive s + st_untested s = st_total s)%nat
  ∧ footerStats configs
    = (st_total s, (st_active s + st_slow s)%nat, st_inactive s).
Proof.
  destruct (status_partition configs) as [H1 H2]. cbn. split; [exact H1|].
  unfold footerStats. now rewrite H2.
Qed.

Lemma foldl_sum_lower lo l acc :
  Forall (λ c, lo ≤ latency c) l →
  acc + lo * Z.of_nat (length l) ≤ foldl (λ acc c, acc + latency c) acc l.
Proof.
  intros H. revert acc. induction H as [|c l Hc _ IH]; intros acc; cbn [foldl length].
  - lia.
  - specialize (IH (acc + latency c)). lia.
Qed.

Lemma foldl_sum_upper hi l acc :
  Forall (λ c, latency c ≤ hi) l →
  foldl (λ acc c, acc + latency c) acc l ≤ acc + hi * Z.of_nat (length l).
Proof.
  intros H. revert acc. induction H as [|c l Hc _ IH]; intros acc; cbn [foldl length].
  - lia.
  - specialize (IH (acc + latency c)). lia.
Qed.

Lemma Math_round_lower lo total n :
  0 < n → lo * n ≤ total → lo ≤ Math_round (inject_Z total / inject_Z n).
Proof.
  intros Hn Hlo. unfold Math_round.
  assert (Hq : (inject_Z 0 < inject_Z n)%Q) by (rewrite <- Zlt_Qlt; exact Hn).
  change (inject_Z 0) with 0%Q in Hq.
  assert (H1 : (inject_Z lo <= inject_Z total / inject_Z n)%Q).
  { apply Qle_shift_div_l; [exact Hq|].
    rewrite <- inject_Z_mult, <- Zle_Qle. exact Hlo. }
  rewrite <- (Qfloor_Z lo). apply Qfloor_resp_le. lra.
Qed.

Lemma Math_round_upper hi total n :
  0 < n → total ≤ hi * n → Math_round (inject_Z total / inject_Z n) ≤ hi.
Proof.
  intros Hn Hhi. unfold Math_round.
  assert (Hq : (inject_Z 0 < inject_Z n)%Q) by (rewrite <- Zlt_Qlt; exact Hn).
  change (inject_Z 0) with 0%Q in Hq.
  assert (H2 : (inject_Z total / inject_Z n <= inject_Z hi)%Q).
  { apply Qle_shift_div_r; [exact Hq|].
    rewrite <- inject_Z_mult, <- Zle_Qle. exact Hhi. }
  assert (Hlt : (inject_Z (Qfloor (inject_Z total / inject_Z n + (1 # 2)))
                 < inject_Z (hi + 1))%Q).
  { eapply Qle_lt_trans; [apply Qfloor_le|].
    rewrite inject_Z_plus. change (inject_Z 1) with 1%Q. lra. }
  rewrite <- Zlt_Qlt in Hlt. lia.
Qed.

(** For a sum below [2^52], rounding the quotient to a double before
    [Math.round] gives the same integer as the exact quotient. *)
Lemma average_quotient s n :
  0 ≤ s < 2 ^ 52 → 0 < n →
  Math_round (ddiv (inject_Z s) (inject_Z n))
  = Math_round (inject_Z s / inject_Z n).
Proof.
  intros [Hs0 Hs] Hn. unfold ddiv.
  set (x := (inject_Z s / inject_Z n)%Q).
  set (k := Math_round x).
  destruct (Math_round_bounds x) as [Hk1 Hk2]. fold k in Hk1, Hk2.
  assert (HN : (inject_Z 1 <= inject_Z n)%Q) by (rewrite <- Zle_Qle; lia).
  change (inject_Z 1) with 1%Q in HN.
  assert (HS0 : (inject_Z 0 <= inject_Z s)%Q) by (rewrite <- Zle_Qle; lia).
  change (inject_Z 0) with 0%Q in HS0.
  assert (HS : (inject_Z s < inject_Z (2 ^ 52))%Q) by (rewrite <- Zlt_Qlt; lia).
  assert (Hx : (x * inject_Z n == inject_Z s)%Q).
  { unfold x. field. lra. }
  assert (Hx0 : (0 <= x)%Q).
  { unfold x. apply Qle_shift_div_l; lra. }
  destruct (rnd_error_pos x Hx0) as [He1 He2].
  assert (HE : (x * eps * inject_Z n < 1 # 2)%Q).
  { assert (H : (x * eps * inject_Z n == inject_Z s * eps)%Q).
    { rewrite <- Hx. ring. }
    rewrite H. unfold eps. change (inject_Z (2 ^ 52)) with (4503599627370496 # 1)%Q in HS.
    change (1 # 2 ^ 53)%Q with (1 # 9007199254740992)%Q. lra. }
  set (X := x) in *. set (E := (X * eps)%Q) in *. set (r := rnd X) in *.
  set (N := inject_Z n) in *. set (S := inject_Z s) in *. set (K := inject_Z k) in *.
  assert (HZ1 : 2 * k * n ≤ 2 * s + n).
  { rewrite Zle_Qle. rewrite inject_Z_plus, !inject_Z_mult.
    change (inject_Z 2) with 2%Q. fold N S K. nra. }
  assert (HZ2 : 2 * s + n + 1 ≤ 2 * k * n + 2 * n).
  { assert (H : 2 * s + n < 2 * k * n + 2 * n); [|lia].
    rewrite Zlt_Qlt. rewrite !inject_Z_plus, !inject_Z_mult.
    change (inject_Z 2) with 2%Q. fold N S K. nra. }
  unfold Math_round at 1. apply Qfloor_unique; fold K.
  - destruct (Z.eq_dec (2 * k * n) (2 * s + n)) as [Heq|Hne].
    + assert (Hk : 1 ≤ k ≤ s) by nia.
      assert (Hxk : (X == inject_Z (2 * k - 1) / 2)%Q).
      { unfold Z.sub. rewrite inject_Z_plus, inject_Z_mult.
        change (inject_Z 2) with 2%Q. change (inject_Z (- (1))) with (-1)%Q.
        fold K.
        assert (Heq' : (inject_Z (2 * k * n) == inject_Z (2 * s + n))%Q)
          by now rewrite Heq.
        rewrite !inject_Z_plus, !inject_Z_mult in Heq'.
        change (inject_Z 2) with 2%Q in Heq'. fold N S K in Heq'.
        assert (H : ((X - K + (1 # 2)) * N == 0)%Q) by nra.
        assert (H0 : (X == K - (1 # 2))%Q)
          by (apply Qmult_integral in H as [H|H]; lra).
        rewrite H0. field. }
      assert (Hr : (r == inject_Z (2 * k - 1) / 2)%Q).
      { unfold r. rewrite (rnd_proper _ _ Hxk). apply rnd_half. lia. }
      assert (Hr' : (r + (1 # 2) == K)%Q).
      { rewrite Hr. unfold Z.sub. rewrite inject_Z_plus, inject_Z_mult.
        change (inject_Z 2) with 2%Q. change (inject_Z (- (1))) with (-1)%Q.
        fold K. field. }
      rewrite Hr'. lra.
    + assert (HZ3 : 2 * k * n + 1 ≤ 2 * s + n) by lia.
      rewrite Zle_Qle in HZ3. rewrite !inject_Z_plus, !inject_Z_mult in HZ3.
      change (inject_Z 2) with 2%Q in HZ3. change (inject_Z 1) with 1%Q in HZ3.
      fold N S K in HZ3.
      apply (Qmult_le_r _ _ N); [lra|]. nra.
  - rewrite Zle_Qle in HZ2. rewrite !inject_Z_plus, !inject_Z_mult in HZ2.
    change (inject_Z 2) with 2%Q in HZ2. change (inject_Z 1) with 1%Q in HZ2.
    fold N S K in HZ2.
    apply (Qmult_lt_r _ _ N); [lra|]. nra.
Qed.

(** The average card shows a number exactly when some record has a positive
    latency; the number is then an integer that lies between the smallest
    and the largest positive latency.  An inventory of records that were
    never measured shows [N/A] although the average computed is [NaN]. *)
Theorem average_shown_iff configs :
  ((∃ c, c ∈ configs ∧ 0 < latency c) ↔ is_Some (average_shown (stats configs)))
  ∧ (∀ v lo hi,
       average_shown (stats configs) = Some v →
       (∀ c, c ∈ configs → 0 < latency c → lo ≤ latency c ≤ hi) →
       ∃ z, v = Int z ∧ lo ≤ z ≤ hi)
  ∧ (configs ≠ [] → (∀ c, c ∈ configs → latency c ≤ 0) →
     st_averageLatency (stats configs) = NaN).
Proof.
  set (measured := filter (λ c, 0 < latency c) configs).
  set (avg := Math_round
                (inject_Z (foldl (λ acc c, acc + latency c) 0 measured)
                 / inject_Z (Z.of_nat (length measured)))).
  assert (Hm : ∀ c, c ∈ measured ↔ 0 < latency c ∧ c ∈ configs)
    by (intros c; apply (list_elem_of_filter (λ c, 0 < latency c))).
  assert (Hraw : st_averageLatency (stats configs)
    = match measured with
      | [] => if bool_decide (configs = []) then Int 0 else NaN
      | _ => Int avg
      end).
  { unfold stats. cbn [st_averageLatency]. fold measured. fold avg.
    destruct configs as [|c0 l]; [reflexivity|].
    rewrite bool_decide_eq_true_2 by (cbn; lia).
    rewrite (bool_decide_eq_false_2 (c0 :: l = [])) by done.
    destruct measured; reflexivity. }
  assert (Hlow : measured ≠ [] → 1 ≤ avg).
  { intros Hne. apply Math_round_lower; [destruct measured; [done | cbn; lia]|].
    pose proof (foldl_sum_lower 1 measured 0) as Hs.
    rewrite Z.add_0_l in Hs. apply Hs. apply Forall_forall.
    intros c Hc. apply Hm in Hc as [? _]. lia. }
  assert (Hshape : average_shown (stats configs)
                   = match measured with [] => None | _ => Some (Int avg) end).
  { unfold average_shown. rewrite Hraw.
    destruct measured as [|m ms] eqn:Hmeas; [case_bool_decide; reflexivity|].
    specialize (Hlow ltac:(done)).
    rewrite num_lt_Int, bool_decide_eq_true_2 by lia. reflexivity. }
  split; [|split].
  - rewrite Hshape. split.
    + intros (c & Hc & Hpos). assert (Hin : c ∈ measured) by (apply Hm; auto).
      destruct measured; [now apply elem_of_nil in Hin | eauto].
    + intros [v Hv]. destruct measured as [|m ms] eqn:Hmeas; [discriminate|].
      exists m. assert (Hin : m ∈ m :: ms) by left.
      apply Hm in Hin as [? ?]. auto.
  - intros v lo hi Hv Hall. rewrite Hshape in Hv.
    assert (Hne : measured ≠ []) by (intros Hnil; now rewrite Hnil in Hv).
    assert (Hlen : 0 < Z.of_nat (length measured))
      by (destruct measured; [done | cbn; lia]).
    assert (v = Int avg) as -> by (destruct measured; congruence).
    exists avg. split; [reflexivity|].
    assert (Hb : Forall (λ c, lo ≤ latency c ≤ hi) measured).
    { apply Forall_forall. intros c Hc. apply Hm in Hc as [? ?]. auto. }
    split.
    + apply Math_round_lower; [exact Hlen|].
      pose proof (foldl_sum_lower lo measured 0) as Hs. rewrite Z.add_0_l in Hs.
      apply Hs. eapply Forall_impl; [exact Hb|]. cbn. lia.
    + apply Math_round_upper; [exact Hlen|].
      pose proof (foldl_sum_upper hi measured 0) as Hs. rewrite Z.add_0_l in Hs.
      apply Hs. eapply Forall_impl; [exact Hb|]. cbn. lia.
  - intros Hne Hall. rewrite Hraw.
    assert (Hnil : measured = []).
    { destruct measured as [|m ms] eqn:Hmeas; [reflexivity|exfalso].
      assert (Hin : m ∈ m :: ms) by left.
      apply Hm in Hin as [Hp Hin]. specialize (Hall m Hin). lia. }
    rewrite Hnil. now rewrite bool_decide_eq_false_2.
Qed.

(** ** The smart groups of the settings form *)

Lemma findIndex_Some {A} (p : A → bool) l i :
  findIndex p l = Some i →
  ∃ x, l !! i = Some x ∧ p x = true ∧ ∀ j y, (j < i)%nat → l !! j = Some y → p y = false.
Proof.
  revert i. induction l as [|x l IH]; intros i H; cbn in H; [discriminate|].
  destruct (p x) eqn:Hx.
  - injection H as <-. exists x. split; [reflexivity|]. split; [exact Hx|]. lia.
  - destruct (findIndex p l) as [k|]; cbn in H; [|discriminate].
    injection H as <-. destruct (IH k eq_refl) as (y & Hy & Hpy & Hbefore).
    exists y. split; [exact Hy|]. split; [exact Hpy|].
    intros [|j] z Hj Hz; cbn in Hz; [congruence|]. apply (Hbefore j); [lia|done].
Qed.

Lemma findIndex_None {A} (p : A → bool) l :
  findIndex p l = None → Forall (λ x, p x = false) l.
Proof.
  induction l as [|x l IH]; cbn; [constructor|].
  destruct (p x) eqn:Hx; [discriminate|].
  destruct (findIndex p l); [discriminate|]. intros _. constructor; auto.
Qed.

Lemma find_insert_first {A} (p : A → bool) (l : list A) (i : nat) g :
  findIndex p l = Some i → p g = true → List.find p (<[i := g]> l) = Some g.
Proof.
  revert i. induction l as [|x l IH]; intros i H Hg; cbn in H; [discriminate|].
  destruct (p x) eqn:Hx.
  - injection H as <-. cbn. now rewrite Hg.
  - destruct (findIndex p l) as [k|]; cbn in H; [|discriminate].
    injection H as <-. cbn. rewrite Hx. now apply IH.
Qed.

Lemma find_snoc_new {A} (p : A → bool) l g :
  findIndex p l = None → p g = true → List.find p (l ++ [g]) = Some g.
Proof.
  intros H Hg. apply findIndex_None in H.
  induction H as [|x l Hx _ IH]; cbn; [now rewrite Hg | now rewrite Hx].
Qed.

Lemma filter_insert_out {A} (P : A → Prop) `{∀ a, Decision (P a)}
    (l : list A) (i : nat) x g :
  l !! i = Some x → ¬ P x → ¬ P g → filter P (<[i := g]> l) = filter P l.
Proof.
  revert i. induction l as [|y l IH]; intros i Hi Hx Hg; [done|].
  destruct i as [|i]; cbn in Hi.
  - injection Hi as ->. change (<[0%nat := g]> (x :: l)) with (g :: l).
    rewrite !filter_cons. now rewrite !decide_False by done.
  - change (<[S i := g]> (y :: l)) with (y :: <[i := g]> l).
    rewrite !filter_cons. now rewrite (IH i Hi Hx Hg).
Qed.

(** Saving a named group puts it where a lookup by identifier finds it,
    replacing the first group with that identifier or else going to the end;
    every group with another identifier stays where it was, so deleting the
    identifier afterwards gives what deleting it before would have given.
    The list grows by one or not at all, distinct identifiers stay distinct,
    and a group without a name is not saved. *)
Theorem handleSaveSmartGroup_upsert g groups :
  sg_name g ≠ EmptyString →
  let groups' := handleSaveSmartGroup (Some g) groups in
  List.find (λ x, String.eqb (sg_id x) (sg_id g)) groups' = Some g
  ∧ handleDeleteSmartGroup (sg_id g) groups'
    = handleDeleteSmartGroup (sg_id g) groups
  ∧ (length groups ≤ length groups' ≤ S (length groups))%nat
  ∧ (NoDup (sg_id <$> groups) → NoDup (sg_id <$> groups'))
  ∧ ∀ unnamed, sg_name unnamed = EmptyString →
               handleSaveSmartGroup (Some unnamed) groups = groups.
Proof.
  intros Hname groups'. subst groups'. unfold handleSaveSmartGroup.
  destruct (String.eqb_spec (sg_name g) EmptyString) as [|_]; [contradiction|].
  assert (Hg : String.eqb (sg_id g) (sg_id g) = true) by apply String.eqb_refl.
  split; [|split; [|split; [|split]]].
  - destruct (findIndex _ groups) as [i|] eqn:Hi.
    + now apply find_insert_first.
    + now apply find_snoc_new.
  - unfold handleDeleteSmartGroup.
    destruct (findIndex _ groups) as [i|] eqn:Hi.
    + destruct (findIndex_Some _ _ _ Hi) as (x & Hx & Hpx & _).
      apply String.eqb_eq in Hpx.
      apply (filter_insert_out _ groups i x g Hx); auto.
    + rewrite filter_app, filter_cons, decide_False by auto.
      now rewrite filter_nil, app_nil_r.
  - destruct (findIndex _ groups) as [i|].
    + rewrite length_insert. lia.
    + rewrite length_app. cbn. lia.
  - intros Hnd. destruct (findIndex _ groups) as [i|] eqn:Hi.
    + destruct (findIndex_Some _ _ _ Hi) as (x & Hx & Hpx & _).
      apply String.eqb_eq in Hpx. rewrite list_fmap_insert, <- Hpx.
      rewrite list_insert_id; [exact Hnd|]. now rewrite list_lookup_fmap, Hx.
    + apply findIndex_None in Hi. rewrite fmap_app. cbn.
      apply NoDup_app. split; [exact Hnd|]. split; [|apply NoDup_singleton].
      intros i Hin Hi2. apply list_elem_of_singleton in Hi2 as ->.
      apply list_elem_of_fmap in Hin as (x & Hx & Hin).
      rewrite Forall_forall in Hi. specialize (Hi x Hin).
      apply String.eqb_neq in Hi. congruence.
  - intros unnamed ->. reflexivity.
Qed.

Lemma handleSaveSmartGroup_upsert_witness :
  let fast := {| sg_id := "g1"; sg_name := "Fast"; sg_color := "#22c55e";
                 rules := [newRule "r1"] |} in
  let renamed := {| sg_id := "g1"; sg_name := "Quick"; sg_color := "#22c55e";
                    rules := [] |} in
  List.find (λ x, String.eqb (sg_id x) "g1")
            (handleSaveSmartGroup (Some renamed) [fast]) = Some renamed
  ∧ handleSaveSmartGroup (Some renamed) [fast] = [renamed].
Proof.
  intros fast renamed. split; [|reflexivity].
  exact (proj1 (handleSaveSmartGroup_upsert renamed [fast] ltac:(discriminate))).
Defined.

(** Deleting a rule whose identifier no other rule of the group has undoes
    adding it. *)
Lemma handleDeleteRule_handleAddRule rid g :
  Forall (λ r, rule_id r ≠ rid) (rules g) →
  handleDeleteRule rid (handleAddRule rid g) = g.
Proof.
  intros Hfresh. unfold handleDeleteRule, handleAddRule, with_rules.
  cbn [rules sg_id sg_name sg_color].
  rewrite filter_app, filter_cons, decide_False by (cbn; auto).
  rewrite filter_nil, app_nil_r.
  assert (Hsame : filter (λ r, rule_id r ≠ rid) (rules g) = rules g).
  { induction Hfresh as [|r l Hr _ IH]; [reflexivity|].
    now rewrite filter_cons, decide_True, IH by exact Hr. }
  rewrite Hsame. now destruct g.
Qed.

(** A group started from the dialog and given the default rule holds
    exactly the records whose latency is below 300, the never tested and the
    failed ones (latency [-1]) among them; deleting the rule again gives back
    the group without rules, which holds every record. *)
Theorem default_rule_group R gid rid c :
  let g := handleAddRule rid (blank_group gid) in
  matches R c g = Ok (bool_decide (latency c < 300))
  ∧ (latency c = -1 → matches R c g = Ok true)
  ∧ handleDeleteRule rid g = blank_group gid
  ∧ matches R c (handleDeleteRule rid g) = Ok true.
Proof.
  intros g.
  assert (Hm : matches R c g = Ok (bool_decide (latency c < 300))).
  { unfold matches. cbn [g handleAddRule with_rules blank_group rules app
                         every_result].
    rewrite (evaluateRule_latency R c (newRule rid) (Int 300));
      [|reflexivity|reflexivity|reflexivity].
    rewrite num_lt_Int. cbn. now destruct (bool_decide _). }
  assert (Hd : handleDeleteRule rid g = blank_group gid)
    by (apply handleDeleteRule_handleAddRule; constructor).
  split; [exact Hm|]. split; [intros Hl; now rewrite Hm, Hl|].
  split; [exact Hd|]. now rewrite Hd.
Qed.

(** ** The manual test run, further *)

Lemma resume_resumed R settings s config d now :
  resume R settings s config d now = runNext (resumed R settings s config d now).
Proof. reflexivity. Qed.

(** A property of the states kept by a turn of [runNext], by a request to
    stop and by what [runNext] writes after its [await] holds all along a
    run. *)
Section Invariants.
Context (R : Runtime) (settings : SettingsData) (I : Sched → Prop).
Hypothesis I_runNext : ∀ s, I s → I (runNext s).
Hypothesis I_stop : ∀ s, I s → I (stopTesting s).
Hypothesis I_resumed : ∀ s (i : nat) config d now,
  I s → pending s !! i = Some config →
  I (resumed R settings (drop_pending i s) config d now).

Lemma launch_invariant fuel ct i s : I s → I (launch fuel ct i s).
Proof.
  revert i s. induction fuel as [|fuel IH]; intros i s H; cbn [launch];
    [exact H|].
  destruct (lt_min _ _ _); [|exact H]. apply IH, I_runNext, H.
Qed.

Lemma fire_invariant s e s' : I s → fire R settings s e = Some s' → I s'.
Proof.
  intros H Hfire. destruct e as [i d now|]; cbn in Hfire.
  - destruct (pending s !! i) as [config|] eqn:Hi; [|discriminate].
    injection Hfire as <-. rewrite resume_resumed.
    apply I_runNext. eapply I_resumed; eauto.
  - destruct (isTesting s); [|discriminate]. injection Hfire as <-.
    apply I_stop, H.
Qed.

Lemma run_invariant events s s' :
  I s → run R settings events s = Some s' → I s'.
Proof.
  revert s. induction events as [|e events IH]; intros s H Hrun; cbn in Hrun.
  - now injection Hrun as <-.
  - destruct (fire R settings s e) as [s1|] eqn:Hfire; [|discriminate].
    cbn in Hrun. eapply IH; [|exact Hrun]. eapply fire_invariant; eauto.
Qed.

End Invariants.

(** *** A test never changes which server a record is *)

Lemma testConfig_identity R c tmo d :
  p_name (testConfig R c tmo d) = None
  ∧ p_protocol (testConfig R c tmo d) = None
  ∧ p_host (testConfig R c tmo d) = None
  ∧ p_port (testConfig R c tmo d) = None.
Proof.
  unfold testConfig. destruct (probe_failed tmo d); [repeat split|].
  destruct (geo d) as [| | |[] ? ?]; repeat split.
Qed.

Lemma applyResult_identity R c c' tmo d now :
  identity (applyResult c (testConfig R c' tmo d) now) = identity c.
Proof.
  destruct (testConfig_identity R c' tmo d) as (H1 & H2 & H3 & H4).
  unfold identity, applyResult. cbn. now rewrite H1, H2, H3, H4.
Qed.

Lemma revert_testing_identity c : identity (revert_testing c) = identity c.
Proof. unfold revert_testing. now case_bool_decide. Qed.

Lemma mark_testing_identity l c : identity (mark_testing l c) = identity c.
Proof. unfold mark_testing. now destruct (existsb _ _). Qed.

Lemma merge_identity R config tmo d now c :
  identity (if bool_decide (id c = id config)
            then applyResult c (testConfig R config tmo d) now else c)
  = identity c.
Proof. case_bool_decide; [apply applyResult_identity | reflexivity]. Qed.

Lemma fmap_identity (f : ProxyConfig → ProxyConfig) (l : list ProxyConfig) :
  (∀ c, identity (f c) = identity c) → identity <$> (f <$> l) = identity <$> l.
Proof.
  intros H. rewrite <- list_fmap_compose. apply list_fmap_ext.
  intros i c _. apply H.
Qed.

Lemma runNext_identity s :
  identity <$> configs (runNext s) = identity <$> configs s.
Proof.
  unfold runNext.
  destruct (testingStopFlag s); [|destruct (queue s)]; try case_bool_decide;
    cbn [configs]; try reflexivity.
  apply fmap_identity, revert_testing_identity.
Qed.

Lemma run_identity R settings events s s' :
  run R settings events s = Some s' →
  identity <$> configs s' = identity <$> configs s.
Proof.
  apply (run_invariant R settings
           (λ s1, identity <$> configs s1 = identity <$> configs s));
    [| | |reflexivity].
  - intros s1 H. rewrite <- H. apply runNext_identity.
  - intros s1 H. exact H.
  - intros s1 i config d now H _. rewrite <- H. unfold resumed. cbn.
    destruct (testingStopFlag s1); [reflexivity|].
    apply fmap_identity. intros c. apply merge_identity.
Qed.

Lemma startTesting_identity settings shown configs0 :
  identity <$> configs (startTesting settings shown configs0)
  = identity <$> configs0.
Proof.
  unfold startTesting.
  apply (launch_invariant (λ s1, identity <$> configs s1 = identity <$> configs0)).
  - intros s1 H. rewrite <- H. apply runNext_identity.
  - cbn. apply fmap_identity, mark_testing_identity.
Qed.

(** Whatever happens in a manual run, every record of the inventory
    keeps its place, its identifier, its raw string, its name, protocol,
    host, port and group; no record is added or removed. *)
Theorem run_keeps_identity R settings shown configs0 events s :
  run R settings events (startTesting settings shown configs0) = Some s →
  identity <$> configs s = identity <$> configs0.
Proof.
  intros Hrun. rewrite (run_identity _ _ _ _ _ Hrun).
  apply startTesting_identity.
Qed.

Lemma run_keeps_identity_witness :
  let settings := sample_settings 3 in
  let d := draws_of (1 # 40) in
  let events := [Resolved 0 d "t1"; StopPressed; Resolved 0 d "t2";
                 Resolved 0 d "t3"; Resolved 0 d "t4"] in
  ∃ s, run sampleRuntime settings events
         (startTesting settings (sample_shown 10) (sample_inventory 10)) = Some s
       ∧ identity <$> configs s = identity <$> sample_inventory 10.
Proof.
  intros settings d events.
  destruct (run sampleRuntime settings events
              (startTesting settings (sample_shown 10) (sample_inventory 10)))
    as [s|] eqn:Hrun; [|vm_compute in Hrun; discriminate].
  exists s. split; [reflexivity|].
  exact (run_keeps_identity sampleRuntime settings (sample_shown 10)
           (sample_inventory 10) events s Hrun).
Defined.

Lemma autoTest_loop_identity R settings l ds inventory :
  identity <$> autoTest_loop R settings l ds inventory = identity <$> inventory.
Proof.
  revert ds inventory. induction l as [|config rest IH]; intros ds inventory;
    [reflexivity|].
  destruct ds as [|[d now] ds]; [reflexivity|].
  rewrite autoTest_loop_cons, IH.
  apply fmap_identity. intros c. apply merge_identity.
Qed.

(** So does an unattended pass, visible or hidden. *)
Lemma startAutoTest_identity R settings hidden ds configs0 :
  identity <$> startAutoTest R settings hidden ds configs0 = identity <$> configs0.
Proof.
  unfold startAutoTest. destruct hidden; [reflexivity|].
  apply autoTest_loop_identity.
Qed.

(** *** The order of the probes *)

Lemma drop_cons_inv {A} (l : list A) (k : nat) x r :
  drop k l = x :: r → l !! k = Some x ∧ drop (S k) l = r.
Proof.
  intros H. split.
  - rewrite <- (Nat.add_0_r k), <- lookup_drop, H. reflexivity.
  - rewrite <- Nat.add_1_r, <- drop_drop, H. reflexivity.
Qed.

Lemma submseteq_NoDup {A} (l k : list A) : l ⊆+ k → NoDup k → NoDup l.
Proof.
  induction 1 as [|x l k Hlk IH|x y l|x l k Hlk IH|l k m _ IH1 _ IH2];
    intros Hk; auto.
  - apply NoDup_cons in Hk as [Hx Hk]. apply NoDup_cons. split; [|auto].
    intros Hin. apply Hx. eapply elem_of_submseteq; eauto.
  - eapply (NoDup_Permutation_proper _ _ (perm_swap x y l)), Hk.
  - apply NoDup_cons in Hk as [_ Hk]. auto.
Qed.

Lemma runNext_InOrder cands s : InOrder cands s → InOrder cands (runNext s).
Proof.
  intros (k & Hq & Hp). unfold runNext.
  destruct (testingStopFlag s);
    [case_bool_decide; exists k; split; assumption|].
  destruct (queue s) as [|config rest] eqn:Hqueue.
  - case_bool_decide; exists k; cbn [queue pending]; rewrite ?Hqueue;
      split; assumption.
  - symmetry in Hq. apply drop_cons_inv in Hq as [Hk Hd].
    exists (S k). cbn [queue pending]. split; [now symmetry|].
    rewrite (take_S_r _ _ _ Hk). now apply submseteq_skips_r.
Qed.

Lemma resumed_InOrder R settings cands s (i : nat) config d now :
  InOrder cands s →
  InOrder cands (resumed R settings (drop_pending i s) config d now).
Proof.
  intros (k & Hq & Hp). exists k. cbn. split; [exact Hq|].
  etransitivity; [apply submseteq_delete | exact Hp].
Qed.

Lemma InOrder_pending cands s (i : nat) config :
  InOrder cands s → pending s !! i = Some config →
  id (cfg config) ∈ ids_of cands.
Proof.
  intros (k & _ & Hp) Hi. unfold ids_of.
  apply (list_elem_of_fmap_2 (λ ct, id (cfg ct))).
  apply list_elem_of_lookup_2 in Hi.
  apply (elem_of_submseteq _ _ _ Hi) in Hp.
  apply elem_of_take in Hp as (j & Hj & _).
  eapply list_elem_of_lookup_2, Hj.
Qed.

Lemma InOrder_NoDup cands s :
  InOrder cands s → NoDup (ids_of cands) →
  NoDup (ids_of (pending s ++ queue s)).
Proof.
  intros (k & Hq & Hp) Hnd. eapply submseteq_NoDup; [|exact Hnd].
  unfold ids_of. apply fmap_submseteq.
  rewrite <- (take_drop k cands), Hq.
  now apply submseteq_skips_r.
Qed.

Lemma startTesting_InOrder settings shown configs0 :
  InOrder (filter is_candidate shown) (startTesting settings shown configs0).
Proof.
  unfold startTesting. apply launch_invariant; [apply runNext_InOrder|].
  exists 0%nat. cbn. split; [reflexivity|]. constructor.
Qed.

Lemma run_InOrder R settings cands events s s' :
  InOrder cands s → run R settings events s = Some s' → InOrder cands s'.
Proof.
  apply (run_invariant R settings (InOrder cands)).
  - apply runNext_InOrder.
  - intros s1 H. exact H.
  - intros s1 i config d now H _. now apply resumed_InOrder.
Qed.

(** The probes of a manual run start in the order of the display:
    at every moment the queue is the rest of the candidates and the probes
    in flight are among those before it.  So with distinct identifiers no
    record is probed by two workers at once, nor queued while it is
    probed. *)
Theorem run_in_display_order R settings shown configs0 events s :
  run R settings events (startTesting settings shown configs0) = Some s →
  let cands := filter is_candidate shown in
  (∃ k : nat, queue s = drop k cands ∧ pending s ⊆+ take k cands)
  ∧ (NoDup (ids_of cands) → NoDup (ids_of (pending s ++ queue s))).
Proof.
  intros Hrun cands.
  assert (H : InOrder cands s).
  { eapply run_InOrder; [|exact Hrun]. apply startTesting_InOrder. }
  split; [exact H|]. now apply InOrder_NoDup.
Qed.

Lemma run_in_display_order_witness :
  let settings := sample_settings 3 in
  let d := draws_of (1 # 40) in
  let events := [Resolved 1 d "t1"; Resolved 0 d "t2"; StopPressed] in
  let cands := filter is_candidate (sample_shown 10) in
  ∃ s, run sampleRuntime settings events
         (startTesting settings (sample_shown 10) (sample_inventory 10)) = Some s
       ∧ (∃ k : nat, queue s = drop k cands ∧ pending s ⊆+ take k cands)
       ∧ (NoDup (ids_of cands) → NoDup (ids_of (pending s ++ queue s))).
Proof.
  intros settings d events cands.
  destruct (run sampleRuntime settings events
              (startTesting settings (sample_shown 10) (sample_inventory 10)))
    as [s|] eqn:Hrun; [|vm_compute in Hrun; discriminate].
  exists s. split; [reflexivity|].
  exact (run_in_display_order sampleRuntime settings (sample_shown 10)
           (sample_inventory 10) events s Hrun).
Defined.

(** *** The records a run does not concern *)

Lemma existsb_ids (l : list ConfigWithGroups) c :
  existsb (λ ct, String.eqb (id (cfg ct)) (id c)) l = true ↔ id c ∈ ids_of l.
Proof.
  unfold ids_of. rewrite existsb_exists, list_elem_of_fmap. split.
  - intros (ct & Hin & Heq). apply String.eqb_eq in Heq.
    exists ct. split; [now symmetry | now apply list_elem_of_In].
  - intros (ct & Heq & Hin). exists ct.
    split; [now apply list_elem_of_In | apply String.eqb_eq; now symmetry].
Qed.

Lemma runNext_Untouched cands configs0 s :
  Untouched cands configs0 s → Untouched cands configs0 (runNext s).
Proof.
  intros H i c Hi Hid Hst. specialize (H i c Hi Hid Hst). unfold runNext.
  destruct (testingStopFlag s); [|destruct (queue s)]; try case_bool_decide;
    cbn [configs]; try exact H.
  rewrite list_lookup_fmap, H. cbn. unfold revert_testing.
  now rewrite bool_decide_eq_false_2.
Qed.

Lemma resumed_Untouched R settings cands configs0 s (i : nat) config d now :
  InOrder cands s → Untouched cands configs0 s →
  pending s !! i = Some config →
  Untouched cands configs0 (resumed R settings (drop_pending i s) config d now).
Proof.
  intros Ho H Hp j c Hj Hid Hst. specialize (H j c Hj Hid Hst).
  unfold resumed. cbn. destruct (testingStopFlag s); [exact H|].
  rewrite list_lookup_fmap, H. cbn. rewrite bool_decide_eq_false_2; [done|].
  intros Heq. apply Hid. rewrite Heq. eapply InOrder_pending; eauto.
Qed.

Lemma startTesting_Untouched settings shown configs0 :
  Untouched (filter is_candidate shown) configs0
    (startTesting settings shown configs0).
Proof.
  unfold startTesting. apply launch_invariant; [apply runNext_Untouched|].
  intros i c Hi Hid Hst. cbn. rewrite list_lookup_fmap, Hi. cbn.
  unfold mark_testing.
  destruct (existsb _ _) eqn:He; [|reflexivity].
  apply existsb_ids in He. contradiction.
Qed.

(** A manual run leaves alone every record that is not one of its
    candidates (and is not [Testing] to begin with): at every moment of the
    run, stopped or not, such a record is at its place with every field as
    it was. *)
Theorem run_leaves_the_others R settings shown configs0 events s (i : nat) c :
  run R settings events (startTesting settings shown configs0) = Some s →
  configs0 !! i = Some c →
  id c ∉ ids_of (filter is_candidate shown) →
  status c ≠ Testing →
  configs s !! i = Some c.
Proof.
  intros Hrun Hi Hid Hst.
  set (cands := filter is_candidate shown) in *.
  assert (H : InOrder cands s ∧ Untouched cands configs0 s).
  { revert Hrun.
    apply (run_invariant R settings
             (λ s1, InOrder cands s1 ∧ Untouched cands configs0 s1)).
    - intros s1 [Ho Hu].
      split; [now apply runNext_InOrder | now apply runNext_Untouched].
    - intros s1 H. exact H.
    - intros s1 j config d now [Ho Hu] Hj.
      split; [now apply resumed_InOrder | now apply resumed_Untouched].
    - split; [apply startTesting_InOrder | apply startTesting_Untouched]. }
  destruct H as [_ H]. now apply H.
Qed.

Lemma run_leaves_the_others_witness :
  let settings := sample_settings 3 in
  let d := draws_of (1 # 40) in
  let events := [Resolved 0 d "t1"; StopPressed; Resolved 0 d "t2"] in
  ∃ s c, run sampleRuntime settings events
           (startTesting settings (sample_shown 2) (sample_inventory 4)) = Some s
         ∧ sample_inventory 4 !! 3%nat = Some c
         ∧ configs s !! 3%nat = Some c.
Proof.
  intros settings d events.
  destruct (run sampleRuntime settings events
              (startTesting settings (sample_shown 2) (sample_inventory 4)))
    as [s|] eqn:Hrun; [|vm_compute in Hrun; discriminate].
  destruct (sample_inventory 4 !! 3%nat) as [c|] eqn:Hc;
    [|vm_compute in Hc; discriminate].
  exists s, c. split; [reflexivity|]. split; [reflexivity|].
  apply (run_leaves_the_others sampleRuntime settings (sample_shown 2)
           (sample_inventory 4) events s 3 c Hrun Hc).
  - vm_compute in Hc. injection Hc as <-.
    apply (bool_decide_unpack _). vm_compute. exact I.
  - vm_compute in Hc. injection Hc as <-. discriminate.
Defined.

(** *** Counting the probes *)

Lemma runNext_Counted s : Counted s → Counted (runNext s).
Proof.
  intros (Ht & Hsum & Hp). unfold Counted, runNext.
  destruct (testingStopFlag s);
    [|destruct (queue s) as [|config rest] eqn:Hqueue];
    try case_bool_decide; cbn [testedCount queue pending total testProgress];
    rewrite ?Hqueue; try (split; [|split]; assumption).
  split; [exact Ht|]. split; [|exact Hp].
  rewrite length_app. cbn [length] in *. lia.
Qed.

Lemma resumed_Counted R settings s (i : nat) config d now :
  Counted s → pending s !! i = Some config →
  Counted (resumed R settings (drop_pending i s) config d now).
Proof.
  intros (Ht & Hsum & Hp) Hi.
  assert (Hlen : (i < length (pending s))%nat) by (eapply lookup_lt_Some, Hi).
  unfold Counted, resumed. cbn. split; [lia|]. split.
  - rewrite length_delete by eauto. lia.
  - destruct (Z.eqb_spec (testedCount s + 1) 0); [lia | reflexivity].
Qed.

Lemma startTesting_Counted settings shown configs0 :
  Counted (startTesting settings shown configs0).
Proof.
  unfold startTesting. apply launch_invariant; [apply runNext_Counted|].
  unfold Counted. cbn. repeat split; lia.
Qed.

Lemma run_Counted R settings events s s' :
  Counted s → run R settings events s = Some s' → Counted s'.
Proof.
  apply (run_invariant R settings Counted).
  - apply runNext_Counted.
  - intros s1 H. exact H.
  - intros s1 i config d now. apply resumed_Counted.
Qed.

Lemma runNext_counters s : counters (runNext s) = counters s.
Proof.
  unfold runNext.
  destruct (testingStopFlag s); [|destruct (queue s)]; try case_bool_decide;
    reflexivity.
Qed.

Lemma fire_count R settings s e s' :
  fire R settings s e = Some s' →
  total s' = total s ∧ testedCount s' = testedCount s + resolutions [e].
Proof.
  intros Hfire. destruct e as [i d now|]; cbn in Hfire.
  - destruct (pending s !! i) as [config|]; [|discriminate].
    injection Hfire as <-. rewrite resume_resumed.
    rewrite runNext_total, runNext_testedCount. cbn.
    split; [reflexivity | unfold resolutions; cbn; lia].
  - destruct (isTesting s); [|discriminate]. injection Hfire as <-.
    cbn. split; [reflexivity | unfold resolutions; cbn; lia].
Qed.

Lemma run_count R settings events s s' :
  run R settings events s = Some s' →
  total s' = total s ∧ testedCount s' = testedCount s + resolutions events.
Proof.
  revert s. induction events as [|e events IH]; intros s Hrun; cbn in Hrun.
  - injection Hrun as <-. unfold resolutions. cbn. split; [reflexivity | lia].
  - destruct (fire R settings s e) as [s1|] eqn:Hfire; [|discriminate].
    cbn in Hrun. destruct (fire_count _ _ _ _ _ Hfire) as [Ht1 Hc1].
    destruct (IH s1 Hrun) as [Ht' Hc'].
    rewrite resolutions_cons. split; [congruence | lia].
Qed.

Lemma startTesting_count settings shown configs0 :
  total (startTesting settings shown configs0)
  = Z.of_nat (length (filter is_candidate shown))
  ∧ testedCount (startTesting settings shown configs0) = 0.
Proof.
  unfold startTesting. now rewrite launch_total, launch_testedCount.
Qed.

(** The double the progress is rounded from is within [201 * 2^-53] of the
    exact percentage. *)
Lemma progress_double t n :
  0 < t ≤ n →
  let exact := (inject_Z t / inject_Z n * 100)%Q in
  let shown := dmul (ddiv (inject_Z t) (inject_Z n)) 100 in
  (0 <= shown)%Q
  ∧ (exact - 201 * eps <= shown)%Q ∧ (shown <= exact + 201 * eps)%Q
  ∧ (0 <= exact)%Q ∧ (exact <= 100)%Q.
Proof.
  intros [Ht Hn] exact shown.
  assert (Hq : (0 < inject_Z n)%Q).
  { change 0%Q with (inject_Z 0). rewrite <- Zlt_Qlt. lia. }
  assert (Ht0 : (0 <= inject_Z t)%Q).
  { change 0%Q with (inject_Z 0). rewrite <- Zle_Qle. lia. }
  assert (Htn : (inject_Z t <= inject_Z n)%Q) by (rewrite <- Zle_Qle; lia).
  set (q := (inject_Z t / inject_Z n)%Q) in *.
  assert (H0 : (0 <= q)%Q) by (apply Qle_shift_div_l; [exact Hq | lra]).
  assert (H1 : (q <= 1)%Q) by (apply Qle_shift_div_r; [exact Hq | lra]).
  unfold shown, dmul, ddiv. fold q.
  destruct (rnd_error_bound 1 q) as [Ha Hb]; [lra | lra |].
  pose proof (rnd_nonneg q H0) as Hc.
  set (y := rnd q) in *.
  assert (He : (0 < eps)%Q) by reflexivity.
  assert (He' : (eps < 1 # 100)%Q) by reflexivity.
  destruct (rnd_error_bound 101 (y * 100)) as [Hd Hf]; [lra | lra |].
  pose proof (rnd_nonneg (y * 100) ltac:(lra)) as Hg.
  unfold exact. repeat split; lra.
Qed.

Lemma progress_bounds t n : 0 < t ≤ n → 0 ≤ progress_of t n ≤ 100.
Proof.
  intros H. destruct (progress_double t n H) as (H0 & _ & Hhi & _ & H100).
  unfold progress_of, Math_round.
  assert (He : (201 * eps < 1 # 2)%Q) by reflexivity.
  split.
  - apply Qfloor_ge_Z. change (inject_Z 0) with 0%Q. lra.
  - assert (Hlt : Qfloor (dmul (ddiv (inject_Z t) (inject_Z n)) 100 + (1 # 2))
                  < 101); [|lia].
    apply Qfloor_lt_Z. change (inject_Z 101) with 101%Q. lra.
Qed.

Lemma progress_full n : 0 < n → progress_of n n = 100.
Proof.
  intros Hn.
  assert (Hq : (0 < inject_Z n)%Q).
  { change 0%Q with (inject_Z 0). rewrite <- Zlt_Qlt. lia. }
  assert (H1 : (inject_Z n / inject_Z n == inject_Z 1)%Q).
  { unfold Qdiv. apply Qmult_inv_r. lra. }
  unfold progress_of, dmul, ddiv.
  rewrite (rnd_proper _ _ H1).
  assert (H2 : (rnd (inject_Z 1) * 100 == inject_Z 100)%Q).
  { rewrite (rnd_Z 1) by lia. reflexivity. }
  rewrite (rnd_proper _ _ H2).
  unfold Math_round. apply Qfloor_unique.
  - rewrite (rnd_Z 100) by lia. lra.
  - rewrite (rnd_Z 100) by lia. lra.
Qed.

(** The progress shown is within one of the exact percentage. *)
Lemma progress_near t n :
  0 < t ≤ n →
  (inject_Z t / inject_Z n * 100 - 1 < inject_Z (progress_of t n))%Q
  ∧ (inject_Z (progress_of t n) < inject_Z t / inject_Z n * 100 + 1)%Q.
Proof.
  intros H. destruct (progress_double t n H) as (_ & Hlo & Hhi & _).
  destruct (Math_round_bounds (dmul (ddiv (inject_Z t) (inject_Z n)) 100))
    as [Ha Hb].
  fold (progress_of t n) in Ha, Hb.
  assert (He : (201 * eps < 1 # 2)%Q) by reflexivity.
  split; lra.
Qed.

(** After 23 of 40 probes the quotient [23/40] is the double
    [0.57499999999999996], its product with 100 the double
    [57.499999999999993], and the progress shown is 57, where the exact
    percentage, 57.5, would round to 58. *)
Lemma progress_23_of_40 :
  progress_of 23 40 = 57 ∧ Math_round (inject_Z 23 / inject_Z 40 * 100) = 58.
Proof. split; vm_compute; reflexivity. Qed.

(** In a manual run no more probes resolve than there were candidates; the
    progress shown is 0 until the first probe resolves and then the nearest
    integer to the double [(r / n) * 100] for [r] probes resolved of [n],
    which is within one of the exact percentage; so it stays within 0..100
    and is 100 once all of them have resolved. *)
Theorem run_progress R settings shown configs0 events s :
  run R settings events (startTesting settings shown configs0) = Some s →
  let n := Z.of_nat (length (filter is_candidate shown)) in
  let r := resolutions events in
  r ≤ n
  ∧ testProgress s
    = (if r =? 0 then 0
       else Math_round (dmul (ddiv (inject_Z r) (inject_Z n)) 100))
  ∧ 0 ≤ testProgress s ≤ 100
  ∧ (0 < r →
     (inject_Z r / inject_Z n * 100 - 1 < inject_Z (testProgress s))%Q
     ∧ (inject_Z (testProgress s) < inject_Z r / inject_Z n * 100 + 1)%Q)
  ∧ (0 < n → r = n → testProgress s = 100).
Proof.
  intros Hrun n r.
  destruct (run_count _ _ _ _ _ Hrun) as [Htot Hcnt].
  destruct (startTesting_count settings shown configs0) as [Htot0 Hcnt0].
  assert (Hc : Counted s).
  { eapply run_Counted; [|exact Hrun]. apply startTesting_Counted. }
  destruct Hc as (Ht & Hsum & Hp).
  assert (Hr : testedCount s = r) by (unfold r; lia).
  assert (Hn : total s = n) by (unfold n; lia).
  rewrite Hr, Hn in *.
  assert (Hrn : r ≤ n) by lia.
  split; [exact Hrn|]. split; [exact Hp|]. rewrite Hp. split; [|split].
  - destruct (Z.eqb_spec r 0); [lia|]. apply progress_bounds. lia.
  - intros Hpos. destruct (Z.eqb_spec r 0); [lia|]. apply progress_near. lia.
  - intros Hpos ->. destruct (Z.eqb_spec n 0); [lia|]. now apply progress_full.
Qed.

(** Forty candidates, one at a time, of which twenty-three have resolved:
    the progress shown is 57. *)
Lemma run_progress_witness :
  let settings := sample_settings 1 in
  let events := replicate 23 (Resolved 0 (draws_of (1 # 40)) "t") in
  ∃ s, run sampleRuntime settings events
         (startTesting settings (sample_shown 40) (sample_inventory 40)) = Some s
       ∧ testProgress s = 57 ∧ 0 ≤ testProgress s ≤ 100.
Proof.
  intros settings events.
  destruct (run sampleRuntime settings events
              (startTesting settings (sample_shown 40) (sample_inventory 40)))
    as [s|] eqn:Hrun; [|vm_compute in Hrun; discriminate].
  exists s. split; [reflexivity|].
  destruct (run_progress sampleRuntime settings (sample_shown 40)
              (sample_inventory 40) events s Hrun) as (_ & Hp & Hb & _).
  split; [rewrite Hp; vm_compute; reflexivity | exact Hb].
Defined.

(** *** The two counters *)

Lemma testConfig_status R c tmo d :
  p_status (testConfig R c tmo d)
  = Some (if probe_failed tmo d then Inactive
          else if bool_decide (1000 < testLatency d) then Slow else Active).
Proof.
  unfold testConfig. destruct (probe_failed tmo d); [reflexivity|].
  destruct (geo d) as [| | |[] ? ?]; reflexivity.
Qed.

Lemma count_result_testConfig R c tmo d cnt :
  count_result (testConfig R c tmo d) cnt
  = if probe_failed tmo d then (fst cnt, snd cnt + 1)
    else (fst cnt + 1, snd cnt).
Proof.
  unfold count_result. rewrite testConfig_status.
  destruct (probe_failed tmo d); [reflexivity|].
  case_bool_decide; reflexivity.
Qed.

Lemma runNext_Tallied s : Tallied s → Tallied (runNext s).
Proof.
  unfold Tallied.
  now rewrite runNext_counters, runNext_testedCount, runNext_flag.
Qed.

Lemma resumed_Tallied R settings s (i : nat) config d now :
  Tallied s → Tallied (resumed R settings (drop_pending i s) config d now).
Proof.
  intros (H1 & H2 & H3 & H4). unfold Tallied, resumed. cbn.
  destruct (testingStopFlag s).
  - repeat split; try lia; discriminate.
  - rewrite count_result_testConfig. specialize (H4 eq_refl).
    destruct (probe_failed _ d); cbn; repeat split; lia.
Qed.

Lemma startTesting_Tallied settings shown configs0 :
  Tallied (startTesting settings shown configs0).
Proof.
  unfold startTesting. apply launch_invariant; [apply runNext_Tallied|].
  unfold Tallied. cbn. repeat split; lia.
Qed.

Lemma failures_cons tmo e events :
  failures tmo (e :: events) = failures tmo [e] + failures tmo events.
Proof.
  unfold failures. cbn [List.filter].
  destruct e as [i d now|]; [destruct (probe_failed tmo d)|]; cbn; lia.
Qed.

Lemma run_counters_exact R settings events s s' :
  run R settings events s = Some s' →
  testingStopFlag s = false → StopPressed ∉ events →
  counters s'
  = (fst (counters s)
     + (resolutions events - failures (timeout settings) events),
     snd (counters s) + failures (timeout settings) events).
Proof.
  revert s. induction events as [|e events IH]; intros s Hrun Hf Hno;
    cbn in Hrun.
  - injection Hrun as <-. unfold resolutions, failures. cbn.
    destruct (counters s). cbn. f_equal; lia.
  - destruct (fire R settings s e) as [s1|] eqn:Hfire; [|discriminate].
    cbn in Hrun. apply not_elem_of_cons in Hno as [He Hno].
    destruct e as [i d now|]; [|done]. cbn in Hfire.
    destruct (pending s !! i) as [config|]; [|discriminate].
    injection Hfire as <-.
    rewrite (IH _ Hrun); [| |exact Hno].
    + rewrite resume_resumed, runNext_counters.
      rewrite resolutions_cons, failures_cons. unfold resumed. cbn.
      rewrite Hf, count_result_testConfig.
      unfold resolutions, failures. cbn.
      destruct (probe_failed _ d); cbn; f_equal; lia.
    + rewrite resume_resumed, runNext_flag. exact Hf.
Qed.

Lemma startTesting_flag settings shown configs0 :
  testingStopFlag (startTesting settings shown configs0) = false
  ∧ counters (startTesting settings shown configs0) = (0, 0).
Proof.
  unfold startTesting.
  apply (launch_invariant
           (λ s, testingStopFlag s = false ∧ counters s = (0, 0)));
    [|split; reflexivity].
  intros s [H1 H2]. now rewrite runNext_flag, runNext_counters.
Qed.

(** The success and fail counters of a manual run never count more
    than the probes that resolved, and until the stop button is pressed they
    count them all: fail is the number of resolved probes that took the
    failure branch, success the number of the others. *)
Theorem run_counters R settings shown configs0 events s :
  run R settings events (startTesting settings shown configs0) = Some s →
  let failed := failures (timeout settings) events in
  0 ≤ fst (counters s) ∧ 0 ≤ snd (counters s)
  ∧ fst (counters s) + snd (counters s) ≤ resolutions events
  ∧ (StopPressed ∉ events →
     counters s = (resolutions events - failed, failed)).
Proof.
  intros Hrun failed.
  destruct (run_count _ _ _ _ _ Hrun) as [_ Hcnt].
  destruct (startTesting_count settings shown configs0) as [_ Hcnt0].
  destruct (startTesting_flag settings shown configs0) as [Hf0 Hc0].
  assert (Ht : Tallied s).
  { revert Hrun. apply (run_invariant R settings Tallied).
    - apply runNext_Tallied.
    - intros s1 (H1 & H2 & H3 & _). unfold Tallied. cbn.
      repeat split; try assumption. discriminate.
    - intros s1 i config d now H _. now apply resumed_Tallied.
    - apply startTesting_Tallied. }
  destruct Ht as (H1 & H2 & H3 & _).
  split; [exact H1|]. split; [exact H2|]. split; [lia|].
  intros Hno. rewrite (run_counters_exact _ _ _ _ _ Hrun Hf0 Hno), Hc0.
  cbn. f_equal; lia.
Qed.

Lemma run_counters_witness :
  let settings := sample_settings 3 in
  let events := [Resolved 0 (draws_of (1 # 40)) "t1";
                 Resolved 1 failing_draws "t2";
                 Resolved 0 (draws_of (1 # 40)) "t3"] in
  ∃ s, run sampleRuntime settings events
         (startTesting settings (sample_shown 10) (sample_inventory 10)) = Some s
       ∧ counters s = (2, 1).
Proof.
  intros settings events.
  destruct (run sampleRuntime settings events
              (startTesting settings (sample_shown 10) (sample_inventory 10)))
    as [s|] eqn:Hrun; [|vm_compute in Hrun; discriminate].
  exists s. split; [reflexivity|].
  destruct (run_counters sampleRuntime settings (sample_shown 10)
              (sample_inventory 10) events s Hrun) as (_ & _ & _ & Hc).
  rewrite Hc; [reflexivity|].
  subst events. rewrite !not_elem_of_cons.
  repeat split; try discriminate. apply not_elem_of_nil.
Defined.

(** *** The end of a run that is not stopped *)

Lemma elem_of_fmap_delete {A B} (f : A → B) (l : list A) (i : nat) x y :
  x ∈ f <$> l → l !! i = Some y → x ≠ f y → x ∈ f <$> delete i l.
Proof.
  intros Hin Hi Hne. rewrite delete_take_drop.
  rewrite <- (take_drop_middle l i y Hi) in Hin.
  rewrite fmap_app, elem_of_app in *. rewrite fmap_cons, elem_of_cons in Hin.
  tauto.
Qed.

Lemma runNext_Awaited cands s : Awaited cands s → Awaited cands (runNext s).
Proof.
  unfold Awaited. rewrite runNext_flag. intros H Hf. specialize (H Hf).
  unfold runNext. rewrite Hf.
  destruct (queue s) as [|config rest] eqn:Hqueue.
  - case_bool_decide; cbn [configs pending queue]; rewrite ?Hqueue; exact H.
  - cbn [configs pending queue]. rewrite <- app_assoc. exact H.
Qed.

Lemma resumed_Awaited R settings cands s (i : nat) config d now :
  Awaited cands s → pending s !! i = Some config →
  Awaited cands (resumed R settings (drop_pending i s) config d now).
Proof.
  intros H Hi Hf. cbn in Hf. specialize (H Hf). unfold resumed. cbn.
  rewrite Hf. apply Forall_fmap. eapply Forall_impl; [exact H|].
  intros c Hc. cbn. case_bool_decide as Heq.
  - intros _. right. unfold tested, applyResult. cbn.
    rewrite testConfig_status. cbn.
    destruct (probe_failed _ d); [auto|]. case_bool_decide; auto.
  - intros Hin. destruct (Hc Hin) as [[Hst Hq]|Ht]; [left | now right].
    split; [exact Hst|]. unfold ids_of in *.
    rewrite fmap_app, elem_of_app in *. destruct Hq as [Hq|Hq]; [left | now right].
    now apply (elem_of_fmap_delete _ _ _ _ config).
Qed.

Lemma startTesting_Awaited settings shown configs0 :
  Awaited (filter is_candidate shown) (startTesting settings shown configs0).
Proof.
  unfold startTesting. apply launch_invariant; [apply runNext_Awaited|].
  intros _. cbn. apply Forall_fmap, Forall_forall. intros c _. cbn.
  unfold mark_testing. destruct (existsb _ _) eqn:He.
  - intros Hin. left. split; [reflexivity | exact Hin].
  - intros Hin. apply existsb_ids in Hin. congruence.
Qed.

Lemma run_no_stop R settings events s s' :
  run R settings events s = Some s' → StopPressed ∉ events →
  testingStopFlag s' = testingStopFlag s.
Proof.
  revert s. induction events as [|e events IH]; intros s Hrun Hno;
    cbn in Hrun.
  - now injection Hrun as <-.
  - destruct (fire R settings s e) as [s1|] eqn:Hfire; [|discriminate].
    cbn in Hrun. apply not_elem_of_cons in Hno as [He Hno].
    rewrite (IH _ Hrun Hno).
    destruct e as [i d now|]; [|done]. cbn in Hfire.
    destruct (pending s !! i); [|discriminate]. injection Hfire as <-.
    now rewrite resume_resumed, runNext_flag.
Qed.

(** When a manual run reports its end without the stop button having
    been pressed, every candidate has had its probe: as many probes
    resolved as there were candidates, none is queued or in flight,
    and every record with the identifier of a candidate is [Active], [Slow]
    or [Inactive]. *)
Theorem run_ends_with_all_tested R settings shown configs0 events s :
  run R settings events (startTesting settings shown configs0) = Some s →
  StopPressed ∉ events →
  isTesting s = false →
  let cands := filter is_candidate shown in
  resolutions events = Z.of_nat (length cands)
  ∧ queue s = [] ∧ pending s = []
  ∧ Forall (λ c, id c ∈ ids_of cands → tested c) (configs s).
Proof.
  intros Hrun Hno Hend cands.
  destruct (startTesting_flag settings shown configs0) as [Hf0 _].
  assert (Hf : testingStopFlag s = false).
  { now rewrite (run_no_stop _ _ _ _ _ Hrun Hno). }
  destruct (run_Inv R settings _ _ _ (startTesting_Inv settings shown configs0) Hrun)
    as (Hr & Hb & _).
  destruct (Hb Hend) as [Hr0 [Hstop|Hq]]; [congruence|].
  assert (Hp : pending s = []).
  { apply length_zero_iff_nil. lia. }
  destruct (run_count _ _ _ _ _ Hrun) as [Htot Hcnt].
  destruct (startTesting_count settings shown configs0) as [Htot0 Hcnt0].
  destruct (run_Counted _ _ _ _ _ (startTesting_Counted settings shown configs0) Hrun)
    as (_ & Hsum & _).
  rewrite Hq, Hp in Hsum. cbn in Hsum.
  split; [fold cands in Htot0; lia|]. split; [exact Hq|]. split; [exact Hp|].
  assert (Ha : Awaited cands s).
  { revert Hrun. apply (run_invariant R settings (Awaited cands)).
    - apply runNext_Awaited.
    - intros s1 _ Hs. discriminate.
    - intros s1 i config d now. apply resumed_Awaited.
    - apply startTesting_Awaited. }
  specialize (Ha Hf). rewrite Hp, Hq in Ha.
  eapply Forall_impl; [exact Ha|]. intros c Hc Hin.
  destruct (Hc Hin) as [[_ Hnil]|Ht]; [|exact Ht].
  now apply elem_of_nil in Hnil.
Qed.

Lemma run_ends_with_all_tested_witness :
  let settings := sample_settings 3 in
  let events := [Resolved 0 (draws_of (1 # 40)) "t1";
                 Resolved 0 failing_draws "t2";
                 Resolved 0 (draws_of (30 # 40)) "t3"] in
  ∃ s, run sampleRuntime settings events
         (startTesting settings (sample_shown 3) (sample_inventory 3)) = Some s
       ∧ status <$> configs s = [Active; Inactive; Slow]
       ∧ Forall (λ c, id c ∈ ids_of (filter is_candidate (sample_shown 3)) →
                      tested c) (configs s).
Proof.
  intros settings events.
  destruct (run sampleRuntime settings events
              (startTesting settings (sample_shown 3) (sample_inventory 3)))
    as [s|] eqn:Hrun; [|vm_compute in Hrun; discriminate].
  exists s. split; [reflexivity|].
  assert (Hend : isTesting s = false
                 ∧ status <$> configs s = [Active; Inactive; Slow]).
  { vm_compute in Hrun. injection Hrun as <-. split; reflexivity. }
  split; [exact (proj2 Hend)|].
  apply (run_ends_with_all_tested sampleRuntime settings (sample_shown 3)
           (sample_inventory 3) events s Hrun); [|exact (proj1 Hend)].
  subst events. rewrite !not_elem_of_cons.
  repeat split; try discriminate. apply not_elem_of_nil.
Defined.

(** *** How many probes are in flight *)

Lemma half_up_spec n :
  0 ≤ n → 2 * ((n + 1) / 2) ≤ n + 1 ∧ n ≤ 2 * ((n + 1) / 2).
Proof.
  intros Hn. pose proof (Z.div_mod (n + 1) 2).
  pose proof (Z.mod_pos_bound (n + 1) 2). lia.
Qed.

Lemma launch_workers (cands : list ConfigWithGroups) ct fuel (k : nat) s :
  testingStopFlag s = false →
  queue s = drop k cands → pending s = take k cands →
  (length cands - k ≤ fuel)%nat →
  let n := Z.of_nat (length cands) in
  let k' := Z.to_nat (Z.max (Z.of_nat k)
                            (Z.min (worker_bound ct n) ((n + 1) / 2))) in
  queue (launch fuel ct (Z.of_nat k) s) = drop k' cands
  ∧ pending (launch fuel ct (Z.of_nat k) s) = take k' cands.
Proof.
  intros Hf Hq Hp Hfuel n k'. subst k'.
  assert (Hn : n = Z.of_nat (length cands)) by reflexivity.
  set (b := worker_bound ct n).
  assert (Hb : ∀ (i : nat) len, Z.of_nat len ≤ n →
                 lt_min (Z.of_nat i) ct len = true
                 ↔ Z.of_nat i < b ∧ Z.of_nat i < Z.of_nat len).
  { intros i len Hlen. apply lt_min_bound; lia. }
  clearbody b n.
  destruct (half_up_spec n) as [Hh1 Hh2]; [lia|].
  set (h := (n + 1) / 2) in *. clearbody h.
  revert k s Hf Hq Hp Hfuel.
  induction fuel as [|fuel IH]; intros k s Hf Hq Hp Hfuel.
  - cbn [launch].
    destruct (decide (k ≤ length cands)%nat) as [Hk|Hk].
    + replace (Z.to_nat _) with k by lia. auto.
    + rewrite Hq, Hp, !drop_ge, !take_ge by lia. auto.
  - cbn [launch].
    assert (Hlenq : Z.of_nat (length (queue s)) ≤ n)
      by (rewrite Hq, length_drop; lia).
    destruct (lt_min (Z.of_nat k) ct (length (queue s))) eqn:Hc.
    + apply (Hb k _ Hlenq) in Hc as [Hkc Hlen].
      rewrite Hq, length_drop in Hlen.
      destruct (queue s) as [|config rest] eqn:Hqueue.
      { exfalso. symmetry in Hq. apply drop_nil_inv in Hq. lia. }
      destruct (runNext_starts s config rest Hf Hqueue) as (_ & Hq' & Hp' & _).
      symmetry in Hq. apply drop_cons_inv in Hq as [Hk Hd].
      replace (Z.of_nat k + 1) with (Z.of_nat (S k)) by lia.
      destruct (IH (S k) (runNext s)) as [H1 H2].
      * now rewrite runNext_flag.
      * now rewrite Hq'.
      * rewrite Hp', Hp. symmetry. now apply take_S_r.
      * lia.
      * replace (Z.max (Z.of_nat k) (Z.min b h))
          with (Z.max (Z.of_nat (S k)) (Z.min b h)) by lia.
        auto.
    + assert (Hle : Z.min b h ≤ Z.of_nat k ∨ (length cands < k)%nat).
      { destruct (decide (k ≤ length cands)%nat) as [Hk|Hk]; [left | right; lia].
        destruct (Z_lt_le_dec (Z.of_nat k) (Z.min b h)) as [Hlt|]; [|assumption].
        exfalso. assert (Ht : lt_min (Z.of_nat k) ct (length (queue s)) = true);
          [|congruence].
        apply (Hb k _ Hlenq). rewrite Hq, length_drop. lia. }
      destruct Hle as [Hle|Hk].
      * replace (Z.to_nat _) with k by lia. auto.
      * rewrite Hq, Hp, !drop_ge, !take_ge by lia. auto.
Qed.

(** What the loop of [startTesting] leaves: the first candidates in flight,
    the others queued. *)
Lemma startTesting_launched settings shown configs0 :
  let cands := filter is_candidate shown in
  let n := Z.of_nat (length cands) in
  let s := startTesting settings shown configs0 in
  let k := Z.to_nat (Z.min (worker_bound (concurrentTests settings) n)
                           ((n + 1) / 2)) in
  pending s = take k cands ∧ queue s = drop k cands.
Proof.
  intros cands n s k. unfold s, k, startTesting. fold cands.
  set (s0 := Build_Sched _ _ _ _ _ _ _ _ _ _).
  destruct (launch_workers cands (concurrentTests settings) (length cands) 0 s0)
    as [H1 H2]; [reflexivity | reflexivity | reflexivity | lia |].
  change (Z.of_nat 0) with 0 in H1, H2.
  assert (E : ∀ x, Z.to_nat (Z.max 0 x) = Z.to_nat x) by (intros; lia).
  rewrite E in H1, H2. split; [exact H2 | exact H1].
Qed.

(** For a concurrency [c] and [n] candidates [startTesting] starts
    min(ceil(c), ceil(n/2)) probes: the least integer that is not below
    [c] counts, not [c], because the counter of the loop is compared with
    [c] as it is; and ceil(n/2) counts, not [n], because the loop reads
    [queue.length] again after every probe it has taken off the queue.  The
    probes started are the first candidates in the order of the display.
    With the concurrency [Infinity] the loop starts ceil(n/2) probes; with
    a concurrency that is not a number, or not above 0, it starts none. *)
Theorem startTesting_workers settings shown configs0 :
  let cands := filter is_candidate shown in
  let n := Z.of_nat (length cands) in
  let s := startTesting settings shown configs0 in
  let k := match concurrentTests settings with
           | Num c => Z.to_nat (Z.min (Qceiling c) ((n + 1) / 2))
           | Infinity => Z.to_nat ((n + 1) / 2)
           | NaN | NegInfinity => 0%nat
           end in
  pending s = take k cands ∧ queue s = drop k cands
  ∧ running s = Z.of_nat k ∧ (k ≤ length cands)%nat
  ∧ (∀ c, concurrentTests settings = Num c → (c <= 0)%Q → k = 0%nat).
Proof.
  intros cands n s k.
  destruct (half_up_spec n) as [Hh1 Hh2]; [unfold n; lia|].
  assert (Hk' : k = Z.to_nat (Z.min (worker_bound (concurrentTests settings) n)
                                    ((n + 1) / 2))).
  { unfold k. destruct (concurrentTests settings); cbn [worker_bound];
      [lia | reflexivity | | lia].
    f_equal. set (h := (n + 1) / 2) in *. unfold n in *. lia. }
  assert (Hk : (k ≤ length cands)%nat).
  { rewrite Hk'. fold n. set (h := (n + 1) / 2) in *. unfold n in *. lia. }
  destruct (startTesting_launched settings shown configs0) as [Hp Hq].
  fold cands n s in Hp, Hq. rewrite <- Hk' in Hp, Hq.
  split; [exact Hp|]. split; [exact Hq|]. split; [|split; [exact Hk|]].
  - destruct (startTesting_Inv settings shown configs0) as (Hr & _).
    fold s in Hr. rewrite Hr, Hp, length_take. lia.
  - intros c Hc Hle. unfold k. rewrite Hc.
    assert (Hz : Qceiling c ≤ 0).
    { destruct (Z_lt_le_dec 0 (Qceiling c)) as [Hlt|]; [|assumption].
      apply lt_Qceiling in Hlt. change (inject_Z 0) with 0%Q in Hlt. lra. }
    lia.
Qed.

Lemma runNext_pending_length s :
  (length (pending (runNext s)) ≤ S (length (pending s)))%nat.
Proof.
  unfold runNext.
  destruct (testingStopFlag s); [|destruct (queue s)]; try case_bool_decide;
    cbn [pending]; rewrite ?length_app; cbn [length]; lia.
Qed.

Lemma run_pending_length R settings events s s' :
  run R settings events s = Some s' →
  (length (pending s') ≤ length (pending s))%nat.
Proof.
  revert s. induction events as [|e events IH]; intros s Hrun; cbn in Hrun.
  - injection Hrun as <-. lia.
  - destruct (fire R settings s e) as [s1|] eqn:Hfire; [|discriminate].
    cbn in Hrun. etransitivity; [apply (IH _ Hrun)|].
    destruct e as [i d now|]; cbn in Hfire.
    + destruct (pending s !! i) as [config|] eqn:Hi; [|discriminate].
      injection Hfire as <-. rewrite resume_resumed.
      etransitivity; [apply runNext_pending_length|]. cbn.
      assert (Hlen : (i < length (pending s))%nat)
        by (eapply lookup_lt_Some, Hi).
      rewrite length_delete by eauto. lia.
    + destruct (isTesting s); [|discriminate]. now injection Hfire as <-.
Qed.

(** All along a manual run the number of probes in flight never
    exceeds the number [startTesting] started, so it is at most
    ceil(n/2) for [n] candidates however large the configured
    concurrency. *)
Theorem run_workers_at_most_half R settings shown configs0 events s :
  run R settings events (startTesting settings shown configs0) = Some s →
  let n := Z.of_nat (length (filter is_candidate shown)) in
  (length (pending s)
   ≤ length (pending (startTesting settings shown configs0)))%nat
  ∧ Z.of_nat (length (pending s)) ≤ (n + 1) / 2.
Proof.
  intros Hrun n. pose proof (run_pending_length _ _ _ _ _ Hrun) as Hle.
  split; [exact Hle|].
  destruct (startTesting_launched settings shown configs0) as [Hp _].
  rewrite Hp, length_take in Hle.
  destruct (half_up_spec n) as [Hh1 Hh2]; [unfold n; lia|].
  fold n in Hle. set (h := (n + 1) / 2) in *. unfold n in *. lia.
Qed.

Lemma run_workers_at_most_half_witness :
  let settings := sample_settings 20 in
  let events := [Resolved 4 (draws_of (1 # 40)) "t1";
                 Resolved 0 (draws_of (1 # 40)) "t2"] in
  ∃ s, run sampleRuntime settings events
         (startTesting settings (sample_shown 10) (sample_inventory 10)) = Some s
       ∧ Z.of_nat (length (pending s)) ≤ 5.
Proof.
  intros settings events.
  destruct (run sampleRuntime settings events
              (startTesting settings (sample_shown 10) (sample_inventory 10)))
    as [s|] eqn:Hrun; [|vm_compute in Hrun; discriminate].
  exists s. split; [reflexivity|].
  exact (proj2 (run_workers_at_most_half sampleRuntime settings (sample_shown 10)
                  (sample_inventory 10) events s Hrun)).
Defined.

(** *** A run that starts no probe *)

Lemma mark_testing_nil (l : list ProxyConfig) : mark_testing [] <$> l = l.
Proof.
  induction l as [|c l IH]; [reflexivity|]. cbn. now rewrite IH.
Qed.

(** A manual run started while no displayed record is [Untested] or
    [Inactive] starts no probe and never reports its end: whatever happens
    next, [isTesting] stays true (the button reads "stop" and the
    unattended pass stays off), no probe ever resolves, and the inventory
    is as it was. *)
Theorem startTesting_without_candidates R settings shown configs0 events s :
  filter is_candidate shown = [] →
  run R settings events (startTesting settings shown configs0) = Some s →
  isTesting s = true ∧ resolutions events = 0 ∧ configs s = configs0
  ∧ testProgress s = 0.
Proof.
  intros Hnone Hrun.
  assert (Hs0 : startTesting settings shown configs0
                = {| configs := configs0; isTesting := true;
                     testingStopFlag := false; counters := (0, 0);
                     testProgress := 0; total := 0; queue := [];
                     running := 0; testedCount := 0; pending := [] |}).
  { unfold startTesting. rewrite Hnone. cbn. now rewrite mark_testing_nil. }
  destruct (run_stuck R settings events _ s
              (f_equal pending Hs0) (f_equal isTesting Hs0) Hrun)
    as (_ & Ht & Hc).
  destruct (run_count _ _ _ _ _ Hrun) as [Htot Hcnt].
  destruct (run_Counted _ _ _ _ _ (startTesting_Counted settings shown configs0) Hrun)
    as (Ht0 & Hsum & Hp).
  rewrite Hs0 in Htot, Hcnt, Hc. cbn in Htot, Hcnt, Hc.
  assert (H0 : testedCount s = 0) by lia.
  split; [exact Ht|]. split; [lia|]. split; [exact Hc|].
  rewrite Hp, H0. reflexivity.
Qed.

Lemma startTesting_without_candidates_witness :
  let settings := sample_settings 3 in
  let configs0 := set_status Active <$> sample_inventory 2 in
  let shown := ungrouped configs0 in
  let events := [StopPressed; StopPressed] in
  ∃ s, run sampleRuntime settings events (startTesting settings shown configs0)
       = Some s
       ∧ isTesting s = true ∧ configs s = configs0.
Proof.
  intros settings configs0 shown events.
  destruct (run sampleRuntime settings events
              (startTesting settings shown configs0))
    as [s|] eqn:Hrun; [|vm_compute in Hrun; discriminate].
  exists s. split; [reflexivity|].
  destruct (startTesting_without_candidates sampleRuntime settings shown configs0
              events s eq_refl Hrun) as (Ht & _ & Hc & _).
  split; [exact Ht | exact Hc].
Defined.

(** ** testConfig: the place of the server *)

Lemma find_key_spec (l : list (string * string)) key kv :
  List.find (λ kv, String.eqb (fst kv) key) l = Some kv →
  fst kv = key ∧ kv ∈ l.
Proof.
  intros H. apply find_some in H as [Hin Heq].
  apply String.eqb_eq in Heq. split; [exact Heq | now apply list_elem_of_In].
Qed.

Lemma or_str_cases s alt :
  (s ≠ EmptyString ∧ or_str s alt = s) ∨ (s = EmptyString ∧ or_str s alt = alt).
Proof.
  unfold or_str. destruct (String.eqb_spec s EmptyString); [right | left]; auto.
Qed.

Lemma find_key_None (l : list (string * string)) key :
  key ∉ l.*1 → List.find (λ kv, String.eqb (fst kv) key) l = None.
Proof.
  intros Hnot. destruct (List.find _ l) as [kv|] eqn:Hfind; [|reflexivity].
  apply find_key_spec in Hfind as [Hk Hin]. exfalso. apply Hnot.
  rewrite <- Hk. now apply list_elem_of_fmap_2.
Qed.

Lemma find_key_in (l : list (string * string)) key :
  key ∈ l.*1 →
  ∃ v, List.find (λ kv, String.eqb (fst kv) key) l = Some (key, v).
Proof.
  induction l as [|[k v] l IH]; intros Hin; [now apply elem_of_nil in Hin|].
  cbn. destruct (String.eqb_spec k key) as [->|Hne]; [eauto|].
  apply IH. cbn in Hin. apply elem_of_cons in Hin as [Heq|Hin]; [congruence|].
  exact Hin.
Qed.

Lemma find_key_NoDup (l : list (string * string)) key v :
  NoDup l.*1 → (key, v) ∈ l →
  List.find (λ kv, String.eqb (fst kv) key) l = Some (key, v).
Proof.
  induction l as [|[k w] l IH]; intros Hnd Hin; [now apply elem_of_nil in Hin|].
  cbn in Hnd. apply NoDup_cons in Hnd as [Hk Hnd]. cbn.
  apply elem_of_cons in Hin as [Heq|Hin].
  - injection Heq as <- <-. now rewrite String.eqb_refl.
  - destruct (String.eqb_spec k key) as [->|Hne]; [|now apply IH].
    exfalso. apply Hk. change key with (fst (key, v)).
    now apply list_elem_of_fmap_2.
Qed.

(** A probe changes the address and the country of a record only when
    it succeeds and the geolocation service answers with a JSON value that
    is not a bogon; then the address is the one answered, the country code
    is the answered one if it is a key of the table (and not the empty
    string) and [UNKNOWN] otherwise, and the country name is the name the
    table has for that code, or [Unknown] when the table has no entry for
    the code or an empty name.  In every other case the three fields stay
    as they were. *)
Theorem probe_place R tmo config c d now :
  let c' := probe R tmo config (d, now) c in
  match located tmo d with
  | None => ip c' = ip c ∧ country c' = country c ∧ countryCode c' = countryCode c
  | Some (geo_ip, geo_country) =>
      let code :=
        if bool_decide (geo_country ∈ (COUNTRIES R).*1
                        ∧ geo_country ≠ EmptyString)
        then geo_country else "UNKNOWN" in
      ip c' = geo_ip
      ∧ countryCode c' = code
      ∧ (code ∉ (COUNTRIES R).*1 → country c' = "Unknown")
      ∧ (∀ nm, NoDup (COUNTRIES R).*1 → (code, nm) ∈ COUNTRIES R →
               country c' = if String.eqb nm EmptyString then "Unknown" else nm)
  end.
Proof.
  intros c'. subst c'. unfold located, probe, applyResult, testConfig. cbn.
  destruct (probe_failed tmo d); [repeat split|].
  destruct (geo d) as [| | |[] gip gc]; try (repeat split; fail).
  cbn. split; [reflexivity|].
  set (code := or_str _ "UNKNOWN").
  assert (Hcode : code = if bool_decide (gc ∈ (COUNTRIES R).*1 ∧ gc ≠ EmptyString)
                         then gc else "UNKNOWN").
  { unfold code. case_bool_decide as Hin.
    - destruct Hin as [Hin Hne].
      destruct (find_key_in _ _ Hin) as [v ->]. cbn.
      unfold or_str. destruct (String.eqb_spec gc EmptyString); [done|reflexivity].
    - destruct (decide (gc ∈ (COUNTRIES R).*1)) as [Hk|Hk].
      + destruct (find_key_in _ _ Hk) as [v ->]. cbn.
        unfold or_str. destruct (String.eqb_spec gc EmptyString) as [->|Hne];
          [reflexivity|]. exfalso. apply Hin. auto.
      + rewrite (find_key_None _ _ Hk). reflexivity. }
  split; [exact Hcode|]. rewrite <- Hcode. clearbody code.
  unfold lookup_country. split.
  - intros Hnot. rewrite (find_key_None _ _ Hnot). reflexivity.
  - intros nm Hnd Hin. rewrite (find_key_NoDup _ _ _ Hnd Hin). reflexivity.
Qed.

(** ** addProcessedConfigs, further *)




Lemma parse_outcome_keys R raw :
  p_ip (parse_outcome R raw) = None
  ∧ p_country (parse_outcome R raw) = None
  ∧ p_countryCode (parse_outcome R raw) = None
  ∧ p_latency (parse_outcome R raw) = None
  ∧ p_status (parse_outcome R raw) = None
  ∧ p_score (parse_outcome R raw) = None
  ∧ p_latencyHistory (parse_outcome R raw) = None
  ∧ p_speed (parse_outcome R raw) = None.
Proof.
  unfold parse_outcome, parseConfig_try.
  destruct (startsWith raw "vmess://").
  - destruct (atob R _) as [decoded|]; cbn; [|repeat split].
    destruct (JSON_parse R decoded) as [data|]; cbn; [|repeat split].
    destruct (get_prop data "ps"); cbn; [|repeat split].
    destruct (get_prop data "add"); cbn; [|repeat split].
    destruct (get_prop data "port") as [prt|]; cbn -[Number]; [|repeat split].
    destruct (Number R prt); cbn; repeat split.
  - destruct (_ || _); [|repeat split].
    destruct (new_URL R raw) as [url|]; cbn; [|repeat split].
    destruct (decodeURIComponent R _); cbn; repeat split.
Qed.

Lemma made_fresh R k raws : Forall fresh (made R k raws).
Proof.
  revert k. induction raws as [|raw raws IH]; intros k; cbn [made];
    constructor; [|apply IH].
  destruct (parse_outcome_keys R raw)
    as (H1 & H2 & H3 & H4 & H5 & H6 & H7 & H8).
  unfold fresh. cbn. rewrite H1, H2, H3, H4, H5, H6, H7, H8. repeat split.
Qed.

(** [addProcessedConfigs] only appends to the inventory [setConfigs] hands
    it: the records that were there keep their place and content, the
    returned count is the number of records appended, and each of them is a
    fresh record (never tested, in no group, of unknown place) whose raw
    string is a string of the batch that is not blank and was not in the
    inventory of the closure the call runs in; so it was not in the
    inventory appended to either when that holds no other raw strings than
    the closure saw. *)
Theorem addProcessedConfigs_appends_fresh R k configs prev rawConfigs inventory n :
  addProcessedConfigs R k configs prev rawConfigs = Ok (inventory, n) →
  ∃ added,
    inventory = prev ++ added ∧ length added = n
    ∧ rawConfig <$> added
      = filter (λ raw, trim raw ≠ EmptyString ∧ raw ∉ rawConfig <$> configs)
               rawConfigs
    ∧ Forall (λ c, fresh c ∧ trim (rawConfig c) ≠ EmptyString
                   ∧ rawConfig c ∈ rawConfigs
                   ∧ (rawConfig c ∉ rawConfig <$> configs)
                   ∧ ((∀ raw, raw ∈ rawConfig <$> prev →
                              raw ∈ rawConfig <$> configs) →
                      rawConfig c ∉ rawConfig <$> prev)) added.
Proof.
  rewrite addProcessedConfigs_ok. intros [= <- <-].
  set (kept := filter _ rawConfigs).
  exists (made R k kept). split; [reflexivity|]. split; [apply made_length|].
  split.
  { rewrite made_rawConfig. unfold kept. apply list_filter_iff.
    intros raw. unfold is_new. now rewrite elem_of_list_to_set. }
  apply Forall_forall. intros c Hc.
  split; [exact (proj1 (Forall_forall _ _) (made_fresh R k kept) c Hc)|].
  assert (Hraw : rawConfig c ∈ kept).
  { rewrite <- (made_rawConfig R k kept). now apply list_elem_of_fmap_2. }
  apply list_elem_of_filter in Hraw as [[Ht Hnew] Hin].
  rewrite elem_of_list_to_set in Hnew.
  split; [exact Ht|]. split; [exact Hin|]. split; [exact Hnew|].
  intros Hsub Hp. apply Hnew, Hsub, Hp.
Qed.

Lemma addProcessedConfigs_appends_fresh_witness :
  let configs := sample_inventory 2 in
  let raws := ["trojan://pw@10.0.0.2:443"; sample_raw 1; "not a link"] in
  ∃ inventory n added,
    addProcessedConfigs sampleRuntime 2 configs configs raws = Ok (inventory, n)
    ∧ inventory = configs ++ added ∧ length added = n
    ∧ rawConfig <$> added = ["trojan://pw@10.0.0.2:443"; "not a link"]
    ∧ Forall fresh added.
Proof.
  intros configs raws.
  destruct (addProcessedConfigs sampleRuntime 2 configs configs raws)
    as [[inventory n]|e] eqn:Hadd; [|vm_compute in Hadd; discriminate].
  destruct (addProcessedConfigs_appends_fresh sampleRuntime 2 configs configs raws
              inventory n Hadd) as (added & Hinv & Hlen & Hraws & Hall).
  exists inventory, n, added. split; [reflexivity|].
  split; [exact Hinv|]. split; [exact Hlen|].
  split; [rewrite Hraws; vm_compute; reflexivity|].
  eapply Forall_impl; [exact Hall|]. intros c Hc. exact (proj1 Hc).
Defined.

(** ** The unattended pass *)

Lemma applyResult_tested R c c' tmo d now :
  tested (applyResult c (testConfig R c' tmo d) now).
Proof.
  unfold tested, applyResult. cbn. rewrite testConfig_status. cbn.
  destruct (probe_failed tmo d); [auto|]. case_bool_decide; auto.
Qed.

Lemma autoTest_loop_map R settings l ds (inventory : list ProxyConfig) :
  (length l ≤ length ds)%nat →
  ∃ f : ProxyConfig → ProxyConfig,
    autoTest_loop R settings l ds inventory = f <$> inventory
    ∧ ∀ c, (id c ∈ id <$> l → tested (f c))
           ∧ (id c ∉ id <$> l → f c = c)
           ∧ (tested c → tested (f c))
           ∧ id (f c) = id c.
Proof.
  revert ds inventory. induction l as [|config rest IH]; intros ds inventory Hlen.
  - exists (λ c, c). split; [now rewrite list_fmap_id|].
    intros c. repeat split; auto. intros Hin. now apply elem_of_nil in Hin.
  - destruct ds as [|[d now] ds]; [cbn in Hlen; lia|].
    rewrite autoTest_loop_cons.
    set (g := λ c, if bool_decide (id c = id config)
                   then applyResult c (testConfig R config (timeout settings) d) now
                   else c).
    destruct (IH ds (g <$> inventory)) as (f & Hf & Hspec);
      [cbn in Hlen; lia|].
    assert (Hg : ∀ c, id (g c) = id c ∧ (tested c → tested (g c))).
    { intros c. unfold g. case_bool_decide; [|auto].
      split; [reflexivity|]. intros _. apply applyResult_tested. }
    exists (f ∘ g). split; [now rewrite Hf, list_fmap_compose|].
    intros c. destruct (Hg c) as [Hid Hgt].
    destruct (Hspec (g c)) as (H1 & H2 & H3 & H4). rewrite Hid in *.
    cbn [compose]. rewrite fmap_cons. repeat split.
    + intros Hin. apply elem_of_cons in Hin as [Heq|Hin]; [|now apply H1].
      apply H3. unfold g. rewrite bool_decide_eq_true_2 by exact Heq.
      apply applyResult_tested.
    + intros Hnot. apply not_elem_of_cons in Hnot as [Hne Hnot].
      rewrite (H2 Hnot). unfold g. now rewrite bool_decide_eq_false_2.
    + auto.
    + congruence.
Qed.

(** An unattended pass that is given a draw for every probe leaves no
    record [Untested], and, when it is set to test every record, leaves
    every record [Active], [Slow] or [Inactive]; like a manual run it
    changes no identifier, raw string, name, protocol, host, port or
    group. *)
Theorem startAutoTest_outcome R settings ds configs0 :
  (length (autoTest_candidates settings configs0) ≤ length ds)%nat →
  let out := startAutoTest R settings false ds configs0 in
  Forall (λ c, status c ≠ Untested) out
  ∧ (autoTestOnlyInactive settings = false → Forall tested out)
  ∧ identity <$> out = identity <$> configs0.
Proof.
  intros Hlen out. subst out. unfold startAutoTest.
  split; [|split; [|apply autoTest_loop_identity]].
  - destruct (autoTest_loop_map R settings _ ds configs0 Hlen) as (f & -> & Hspec).
    apply Forall_fmap, Forall_forall. intros c Hc. cbn.
    destruct (Hspec c) as (H1 & H2 & _).
    destruct (decide (id c ∈ id <$> autoTest_candidates settings configs0))
      as [Hin|Hnot].
    + destruct (H1 Hin) as [Hs|[Hs|Hs]]; rewrite Hs; discriminate.
    + rewrite (H2 Hnot). intros Hs. apply Hnot.
      apply list_elem_of_fmap_2. unfold autoTest_candidates.
      destruct (autoTestOnlyInactive settings); [|exact Hc].
      apply list_elem_of_filter. auto.
  - intros Hall.
    destruct (autoTest_loop_map R settings _ ds configs0 Hlen) as (f & -> & Hspec).
    apply Forall_fmap, Forall_forall. intros c Hc. cbn.
    destruct (Hspec c) as (H1 & _). apply H1.
    apply list_elem_of_fmap_2. unfold autoTest_candidates. now rewrite Hall.
Qed.

Lemma startAutoTest_outcome_witness :
  let settings := sample_settings 3 in
  let out := startAutoTest sampleRuntime settings false twelve_draws
               (sample_inventory 3) in
  status <$> out = [Active; Active; Inactive]
  ∧ Forall (λ c, status c ≠ Untested) out
  ∧ identity <$> out = identity <$> sample_inventory 3.
Proof.
  intros settings out. split; [reflexivity|].
  destruct (startAutoTest_outcome sampleRuntime settings twelve_draws
              (sample_inventory 3)) as (H1 & _ & H3).
  - vm_compute. lia.
  - split; [exact H1 | exact H3].
Defined.
